(** * MQTT "Twitter-like" publisher and subscriber: a shallow embedding

    The two programs [publisher.py] and [subscriber.py] are Tkinter front
    ends over the paho-mqtt client.  This development embeds the logic of
    both files (hashtag normalisation, the connection toggle, the worker
    thread, the client callbacks, the queue drains, publish, subscribe and
    unsubscribe) and proves the properties the specification states about
    them.

    Python values are modelled as follows.
    - A [str] is a list of Unicode code points ([N]).
    - A [bytes] object is a list of [Byte.byte].
    - A [queue.Queue] is a list, oldest entry first.
    - A [set] of strings is a [gset].
    - Exceptions, widget state and calls into the MQTT client library are
      threaded through a state-and-exception monad; every call that leaves
      the program (message boxes, client calls, thread starts, timers) is
      appended to a trace.
    - The answers of the client library, the presence of the library,
      the clock and the order in which Python iterates a set are
      parameters ([Env]); every property holds for all of them.
    - The worker thread and the callbacks of the client library run beside
      the GUI thread.  The model interleaves whole bodies: a button
      handler, a drain, a worker or a callback runs to its end before the
      next one starts ([Publisher.reachable], [Subscriber.reachable]).
    - A [while True] loop takes fuel; running out of fuel is an outcome of
      its own ([Unfinished]), and the properties of the drains show that it
      does not occur once the fuel exceeds the length of the queue. *)

From Stdlib Require Import String Ascii List NArith ZArith Lia Bool DecimalString.
From stdpp Require Import base gmap sets list.
Import ListNotations.

Local Open Scope N_scope.

(** ** Python strings *)

Module Py.

Abbreviation char := N (only parsing).
Abbreviation str := (list N) (only parsing).

(** Code point of an ASCII character, and the [str] of an ASCII literal. *)
Definition ord (a : ascii) : char := N_of_ascii a.
Definition lit (s : string) : str := List.map ord (list_ascii_of_string s).
Arguments ord _%_char.
Arguments lit _%_string.

(** [str.isspace] on one code point (CPython's [Py_UNICODE_ISSPACE]); the
    regular-expression class [\s] on a [str] pattern is the same set. *)
Definition isspace (c : char) : bool :=
  ((0x09 <=? c) && (c <=? 0x0D))
  || ((0x1C <=? c) && (c <=? 0x20))
  || (c =? 0x85) || (c =? 0xA0) || (c =? 0x1680)
  || ((0x2000 <=? c) && (c <=? 0x200A))
  || (c =? 0x2028) || (c =? 0x2029) || (c =? 0x202F)
  || (c =? 0x205F) || (c =? 0x3000).

(** [s.lstrip()]: drop the leading whitespace. *)
Fixpoint lstrip (s : str) : str :=
  match s with
  | [] => []
  | c :: t => if isspace c then lstrip t else s
  end.

(** [s.rstrip()]: drop the trailing whitespace. *)
Fixpoint rstrip (s : str) : str :=
  match s with
  | [] => []
  | c :: t =>
      match rstrip t with
      | [] => if isspace c then [] else [c]
      | t' => c :: t'
      end
  end.

(** [s.strip()] *)
Definition strip (s : str) : str := rstrip (lstrip s).

(** [s.startswith(p)] *)
Fixpoint startswith (p s : str) : bool :=
  match p, s with
  | [], _ => true
  | _ :: _, [] => false
  | a :: p', b :: s' => (a =? b) && startswith p' s'
  end.

(** [s.lstrip(chars)]: drop the leading characters that occur in [chars]. *)
Fixpoint lstrip_chars (chars s : str) : str :=
  match s with
  | [] => []
  | c :: t => if existsb (N.eqb c) chars then lstrip_chars chars t else s
  end.

(** Truthiness of a [str]: the empty string is false. *)
Definition truthy (s : str) : bool :=
  match s with [] => false | _ :: _ => true end.

(** [a or b] on strings. *)
Definition or_else (a b : str) : str := if truthy a then a else b.

End Py.

(** ** Regular-expression substitution *)

Module Re.
Import Py.

(** A pattern is represented by its anchored matcher: the number of
    characters the engine consumes at the head of the text, if the pattern
    matches there.  Both patterns of the programs consume at least one
    character when they match. *)
Definition matcher := str -> option nat.

Fixpoint span_length (p : char -> bool) (s : str) : nat :=
  match s with
  | [] => O
  | c :: t => if p c then S (span_length p t) else O
  end.

(** [\s+]: greedy, takes the whole run of whitespace. *)
Definition ws_plus : matcher := fun s =>
  match span_length isspace s with
  | O => None
  | S n => Some (S n)
  end.

(** The class [A-Za-z0-9_\-]. *)
Definition tag_char (c : char) : bool :=
  ((ord "A" <=? c) && (c <=? ord "Z"))
  || ((ord "a" <=? c) && (c <=? ord "z"))
  || ((ord "0" <=? c) && (c <=? ord "9"))
  || (c =? ord "_") || (c =? ord "-").

(** [[^A-Za-z0-9_\-]]: one character outside the class. *)
Definition not_tag_char : matcher := fun s =>
  match s with
  | [] => None
  | c :: _ => if tag_char c then None else Some 1%nat
  end.

(** [re.sub(pattern, repl, s)] for a pattern without empty matches: scan
    from the left; where the pattern matches, emit [repl] and skip the
    match, otherwise copy one character. *)
Fixpoint sub_loop (fuel : nat) (m : matcher) (repl s : str) : str :=
  match fuel, s with
  | _, [] => []
  | O, _ :: _ => s
  | S fuel', c :: t =>
      match m s with
      | Some n => repl ++ sub_loop fuel' m repl (skipn n s)
      | None => c :: sub_loop fuel' m repl t
      end
  end.

Definition sub (m : matcher) (repl s : str) : str :=
  sub_loop (length s) m repl s.

End Re.

Import Py.

(** ** [sanitize_hashtag] (the same text in both programs) *)

Definition sanitize_hashtag (tag : str) : str :=
  let tag := strip tag in
  let tag := if startswith (lit "#") tag then skipn 1 tag else tag in
  let tag := Re.sub Re.ws_plus (lit "_") tag in
  let tag := Re.sub Re.not_tag_char (lit "") tag in
  tag.

(** ** The normalisation as the specification words it *)

Module TopicNaming.

Fixpoint drop_ws (s : str) : str :=
  match s with
  | [] => []
  | c :: t => if isspace c then drop_ws t else c :: t
  end.

(** Trim leading and trailing whitespace. *)
Definition trim (s : str) : str := rev (drop_ws (rev (drop_ws s))).

(** Strip one leading marker character, if present. *)
Definition strip_marker (s : str) : str :=
  match s with
  | c :: t => if c =? ord "#" then t else s
  | [] => []
  end.

(** Replace each run of whitespace by a single underscore: a whitespace
    character yields an underscore exactly when it closes its run. *)
Fixpoint collapse_ws (s : str) : str :=
  match s with
  | [] => []
  | c :: t =>
      if isspace c then
        match t with
        | c' :: _ => if isspace c' then collapse_ws t
                     else ord "_" :: collapse_ws t
        | [] => [ord "_"]
        end
      else c :: collapse_ws t
  end.

(** Delete every character outside [A-Za-z0-9_-]. *)
Definition keep_tag_chars (s : str) : str := List.filter Re.tag_char s.

Definition normalize (raw : str) : str :=
  keep_tag_chars (collapse_ws (strip_marker (trim raw))).

End TopicNaming.

(** ** Exceptions, outcomes and the state-and-exception monad *)

Module Eff.

(** The exceptions that occur in the two programs.  All of them are
    subclasses of Python's [Exception]. *)
Inductive exn :=
| Empty                                   (* queue.Empty *)
| TclError                                (* tkinter.TclError *)
| AttributeError                          (* attribute access on None *)
| UnicodeDecodeError (start stop : nat) (reason : str)
| LibraryError (text : str).              (* raised inside paho-mqtt *)

Definition is_Empty (e : exn) : bool :=
  match e with Empty => true | _ => false end.

(** [str(e)] *)
Definition exn_text (e : exn) : str :=
  match e with
  | Empty => lit ""
  | TclError => lit "expected integer"
  | AttributeError => lit "'NoneType' object has no attribute"
  | UnicodeDecodeError _ _ reason => reason
  | LibraryError text => text
  end.

(** The way a piece of code ends: it returns, it raises, or the fuel given
    to one of its loops ran out before the loop ended. *)
Inductive outcome (A : Type) :=
| Ok (a : A)
| Raise (e : exn)
| Unfinished.
Arguments Ok {A} a.
Arguments Raise {A} e.
Arguments Unfinished {A}.

Definition M (S A : Type) : Type := S -> outcome A * S.

Definition ret {S A} (a : A) : M S A := fun s => (Ok a, s).

Definition bind {S A B} (m : M S A) (k : A -> M S B) : M S B :=
  fun s =>
    match m s with
    | (Ok a, s') => k a s'
    | (Raise e, s') => (Raise e, s')
    | (Unfinished, s') => (Unfinished, s')
    end.

Definition raise {S A} (e : exn) : M S A := fun s => (Raise e, s).
Definition gets {S A} (f : S -> A) : M S A := fun s => (Ok (f s), s).
Definition modify {S} (f : S -> S) : M S unit := fun s => (Ok tt, f s).

(** [try: m  except <filter> as e: h e] *)
Definition try_except {S A} (m : M S A) (catches : exn -> bool)
    (h : exn -> M S A) : M S A :=
  fun s =>
    match m s with
    | (Raise e, s') => if catches e then h e s' else (Raise e, s')
    | r => r
    end.

(** [except Exception] catches every exception of the model. *)
Definition Exception (e : exn) : bool := true.

(** [try: m  finally: f] *)
Definition try_finally {S A} (m : M S A) (f : M S unit) : M S A :=
  fun s =>
    match m s with
    | (Unfinished, s') => (Unfinished, s')
    | (r, s') =>
        match f s' with
        | (Ok _, s'') => (r, s'')
        | (Raise e, s'') => (Raise e, s'')
        | (Unfinished, s'') => (Unfinished, s'')
        end
    end.

(** [while True: body]; the loop can only be left by an exception. *)
Fixpoint while_true {S} (fuel : nat) (body : M S unit) : M S unit :=
  match fuel with
  | O => fun s => (Unfinished, s)
  | S fuel' => bind body (fun _ => while_true fuel' body)
  end.

(** [for x in xs: body x] *)
Fixpoint for_each {S A} (xs : list A) (body : A -> M S unit) : M S unit :=
  match xs with
  | [] => ret tt
  | x :: xs' => bind (body x) (fun _ => for_each xs' body)
  end.

(** The rounds of a drain loop that take the entries [items] one by one:
    each round removes the oldest entry of the queue ([get]) and handles
    it. *)
Definition rounds {S X} (get : M S X) (handle : X -> M S unit)
    (items : list X) (s : S) : S :=
  fold_left (fun s item => snd (handle item (snd (get s)))) items s.

End Eff.

Import Eff.

Notation "'do' x <- m ; k" := (bind m (fun x => k))
  (at level 10, x name, m at level 100, k at level 200,
   format "'[v' 'do'  x  <-  m ; '/' k ']'").
Notation "'do_' m ; k" := (bind m (fun _ => k))
  (at level 10, m at level 100, k at level 200,
   format "'[v' 'do_'  m ; '/' k ']'").

(** ** What leaves the program: the trace *)

Module Out.

Inductive box := showerror | showwarning | showinfo.

(** Operations on a paho-mqtt client object. *)
Inductive client_call :=
| Client                                  (* mqtt.Client() *)
| set_on_connect
| set_on_disconnect
| set_on_message
| connect (broker : str) (port keepalive : Z)
| loop_start
| disconnect
| publish (topic payload : str) (qos : Z) (retain : bool)
| subscribe (topic : str) (qos : Z)
| unsubscribe (topic : str).

Inductive timer := drain_status_queue | drain_message_queue.

Inductive effect :=
| MessageBox (b : box) (title message : str)
| Call (client : nat) (op : client_call)
| ThreadStart (broker : str) (port : Z)   (* Thread(target=worker).start() *)
| After (ms : Z) (callback : timer).      (* self.after(ms, callback) *)

(** How the library answers a call: it returns (with a return code, where
    the call has one) or it raises. *)
Inductive answer := Returns (rc : Z) | Raises (text : str).

(** The surroundings of a program: whether [import paho.mqtt.client]
    succeeded, how the client library answers a call given everything that
    happened before, the clock reading used for the n-th log line, and the
    order in which Python iterates a set of strings.  That order depends on
    the hash seed of the run and on the history of the set, so the
    environment gives it, for the iteration made when [n] lines have been
    logged; all the program can rely on is that every element comes once
    ([set_iter_perm]). *)
Record Env := {
  mqtt : bool;
  lib : list effect -> nat -> client_call -> answer;
  strftime : nat -> str;
  set_iter : nat -> gset str -> list str;
  set_iter_perm : forall n s, set_iter n s ≡ₚ elements s
}.

(** The state a method runs on: the application object and the trace. *)
Record world (A : Type) := World { app : A; trace : list effect }.
Arguments World {A} app trace.
Arguments app {A} w.
Arguments trace {A} w.

Definition is_Client (e : effect) : bool :=
  match e with Call _ Client => true | _ => false end.

Definition is_ThreadStart (e : effect) : bool :=
  match e with ThreadStart _ _ => true | _ => false end.

Definition is_Call (e : effect) : bool :=
  match e with Call _ _ => true | _ => false end.

Section Primitives.
Context {A : Type} (E : Env).

Definition emit (e : effect) : M (world A) unit :=
  modify (fun w => World (app w) (trace w ++ [e])).

Definition read {B} (f : A -> B) : M (world A) B :=
  gets (fun w => f (app w)).

Definition update (f : A -> A) : M (world A) unit :=
  modify (fun w => World (f (app w)) (trace w)).

(** A call on client object [c]: recorded, then answered by the library. *)
Definition call (c : nat) (op : client_call) : M (world A) Z :=
  fun w =>
    let w' := World (app w) (trace w ++ [Call c op]) in
    match lib E (trace w) c op with
    | Returns rc => (Ok rc, w')
    | Raises text => (Raise (LibraryError text), w')
    end.

(** [mqtt.Client()]: a new client object, numbered by creation order. *)
Definition new_client : M (world A) nat :=
  fun w =>
    let c := length (List.filter is_Client (trace w)) in
    match call c Client w with
    | (Ok _, w') => (Ok c, w')
    | (Raise e, w') => (Raise e, w')
    | (Unfinished, w') => (Unfinished, w')
    end.

(** A method of [self.client]: [None] has no attributes. *)
Definition on_client (c : option nat) (op : client_call) : M (world A) Z :=
  match c with
  | Some c => call c op
  | None => raise AttributeError
  end.

(** Assigning a callback attribute of a client object. *)
Definition assign (c : option nat) (op : client_call) : M (world A) unit :=
  match c with
  | Some c => emit (Call c op)
  | None => raise AttributeError
  end.

End Primitives.

End Out.

Import Out.

(** ** [bytes.decode("utf-8", errors=...)] *)

Module Codec.

Inductive errors := strict | replace | ignore.

Definition byte_val (b : Byte.byte) : N := Byte.to_N b.

(** A continuation byte, 0x80..0xBF. *)
Definition continuation (b : Byte.byte) : bool :=
  (0x80 <=? byte_val b) && (byte_val b <=? 0xBF).

(** The second byte of a three-byte sequence: a continuation byte that
    gives neither an overlong form (after 0xE0) nor a surrogate (after
    0xED). *)
Definition second_of_3 (c1 : N) (b2 : Byte.byte) : bool :=
  continuation b2
  && negb ((c1 =? 0xE0) && (byte_val b2 <? 0xA0))
  && negb ((c1 =? 0xED) && (0xA0 <=? byte_val b2)).

(** The second byte of a four-byte sequence: a continuation byte that
    gives neither an overlong form (after 0xF0) nor a code point above
    U+10FFFF (after 0xF4). *)
Definition second_of_4 (c1 : N) (b2 : Byte.byte) : bool :=
  continuation b2
  && negb ((c1 =? 0xF0) && (byte_val b2 <? 0x90))
  && negb ((c1 =? 0xF4) && (0x90 <=? byte_val b2)).

Definition low6 (b : Byte.byte) : N := N.land (byte_val b) 0x3F.

Definition REPLACEMENT_CHARACTER : N := 0xFFFD.

(** The error handler, applied to an undecodable range of [len] bytes at
    [pos]; [rest] is the decoding of what follows the range. *)
Definition on_error (h : errors) (pos len : nat) (reason : str)
    (rest : exn + str) : exn + str :=
  match h with
  | strict => inl (UnicodeDecodeError pos (pos + len) reason)
  | replace =>
      match rest with
      | inr s => inr (REPLACEMENT_CHARACTER :: s)
      | inl e => inl e
      end
  | ignore => rest
  end.

Definition emit_char (c : N) (rest : exn + str) : exn + str :=
  match rest with
  | inr s => inr (c :: s)
  | inl e => inl e
  end.

Definition invalid_start := lit "invalid start byte".
Definition invalid_continuation := lit "invalid continuation byte".
Definition unexpected_end := lit "unexpected end of data".

(** The decoder of CPython: a well-formed sequence gives its code point;
    an ill-formed one is reported over its longest well-formed prefix (one
    byte, if there is none), and decoding resumes behind that range. *)
Fixpoint utf8_decode (h : errors) (pos : nat) (bs : list Byte.byte)
    : exn + str :=
  match bs with
  | [] => inr []
  | b1 :: r1 =>
    let c1 := byte_val b1 in
    if c1 <? 0x80 then emit_char c1 (utf8_decode h (pos + 1) r1)
    else if c1 <? 0xC2 then
      on_error h pos 1 invalid_start (utf8_decode h (pos + 1) r1)
    else if c1 <? 0xE0 then
      match r1 with
      | [] => on_error h pos 1 unexpected_end (inr [])
      | b2 :: r2 =>
        if continuation b2 then
          emit_char (N.lor (N.shiftl (N.land c1 0x1F) 6) (low6 b2))
                    (utf8_decode h (pos + 2) r2)
        else on_error h pos 1 invalid_continuation
                      (utf8_decode h (pos + 1) r1)
      end
    else if c1 <? 0xF0 then
      match r1 with
      | [] => on_error h pos 1 unexpected_end (inr [])
      | b2 :: r2 =>
        if second_of_3 c1 b2 then
          match r2 with
          | [] => on_error h pos 2 unexpected_end (inr [])
          | b3 :: r3 =>
            if continuation b3 then
              emit_char (N.lor (N.shiftl (N.land c1 0x0F) 12)
                           (N.lor (N.shiftl (low6 b2) 6) (low6 b3)))
                        (utf8_decode h (pos + 3) r3)
            else on_error h pos 2 invalid_continuation
                          (utf8_decode h (pos + 2) r2)
          end
        else on_error h pos 1 invalid_continuation
                      (utf8_decode h (pos + 1) r1)
      end
    else if c1 <? 0xF5 then
      match r1 with
      | [] => on_error h pos 1 unexpected_end (inr [])
      | b2 :: r2 =>
        if second_of_4 c1 b2 then
          match r2 with
          | [] => on_error h pos 2 unexpected_end (inr [])
          | b3 :: r3 =>
            if continuation b3 then
              match r3 with
              | [] => on_error h pos 3 unexpected_end (inr [])
              | b4 :: r4 =>
                if continuation b4 then
                  emit_char
                    (N.lor (N.shiftl (N.land c1 0x07) 18)
                       (N.lor (N.shiftl (low6 b2) 12)
                          (N.lor (N.shiftl (low6 b3) 6) (low6 b4))))
                    (utf8_decode h (pos + 4) r4)
                else on_error h pos 3 invalid_continuation
                              (utf8_decode h (pos + 3) r3)
              end
            else on_error h pos 2 invalid_continuation
                          (utf8_decode h (pos + 2) r2)
          end
        else on_error h pos 1 invalid_continuation
                      (utf8_decode h (pos + 1) r1)
      end
    else on_error h pos 1 invalid_start (utf8_decode h (pos + 1) r1)
  end.

(** [b.decode("utf-8", errors=h)] as a computation. *)
Definition decode {S} (h : errors) (b : list Byte.byte) : M S str :=
  match utf8_decode h 0 b with
  | inr s => ret s
  | inl e => raise e
  end.

End Codec.

(** [str(n)] for an integer. *)
Definition str_of_int (n : Z) : str := lit (NilZero.string_of_int (Z.to_int n)).

(** [tkinter.IntVar.get]: the number in the field, or [TclError] when the
    text of the field is not a number ([None]). *)
Definition IntVar_get {S} (v : option Z) : M S Z :=
  match v with
  | Some n => ret n
  | None => raise TclError
  end.

Definition newline : str := [10].
Definition em_dash : str := [0x2014].

(** ** publisher.py *)

Module Publisher.

Definition DEFAULT_BROKER : str := lit "test.mosquitto.org".
Definition DEFAULT_PORT : Z := 1883.
Definition TOPIC_PREFIX : str := lit "twitter/".

(** The attributes of [PublisherApp] and the content of its widgets. *)
Record App := {
  client : option nat;
  connected : bool;
  status_queue : list (str * str);
  broker_var : str;
  port_var : option Z;
  username_var : str;
  hashtag_var : str;
  tweet_text : str;
  connect_btn : str;
  status_lbl : str * str;
  log_text : list str
}.

Definition set_client (v : option nat) (a : App) : App :=
  {| client := v; connected := connected a;
     status_queue := status_queue a; broker_var := broker_var a;
     port_var := port_var a; username_var := username_var a;
     hashtag_var := hashtag_var a; tweet_text := tweet_text a;
     connect_btn := connect_btn a; status_lbl := status_lbl a;
     log_text := log_text a |}.

Definition set_connected (v : bool) (a : App) : App :=
  {| client := client a; connected := v;
     status_queue := status_queue a; broker_var := broker_var a;
     port_var := port_var a; username_var := username_var a;
     hashtag_var := hashtag_var a; tweet_text := tweet_text a;
     connect_btn := connect_btn a; status_lbl := status_lbl a;
     log_text := log_text a |}.

Definition set_status_queue (v : list (str * str)) (a : App) : App :=
  {| client := client a; connected := connected a;
     status_queue := v; broker_var := broker_var a;
     port_var := port_var a; username_var := username_var a;
     hashtag_var := hashtag_var a; tweet_text := tweet_text a;
     connect_btn := connect_btn a; status_lbl := status_lbl a;
     log_text := log_text a |}.

Definition set_tweet_text (v : str) (a : App) : App :=
  {| client := client a; connected := connected a;
     status_queue := status_queue a; broker_var := broker_var a;
     port_var := port_var a; username_var := username_var a;
     hashtag_var := hashtag_var a; tweet_text := v;
     connect_btn := connect_btn a; status_lbl := status_lbl a;
     log_text := log_text a |}.

Definition set_connect_btn (v : str) (a : App) : App :=
  {| client := client a; connected := connected a;
     status_queue := status_queue a; broker_var := broker_var a;
     port_var := port_var a; username_var := username_var a;
     hashtag_var := hashtag_var a; tweet_text := tweet_text a;
     connect_btn := v; status_lbl := status_lbl a;
     log_text := log_text a |}.

Definition set_status_lbl (text foreground : str) (a : App) : App :=
  {| client := client a; connected := connected a;
     status_queue := status_queue a; broker_var := broker_var a;
     port_var := port_var a; username_var := username_var a;
     hashtag_var := hashtag_var a; tweet_text := tweet_text a;
     connect_btn := connect_btn a; status_lbl := (text, foreground);
     log_text := log_text a |}.

Definition set_log_text (v : list str) (a : App) : App :=
  {| client := client a; connected := connected a;
     status_queue := status_queue a; broker_var := broker_var a;
     port_var := port_var a; username_var := username_var a;
     hashtag_var := hashtag_var a; tweet_text := tweet_text a;
     connect_btn := connect_btn a; status_lbl := status_lbl a;
     log_text := v |}.

(** [__init__]: the fresh application, with the first drain scheduled. *)
Definition init : world App :=
  World
    {| client := None; connected := false; status_queue := [];
       broker_var := DEFAULT_BROKER; port_var := Some DEFAULT_PORT;
       username_var := lit ""; hashtag_var := lit "";
       tweet_text := lit ""; connect_btn := lit "Connect";
       status_lbl := (lit "Status: Disconnected", lit "red");
       log_text := [] |}
    [After 100 drain_status_queue].

Section Methods.
Variable E : Env.

Definition _log (msg : str) : M (world App) unit :=
  update (fun a =>
    set_log_text
      (log_text a ++ [strftime E (length (log_text a)) ++ msg ++ newline])
      a).

(** [self.status_queue.put(item)] *)
Definition status_put (item : str * str) : M (world App) unit :=
  update (fun a => set_status_queue (status_queue a ++ [item]) a).

(** [self.status_queue.get_nowait()] *)
Definition status_get_nowait : M (world App) (str * str) :=
  fun w =>
    match status_queue (app w) with
    | [] => (Raise Empty, w)
    | item :: q => (Ok item, World (set_status_queue q (app w)) (trace w))
    end.

Definition _connect_async (broker : str) (port : Z) : M (world App) unit :=
  do_ _log (lit "Connecting to " ++ broker ++ lit ":" ++ str_of_int port
            ++ lit " ...");
  do_ update (set_status_lbl (lit "Status: Connecting...") (lit "orange"));
  emit (ThreadStart broker port).

(** The body of the thread started by [_connect_async]. *)
Definition worker (broker : str) (port : Z) : M (world App) unit :=
  try_except
    (do c <- new_client E;
     do_ update (set_client (Some c));
     do cl <- read client;
     do_ assign cl set_on_connect;
     do cl <- read client;
     do_ assign cl set_on_disconnect;
     do cl <- read client;
     do_ on_client E cl (connect broker port 60);
     do cl <- read client;
     do_ on_client E cl loop_start;
     ret tt)
    Exception
    (fun e => status_put (lit "error", lit "Connection failed: " ++ exn_text e)).

Definition _toggle_connection : M (world App) unit :=
  if negb (mqtt E) then
    emit (MessageBox showerror (lit "Missing dependency")
            (lit "paho-mqtt is not installed." ++ newline ++ newline
             ++ lit "pip install paho-mqtt"))
  else
    do c <- read connected;
    if c then
      do_ try_except
            (do cl <- read client; do_ on_client E cl disconnect; ret tt)
            Exception (fun _ => ret tt);
      do_ update (set_connected false);
      do_ update (set_connect_btn (lit "Connect"));
      do_ update (set_status_lbl (lit "Status: Disconnected") (lit "red"));
      _log (lit "Disconnected from broker.")
    else
      do b <- read broker_var;
      let broker := strip b in
      do pv <- read port_var;
      do p <- IntVar_get pv;
      let port := if (p =? 0)%Z then DEFAULT_PORT else p in
      _connect_async broker port.

Definition _on_connect (reason_code : Z) : M (world App) unit :=
  if (reason_code =? 0)%Z then
    status_put (lit "connected", lit "Connected to broker.")
  else
    status_put (lit "error",
                lit "Failed to connect. Code: " ++ str_of_int reason_code).

Definition _on_disconnect (reason_code : Z) : M (world App) unit :=
  status_put (lit "disconnected", lit "Disconnected from broker.").

(** The body of the loop of [_drain_status_queue] behind [get_nowait]. *)
Definition handle_status (item : str * str) : M (world App) unit :=
  let (kind, msg) := item in
  if bool_decide (kind = lit "connected") then
    do_ update (set_connected true);
    do_ update (set_connect_btn (lit "Disconnect"));
    do_ update (set_status_lbl (lit "Status: Connected") (lit "green"));
    _log msg
  else if bool_decide (kind = lit "disconnected") then
    do_ update (set_connected false);
    do_ update (set_connect_btn (lit "Connect"));
    do_ update (set_status_lbl (lit "Status: Disconnected") (lit "red"));
    _log msg
  else if bool_decide (kind = lit "error") then
    do_ update (set_connected false);
    do_ update (set_connect_btn (lit "Connect"));
    do_ update (set_status_lbl
                  (lit "Status: Error " ++ em_dash ++ lit " see log")
                  (lit "red"));
    _log msg
  else ret tt.

Definition _drain_status_queue (fuel : nat) : M (world App) unit :=
  try_finally
    (try_except
       (while_true fuel (do item <- status_get_nowait; handle_status item))
       is_Empty (fun _ => ret tt))
    (emit (After 150 drain_status_queue)).

(** [self.tweet_text.get("1.0", "end")]: Tk returns the content of a
    Text widget followed by a newline. *)
Definition Text_get (content : str) : str := content ++ newline.

Definition _publish : M (world App) unit :=
  do conn <- read connected;
  do cl <- read client;
  if negb conn || negb (bool_decide (is_Some cl)) then
    emit (MessageBox showwarning (lit "Not connected")
            (lit "Please connect to a broker first."))
  else
    do u <- read username_var;
    let username := or_else (strip u) (lit "anonymous") in
    do h <- read hashtag_var;
    let hashtag := sanitize_hashtag h in
    do t <- read tweet_text;
    let text := strip (Text_get t) in
    if negb (truthy hashtag) then
      emit (MessageBox showwarning (lit "Invalid hashtag")
              (lit "Please enter a valid hashtag (e.g., #iot or iot)."))
    else if negb (truthy text) then
      emit (MessageBox showwarning (lit "Empty tweet")
              (lit "Please write something to publish."))
    else
      let topic := TOPIC_PREFIX ++ hashtag in
      let payload := username ++ lit ": " ++ text in
      try_except
        (do cl <- read client;
         do rc <- on_client E cl (publish topic payload 0 false);
         if (rc =? 0)%Z then
           do_ _log (lit "Published to '" ++ topic ++ lit "': " ++ payload);
           update (set_tweet_text (lit ""))
         else
           _log (lit "Publish failed (rc=" ++ str_of_int rc ++ lit ")"))
        Exception
        (fun e => _log (lit "Publish error: " ++ exn_text e)).

End Methods.

(** ** The worlds a publisher can be in *)

(** The user edits the form: the five entry fields take new content. *)
Definition edit (broker : str) (port : option Z) (username hashtag tweet : str)
    (a : App) : App :=
  {| client := client a; connected := connected a;
     status_queue := status_queue a; broker_var := broker;
     port_var := port; username_var := username;
     hashtag_var := hashtag; tweet_text := tweet;
     connect_btn := connect_btn a; status_lbl := status_lbl a;
     log_text := log_text a |}.

(** The worlds reached from the fresh application by the user's actions
    (editing, the two buttons), by the timer that runs the drain, by a
    started worker thread, and by the client library, which invokes a
    callback only once a client object has been given that callback. *)
Inductive reachable (E : Env) : world App -> Prop :=
| reach_init : reachable E init
| reach_edit w b p u h t :
    reachable E w -> reachable E (World (edit b p u h t (app w)) (trace w))
| reach_toggle w :
    reachable E w -> reachable E (snd (_toggle_connection E w))
| reach_publish w :
    reachable E w -> reachable E (snd (_publish E w))
| reach_worker w broker port :
    reachable E w -> In (ThreadStart broker port) (trace w) ->
    reachable E (snd (worker E broker port w))
| reach_on_connect w c rc :
    reachable E w -> In (Call c set_on_connect) (trace w) ->
    reachable E (snd (_on_connect rc w))
| reach_on_disconnect w c rc :
    reachable E w -> In (Call c set_on_disconnect) (trace w) ->
    reachable E (snd (_on_disconnect rc w))
| reach_drain w fuel :
    reachable E w -> (length (status_queue (app w)) < fuel)%nat ->
    reachable E (snd (_drain_status_queue E fuel w)).

(** A step that neither touches [self.client], nor sets the [connected]
    flag, nor enqueues a "connected" event, nor hands [_on_connect] to a
    client object. *)
Definition quiet (w w' : world App) : Prop :=
  client (app w') = client (app w)
  /\ (connected (app w') = true -> connected (app w) = true)
  /\ (forall msg, In (lit "connected", msg) (status_queue (app w')) ->
                  In (lit "connected", msg) (status_queue (app w)))
  /\ (forall c, In (Call c set_on_connect) (trace w') ->
                In (Call c set_on_connect) (trace w)).

(** Either a client object exists, or nothing has happened yet that could
    lead to the [connected] flag being set. *)
Definition client_invariant (w : world App) : Prop :=
  is_Some (client (app w))
  \/ (connected (app w) = false
      /\ (forall msg, ~ In (lit "connected", msg) (status_queue (app w)))
      /\ (forall c, ~ In (Call c set_on_connect) (trace w))).

End Publisher.

(** ** subscriber.py *)

Module Subscriber.

Definition DEFAULT_BROKER : str := lit "test.mosquitto.org".
Definition DEFAULT_PORT : Z := 1883.
Definition TOPIC_PREFIX : str := lit "twitter/".

(** What the client library hands to [on_message]: the topic and the
    payload as the bytes that came over the wire. *)
Record MQTTMessage := { topic : list Byte.byte; payload : list Byte.byte }.

(** The attributes of [SubscriberApp] and the content of its widgets.
    [sub_list] holds the lines of the Listbox and [sub_sel] the index
    [curselection] reports, if a line is selected. *)
Record App := {
  client : option nat;
  connected : bool;
  msg_queue : list str;
  status_queue : list (str * str);
  subscribed : gset str;
  broker_var : str;
  port_var : option Z;
  hashtag_var : str;
  sub_list : list str;
  sub_sel : option nat;
  connect_btn : str;
  status_lbl : str * str;
  msg_text : list str
}.

Definition set_client (v : option nat) (a : App) : App :=
  {| client := v; connected := connected a; msg_queue := msg_queue a;
     status_queue := status_queue a; subscribed := subscribed a;
     broker_var := broker_var a; port_var := port_var a;
     hashtag_var := hashtag_var a; sub_list := sub_list a;
     sub_sel := sub_sel a; connect_btn := connect_btn a;
     status_lbl := status_lbl a; msg_text := msg_text a |}.

Definition set_connected (v : bool) (a : App) : App :=
  {| client := client a; connected := v; msg_queue := msg_queue a;
     status_queue := status_queue a; subscribed := subscribed a;
     broker_var := broker_var a; port_var := port_var a;
     hashtag_var := hashtag_var a; sub_list := sub_list a;
     sub_sel := sub_sel a; connect_btn := connect_btn a;
     status_lbl := status_lbl a; msg_text := msg_text a |}.

Definition set_msg_queue (v : list str) (a : App) : App :=
  {| client := client a; connected := connected a; msg_queue := v;
     status_queue := status_queue a; subscribed := subscribed a;
     broker_var := broker_var a; port_var := port_var a;
     hashtag_var := hashtag_var a; sub_list := sub_list a;
     sub_sel := sub_sel a; connect_btn := connect_btn a;
     status_lbl := status_lbl a; msg_text := msg_text a |}.

Definition set_status_queue (v : list (str * str)) (a : App) : App :=
  {| client := client a; connected := connected a;
     msg_queue := msg_queue a;
     status_queue := v; subscribed := subscribed a;
     broker_var := broker_var a; port_var := port_var a;
     hashtag_var := hashtag_var a; sub_list := sub_list a;
     sub_sel := sub_sel a; connect_btn := connect_btn a;
     status_lbl := status_lbl a; msg_text := msg_text a |}.

Definition set_subscribed (v : gset str) (a : App) : App :=
  {| client := client a; connected := connected a;
     msg_queue := msg_queue a;
     status_queue := status_queue a; subscribed := v;
     broker_var := broker_var a; port_var := port_var a;
     hashtag_var := hashtag_var a; sub_list := sub_list a;
     sub_sel := sub_sel a; connect_btn := connect_btn a;
     status_lbl := status_lbl a; msg_text := msg_text a |}.

Definition set_sub_list (v : list str) (sel : option nat) (a : App) : App :=
  {| client := client a; connected := connected a;
     msg_queue := msg_queue a;
     status_queue := status_queue a; subscribed := subscribed a;
     broker_var := broker_var a; port_var := port_var a;
     hashtag_var := hashtag_var a; sub_list := v;
     sub_sel := sel; connect_btn := connect_btn a;
     status_lbl := status_lbl a; msg_text := msg_text a |}.

Definition set_connect_btn (v : str) (a : App) : App :=
  {| client := client a; connected := connected a;
     msg_queue := msg_queue a;
     status_queue := status_queue a; subscribed := subscribed a;
     broker_var := broker_var a; port_var := port_var a;
     hashtag_var := hashtag_var a; sub_list := sub_list a;
     sub_sel := sub_sel a; connect_btn := v;
     status_lbl := status_lbl a; msg_text := msg_text a |}.

Definition set_status_lbl (text foreground : str) (a : App) : App :=
  {| client := client a; connected := connected a;
     msg_queue := msg_queue a;
     status_queue := status_queue a; subscribed := subscribed a;
     broker_var := broker_var a; port_var := port_var a;
     hashtag_var := hashtag_var a; sub_list := sub_list a;
     sub_sel := sub_sel a; connect_btn := connect_btn a;
     status_lbl := (text, foreground); msg_text := msg_text a |}.

Definition set_msg_text (v : list str) (a : App) : App :=
  {| client := client a; connected := connected a;
     msg_queue := msg_queue a;
     status_queue := status_queue a; subscribed := subscribed a;
     broker_var := broker_var a; port_var := port_var a;
     hashtag_var := hashtag_var a; sub_list := sub_list a;
     sub_sel := sub_sel a; connect_btn := connect_btn a;
     status_lbl := status_lbl a; msg_text := v |}.

(** [__init__]: the fresh application, with both drains scheduled. *)
Definition init : world App :=
  World
    {| client := None; connected := false; msg_queue := [];
       status_queue := []; subscribed := ∅;
       broker_var := DEFAULT_BROKER; port_var := Some DEFAULT_PORT;
       hashtag_var := lit ""; sub_list := []; sub_sel := None;
       connect_btn := lit "Connect";
       status_lbl := (lit "Status: Disconnected", lit "red");
       msg_text := [] |}
    [After 100 drain_status_queue; After 100 drain_message_queue].

(** [Listbox.get(i)]: the line at index [i], the empty string outside the
    list. *)
Definition Listbox_get (lines : list str) (i : nat) : str :=
  nth i lines (lit "").

(** [Listbox.delete(i)]: the line goes; a selection on it is dropped and a
    selection below it moves up. *)
Definition Listbox_delete (i : nat) (a : App) : App :=
  set_sub_list
    (take i (sub_list a) ++ drop (S i) (sub_list a))
    (match sub_sel a with
     | Some j =>
         if (j <? i)%nat then Some j
         else if (j =? i)%nat then None
         else Some (Nat.pred j)
     | None => None
     end)
    a.

(** The index at which the loop over [range(self.sub_list.size())] of
    [_unsubscribe] stops: the first line that is [tag] behind its leading
    markers. *)
Fixpoint first_line_of (tag : str) (lines : list str) (i : nat)
    : option nat :=
  match lines with
  | [] => None
  | line :: lines' =>
      if bool_decide (lstrip_chars (lit "#") line = tag) then Some i
      else first_line_of tag lines' (S i)
  end.

(** The tags in the order in which the handling of a "connected" event
    iterates [list(self.subscribed)]: the iteration comes when the event's
    message has been logged, one line after the state [a] in which the
    handling starts. *)
Definition resubscribe_order (E : Env) (a : App) : list str :=
  set_iter E (S (length (msg_text a))) (subscribed a).

(** The subscribe calls that [_subscribe_to_topic] issues for [tags] in an
    application state: none unless connected with a client object. *)
Definition subscribe_calls (a : App) (tags : list str) : list effect :=
  if connected a then
    match client a with
    | Some c =>
        List.map (fun tag => Call c (subscribe (TOPIC_PREFIX ++ tag) 0)) tags
    | None => []
    end
  else [].

Section Methods.
Variable E : Env.

Definition _log_msg (line : str) : M (world App) unit :=
  update (fun a =>
    set_msg_text
      (msg_text a ++ [strftime E (length (msg_text a)) ++ line ++ newline])
      a).

(** [self.status_queue.put(item)] *)
Definition status_put (item : str * str) : M (world App) unit :=
  update (fun a => set_status_queue (status_queue a ++ [item]) a).

(** [self.status_queue.get_nowait()] *)
Definition status_get_nowait : M (world App) (str * str) :=
  fun w =>
    match status_queue (app w) with
    | [] => (Raise Empty, w)
    | item :: q => (Ok item, World (set_status_queue q (app w)) (trace w))
    end.

(** [self.msg_queue.put(line)] *)
Definition msg_put (line : str) : M (world App) unit :=
  update (fun a => set_msg_queue (msg_queue a ++ [line]) a).

(** [self.msg_queue.get_nowait()] *)
Definition msg_get_nowait : M (world App) str :=
  fun w =>
    match msg_queue (app w) with
    | [] => (Raise Empty, w)
    | line :: q => (Ok line, World (set_msg_queue q (app w)) (trace w))
    end.

Definition _connect_async (broker : str) (port : Z) : M (world App) unit :=
  do_ update (set_status_lbl (lit "Status: Connecting...") (lit "orange"));
  do_ _log_msg (lit "Connecting to " ++ broker ++ lit ":"
                ++ str_of_int port ++ lit " ...");
  emit (ThreadStart broker port).

(** The body of the thread started by [_connect_async]. *)
Definition worker (broker : str) (port : Z) : M (world App) unit :=
  try_except
    (do c <- new_client E;
     do_ update (set_client (Some c));
     do cl <- read client;
     do_ assign cl set_on_connect;
     do cl <- read client;
     do_ assign cl set_on_disconnect;
     do cl <- read client;
     do_ assign cl set_on_message;
     do cl <- read client;
     do_ on_client E cl (connect broker port 60);
     do cl <- read client;
     do_ on_client E cl loop_start;
     ret tt)
    Exception
    (fun e => status_put (lit "error", lit "Connection failed: " ++ exn_text e)).

Definition _toggle_connection : M (world App) unit :=
  if negb (mqtt E) then
    emit (MessageBox showerror (lit "Missing dependency")
            (lit "paho-mqtt is not installed." ++ newline ++ newline
             ++ lit "pip install paho-mqtt"))
  else
    do c <- read connected;
    if c then
      do_ try_except
            (do cl <- read client; do_ on_client E cl disconnect; ret tt)
            Exception (fun _ => ret tt);
      do_ update (set_connected false);
      do_ update (set_connect_btn (lit "Connect"));
      do_ update (set_status_lbl (lit "Status: Disconnected") (lit "red"));
      _log_msg (lit "Disconnected from broker.")
    else
      do b <- read broker_var;
      let broker := strip b in
      do pv <- read port_var;
      do p <- IntVar_get pv;
      let port := if (p =? 0)%Z then DEFAULT_PORT else p in
      _connect_async broker port.

Definition _on_connect (reason_code : Z) : M (world App) unit :=
  if (reason_code =? 0)%Z then
    status_put (lit "connected", lit "Connected to broker.")
  else
    status_put (lit "error",
                lit "Failed to connect. Code: " ++ str_of_int reason_code).

Definition _on_disconnect (reason_code : Z) : M (world App) unit :=
  status_put (lit "disconnected", lit "Disconnected from broker.").

(** [message.topic] is a property of the library's message object: it
    decodes the topic bytes as UTF-8 with the default, strict handler, and
    the handler reads it outside its [try]. *)
Definition _on_message (message : MQTTMessage) : M (world App) unit :=
  do text <- try_except
               (Codec.decode Codec.replace (payload message))
               Exception
               (fun _ => ret (lit "<binary payload>"));
  do topic <- Codec.decode Codec.strict (topic message);
  msg_put (lit "[" ++ topic ++ lit "] " ++ text).

Definition _subscribe_to_topic (tag : str) : M (world App) unit :=
  do conn <- read connected;
  do cl <- read client;
  if negb conn || negb (bool_decide (is_Some cl)) then
    _log_msg (lit "(queued) Will subscribe to #" ++ tag
              ++ lit " when connected.")
  else
    let topic := TOPIC_PREFIX ++ tag in
    try_except
      (do cl <- read client;
       do_ on_client E cl (subscribe topic 0);
       _log_msg (lit "Subscribed to '" ++ topic ++ lit "'"))
      Exception
      (fun e => _log_msg (lit "Subscribe error for '" ++ topic
                          ++ lit "': " ++ exn_text e)).

(** The body of the loop of [_drain_status_queue] behind [get_nowait].
    [list(self.subscribed)] takes the tags in the order in which Python
    iterates the set at that moment ([set_iter]). *)
Definition handle_status (item : str * str) : M (world App) unit :=
  let (kind, msg) := item in
  if bool_decide (kind = lit "connected") then
    do_ update (set_connected true);
    do_ update (set_connect_btn (lit "Disconnect"));
    do_ update (set_status_lbl (lit "Status: Connected") (lit "green"));
    do_ _log_msg msg;
    do tags <- read (fun a =>
                 set_iter E (length (msg_text a)) (subscribed a));
    for_each tags _subscribe_to_topic
  else if bool_decide (kind = lit "disconnected") then
    do_ update (set_connected false);
    do_ update (set_connect_btn (lit "Connect"));
    do_ update (set_status_lbl (lit "Status: Disconnected") (lit "red"));
    _log_msg msg
  else if bool_decide (kind = lit "error") then
    do_ update (set_connected false);
    do_ update (set_connect_btn (lit "Connect"));
    do_ update (set_status_lbl
                  (lit "Status: Error " ++ em_dash ++ lit " see feed")
                  (lit "red"));
    _log_msg msg
  else ret tt.

Definition _drain_status_queue (fuel : nat) : M (world App) unit :=
  try_finally
    (try_except
       (while_true fuel (do item <- status_get_nowait; handle_status item))
       is_Empty (fun _ => ret tt))
    (emit (After 150 drain_status_queue)).

Definition _drain_message_queue (fuel : nat) : M (world App) unit :=
  try_finally
    (try_except
       (while_true fuel (do line <- msg_get_nowait; _log_msg line))
       is_Empty (fun _ => ret tt))
    (emit (After 120 drain_message_queue)).

Definition _subscribe : M (world App) unit :=
  do h <- read hashtag_var;
  let tag := sanitize_hashtag h in
  if negb (truthy tag) then
    emit (MessageBox showwarning (lit "Invalid hashtag")
            (lit "Please enter a valid hashtag (e.g., #iot or iot)."))
  else
    do subs <- read subscribed;
    if bool_decide (tag ∈ subs) then
      emit (MessageBox showinfo (lit "Already subscribed")
              (lit "You're already following #" ++ tag ++ lit "."))
    else
      do_ update (fun a => set_subscribed ({[tag]} ∪ subscribed a) a);
      do_ update (fun a =>
            set_sub_list (sub_list a ++ [lit "#" ++ tag]) (sub_sel a) a);
      _subscribe_to_topic tag.

(** The tag [_unsubscribe] works on: the selected line of the list
    without its leading markers, else the normalised entry text. *)
Definition unsubscribe_tag (a : App) : str :=
  match sub_sel a with
  | Some i => lstrip_chars (lit "#") (Listbox_get (sub_list a) i)
  | None => sanitize_hashtag (hashtag_var a)
  end.

Definition _unsubscribe : M (world App) unit :=
  do tag <- read unsubscribe_tag;
  do subs <- read subscribed;
  if negb (truthy tag) || negb (bool_decide (tag ∈ subs)) then
    emit (MessageBox showinfo (lit "Not subscribed")
            (lit "Select a hashtag in the list or type one you're subscribed to."))
  else
    do_ update (fun a => set_subscribed (subscribed a ∖ {[tag]}) a);
    do_ update (fun a =>
          match first_line_of tag (sub_list a) 0 with
          | Some i => Listbox_delete i a
          | None => a
          end);
    do conn <- read connected;
    do cl <- read client;
    if conn && bool_decide (is_Some cl) then
      let topic := TOPIC_PREFIX ++ tag in
      try_except
        (do cl <- read client;
         do_ on_client E cl (unsubscribe topic);
         _log_msg (lit "Unsubscribed from '" ++ topic ++ lit "'"))
        Exception
        (fun e => _log_msg (lit "Unsubscribe error for '" ++ topic
                            ++ lit "': " ++ exn_text e))
    else
      _log_msg (lit "(queued removal) #" ++ tag
                ++ lit " will not be re-subscribed on connect.").

End Methods.

(** ** The worlds a subscriber can be in *)

(** The user edits the form: the three entry fields take new content, and
    a line of the list is selected or the selection is dropped. *)
Definition edit (broker : str) (port : option Z) (hashtag : str)
    (sel : option nat) (a : App) : App :=
  {| client := client a; connected := connected a;
     msg_queue := msg_queue a; status_queue := status_queue a;
     subscribed := subscribed a; broker_var := broker; port_var := port;
     hashtag_var := hashtag; sub_list := sub_list a; sub_sel := sel;
     connect_btn := connect_btn a; status_lbl := status_lbl a;
     msg_text := msg_text a |}.

(** The worlds reached from the fresh application by the user's actions
    (editing, the three buttons), by the timers that run the two drains, by
    a started worker thread, and by the client library, which invokes a
    callback only once a client object has been given that callback. *)
Inductive reachable (E : Env) : world App -> Prop :=
| reach_init : reachable E init
| reach_edit w b p h sel :
    reachable E w ->
    (forall i, sel = Some i -> (i < length (sub_list (app w)))%nat) ->
    reachable E (World (edit b p h sel (app w)) (trace w))
| reach_toggle w :
    reachable E w -> reachable E (snd (_toggle_connection E w))
| reach_subscribe w :
    reachable E w -> reachable E (snd (_subscribe E w))
| reach_unsubscribe w :
    reachable E w -> reachable E (snd (_unsubscribe E w))
| reach_worker w broker port :
    reachable E w -> In (ThreadStart broker port) (trace w) ->
    reachable E (snd (worker E broker port w))
| reach_on_connect w c rc :
    reachable E w -> In (Call c set_on_connect) (trace w) ->
    reachable E (snd (_on_connect rc w))
| reach_on_disconnect w c rc :
    reachable E w -> In (Call c set_on_disconnect) (trace w) ->
    reachable E (snd (_on_disconnect rc w))
| reach_on_message w c message :
    reachable E w -> In (Call c set_on_message) (trace w) ->
    reachable E (snd (_on_message message w))
| reach_drain_status w fuel :
    reachable E w -> (length (status_queue (app w)) < fuel)%nat ->
    reachable E (snd (_drain_status_queue E fuel w))
| reach_drain_message w fuel :
    reachable E w -> (length (msg_queue (app w)) < fuel)%nat ->
    reachable E (snd (_drain_message_queue E fuel w)).

(** A step that neither touches [self.client], nor sets the [connected]
    flag, nor enqueues a "connected" event, nor hands [_on_connect] to a
    client object. *)
Definition quiet (w w' : world App) : Prop :=
  client (app w') = client (app w)
  /\ (connected (app w') = true -> connected (app w) = true)
  /\ (forall msg, In (lit "connected", msg) (status_queue (app w')) ->
                  In (lit "connected", msg) (status_queue (app w)))
  /\ (forall c, In (Call c set_on_connect) (trace w') ->
                In (Call c set_on_connect) (trace w)).

(** Either a client object exists, or nothing has happened yet that could
    lead to the [connected] flag being set. *)
Definition client_invariant (w : world App) : Prop :=
  is_Some (client (app w))
  \/ (connected (app w) = false
      /\ (forall msg, ~ In (lit "connected", msg) (status_queue (app w)))
      /\ (forall c, ~ In (Call c set_on_connect) (trace w))).

End Subscriber.

(** ** The error taxonomy of the publish action *)

Inductive publish_error := NotConnected | InvalidTopic | EmptyPayload.

(** The notice by which [_publish] reports each error to the user. *)
Definition notice (e : publish_error) : effect :=
  match e with
  | NotConnected =>
      MessageBox showwarning (lit "Not connected")
        (lit "Please connect to a broker first.")
  | InvalidTopic =>
      MessageBox showwarning (lit "Invalid hashtag")
        (lit "Please enter a valid hashtag (e.g., #iot or iot).")
  | EmptyPayload =>
      MessageBox showwarning (lit "Empty tweet")
        (lit "Please write something to publish.")
  end.

(** The effects a run added to the trace. *)
Definition added {A} (before after : world A) : list effect :=
  skipn (length (trace before)) (trace after).

(** ** A sample environment: paho-mqtt is installed, every library call
    returns code 0, the clock stands still, and a set is iterated in the
    order of [elements]. *)
Definition sample_env : Env :=
  {| mqtt := true;
     lib := fun _ _ _ => Returns 0;
     strftime := fun _ => lit "[12:00:00] ";
     set_iter := fun _ s => elements s;
     set_iter_perm := fun _ _ => reflexivity _ |}.

(** A connected publisher whose form reads: user "alice", hashtag "#iot",
    tweet "hello world". *)
Definition sample_publisher : world Publisher.App :=
  World
    {| Publisher.client := Some 0%nat; Publisher.connected := true;
       Publisher.status_queue := [];
       Publisher.broker_var := Publisher.DEFAULT_BROKER;
       Publisher.port_var := Some Publisher.DEFAULT_PORT;
       Publisher.username_var := lit "alice";
       Publisher.hashtag_var := lit "#iot";
       Publisher.tweet_text := lit "hello world";
       Publisher.connect_btn := lit "Disconnect";
       Publisher.status_lbl := (lit "Status: Connected", lit "green");
       Publisher.log_text := [] |}
    [].

(** ** One attempt, two events

    The fresh publisher connects once; every library call of the worker
    returns; the broker refuses the connection with reason code 5, and the
    network loop of the client library, which tries again on its own, gets
    through on its next try. *)
Definition scenario_started : world Publisher.App :=
  snd (Publisher.worker sample_env (lit "test.mosquitto.org") 1883
         (snd (Publisher._toggle_connection sample_env Publisher.init))).

Definition scenario_two_events : world Publisher.App :=
  snd (Publisher._on_connect 0 (snd (Publisher._on_connect 5 scenario_started))).

(** ** A sample run of the subscriber

    The user subscribes to "#iot" and to "news" while disconnected, then
    connects; later the connection is lost and the network loop of the
    client library connects again on its own. *)

Definition scenario_subscribed : world Subscriber.App :=
  let w := Subscriber.init in
  let w := World (Subscriber.edit Subscriber.DEFAULT_BROKER (Some 1883%Z)
                    (lit "#iot") None (app w)) (trace w) in
  let w := snd (Subscriber._subscribe sample_env w) in
  let w := World (Subscriber.edit Subscriber.DEFAULT_BROKER (Some 1883%Z)
                    (lit "news") None (app w)) (trace w) in
  snd (Subscriber._subscribe sample_env w).

(** The first "connected" event is in the queue. *)
Definition scenario_connecting : world Subscriber.App :=
  let w := snd (Subscriber._toggle_connection sample_env scenario_subscribed) in
  let w := snd (Subscriber.worker sample_env (lit "test.mosquitto.org")
                  1883 w) in
  snd (Subscriber._on_connect 0 w).

Definition scenario_connected : world Subscriber.App :=
  snd (Subscriber._drain_status_queue sample_env 2 scenario_connecting).

(** The connection was lost and made again: the second "connected" event
    is in the queue. *)
Definition scenario_reconnecting : world Subscriber.App :=
  let w := snd (Subscriber._on_disconnect 7 scenario_connected) in
  let w := snd (Subscriber._drain_status_queue sample_env 2 w) in
  snd (Subscriber._on_connect 0 w).

Definition scenario_reconnected : world Subscriber.App :=
  snd (Subscriber._drain_status_queue sample_env 2 scenario_reconnecting).

(** An inbound message: "alice: hello world" on topic twitter/iot. *)
Definition sample_message : Subscriber.MQTTMessage :=
  {| Subscriber.topic := list_byte_of_string "twitter/iot";
     Subscriber.payload := list_byte_of_string "alice: hello world" |}.

(** An inbound message whose topic is not valid UTF-8: the byte 0xFF, with
    payload "hi". *)
Definition sample_bad_topic : Subscriber.MQTTMessage :=
  {| Subscriber.topic := [Byte.xff];
     Subscriber.payload := list_byte_of_string "hi" |}.

(** The fresh publisher after the user has cleared the port field. *)
Definition sample_unreadable_port : world Publisher.App :=
  World
    (Publisher.edit Publisher.DEFAULT_BROKER None (lit "") (lit "") (lit "")
       (app Publisher.init))
    (trace Publisher.init).

(** The fresh subscriber after the user has typed "#iot". *)
Definition sample_typed_iot : world Subscriber.App :=
  World
    (Subscriber.edit Subscriber.DEFAULT_BROKER (Some 1883%Z) (lit "#iot") None
       (app Subscriber.init))
    (trace Subscriber.init).

(** ** A sample run of the publisher

    The user fills in the form (user "alice", hashtag "#iot", tweet
    "hello world"), connects, and publishes once the "connected" event has
    been handled. *)
Definition scenario_published : world Publisher.App :=
  let w := Publisher.init in
  let w := World (Publisher.edit Publisher.DEFAULT_BROKER (Some 1883%Z)
                    (lit "alice") (lit "#iot") (lit "hello world") (app w))
             (trace w) in
  let w := snd (Publisher._toggle_connection sample_env w) in
  let w := snd (Publisher.worker sample_env (lit "test.mosquitto.org")
                  1883 w) in
  let w := snd (Publisher._on_connect 0 w) in
  let w := snd (Publisher._drain_status_queue sample_env 2 w) in
  snd (Publisher._publish sample_env w).

(** The connected subscriber of the sample run after the user has emptied
    the entry field and selected the first line of the list. *)
Definition scenario_selected : world Subscriber.App :=
  World
    (Subscriber.edit Subscriber.DEFAULT_BROKER (Some 1883%Z) (lit "")
       (Some 0%nat) (app scenario_connected))
    (trace scenario_connected).

(** The connected subscriber of the sample run after the user has typed
    "#mqtt" with no line selected. *)
Definition scenario_typed_mqtt : world Subscriber.App :=
  World
    (Subscriber.edit Subscriber.DEFAULT_BROKER (Some 1883%Z) (lit "#mqtt")
       None (app scenario_connected))
    (trace scenario_connected).

(** ** Predicates for the invariants of the two programs *)

(** A tag as the programs accept it: not empty, over the class
    [A-Za-z0-9_-]. *)
Definition valid_tag (t : str) : Prop :=
  t <> [] /\ List.Forall (fun c => Re.tag_char c = true) t.

(** A topic as the programs build it: "twitter/" and a valid tag. *)
Definition tag_topic (topic : str) : Prop :=
  exists t, valid_tag t /\ topic = lit "twitter/" ++ t.

(** An effect that is no publish, subscribe or unsubscribe call. *)
Definition no_topic_call (e : effect) : Prop :=
  match e with
  | Call _ (publish _ _ _ _) | Call _ (subscribe _ _)
  | Call _ (unsubscribe _) => False
  | _ => True
  end.

(** What the publisher may ask of the broker: to publish, at QoS 0 and
    without the retain flag, a non-empty payload on a tag topic; never to
    subscribe or unsubscribe. *)
Definition publisher_call_ok (e : effect) : Prop :=
  match e with
  | Call _ (publish topic payload qos retain) =>
      tag_topic topic /\ payload <> [] /\ qos = 0%Z /\ retain = false
  | Call _ (subscribe _ _) | Call _ (unsubscribe _) => False
  | _ => True
  end.

(** What the subscriber may ask of the broker: to subscribe, at QoS 0, to
    a tag topic, or to unsubscribe from one; never to publish. *)
Definition subscriber_call_ok (e : effect) : Prop :=
  match e with
  | Call _ (subscribe topic qos) => tag_topic topic /\ qos = 0%Z
  | Call _ (unsubscribe topic) => tag_topic topic
  | Call _ (publish _ _ _ _) => False
  | _ => True
  end.

(** The trace of [w'] is the trace of [w] followed by effects that
    satisfy [P]. *)
Definition grows {A} (P : effect -> Prop) (w w' : world A) : Prop :=
  exists delta, trace w' = trace w ++ delta /\ List.Forall P delta.

(** The button and the status line of the publisher say what the
    [connected] flag says. *)
Definition publisher_ui_consistent (a : Publisher.App) : Prop :=
  Publisher.connect_btn a
  = (if Publisher.connected a then lit "Disconnect" else lit "Connect")
  /\ (Publisher.connected a = true
      <-> Publisher.status_lbl a = (lit "Status: Connected", lit "green")).

(** The button and the status line of the subscriber say what the
    [connected] flag says. *)
Definition subscriber_ui_consistent (a : Subscriber.App) : Prop :=
  Subscriber.connect_btn a
  = (if Subscriber.connected a then lit "Disconnect" else lit "Connect")
  /\ (Subscriber.connected a = true
      <-> Subscriber.status_lbl a = (lit "Status: Connected", lit "green")).

(** The displayed list mirrors the subscription set: the lines are "#tag"
    for the tags of the set, each tag once and each tag valid, and a
    selection points at a line. *)
Definition list_mirrors_set (a : Subscriber.App) : Prop :=
  exists tags : list str,
    NoDup tags
    /\ List.Forall valid_tag tags
    /\ Subscriber.sub_list a = List.map (fun t => lit "#" ++ t) tags
    /\ Subscriber.subscribed a = list_to_set tags
    /\ (forall i, Subscriber.sub_sel a = Some i -> (i < length tags)%nat).

(** Either the user has asked to connect, or nothing has happened yet that
    could lead to the [connected] flag being set. *)
Definition publisher_asked_to_connect (w : world Publisher.App) : Prop :=
  (exists broker port, In (ThreadStart broker port) (trace w))
  \/ (Publisher.connected (app w) = false
      /\ (forall msg,
            ~ In (lit "connected", msg) (Publisher.status_queue (app w)))
      /\ (forall c, ~ In (Call c set_on_connect) (trace w))).

Definition subscriber_asked_to_connect (w : world Subscriber.App) : Prop :=
  (exists broker port, In (ThreadStart broker port) (trace w))
  \/ (Subscriber.connected (app w) = false
      /\ (forall msg,
            ~ In (lit "connected", msg) (Subscriber.status_queue (app w)))
      /\ (forall c, ~ In (Call c set_on_connect) (trace w))).

(** A step of the subscriber that leaves the connection display and the
    subscriptions alone and makes no call that names a topic. *)
Definition subscriber_aside (w w' : world Subscriber.App) : Prop :=
  Subscriber.connected (app w') = Subscriber.connected (app w)
  /\ Subscriber.connect_btn (app w') = Subscriber.connect_btn (app w)
  /\ Subscriber.status_lbl (app w') = Subscriber.status_lbl (app w)
  /\ Subscriber.sub_list (app w') = Subscriber.sub_list (app w)
  /\ Subscriber.subscribed (app w') = Subscriber.subscribed (app w)
  /\ Subscriber.sub_sel (app w') = Subscriber.sub_sel (app w)
  /\ grows no_topic_call w w'.

(** While the [connected] flag is set, a subscribe call has been made for
    the topic of every tag of the set. *)
Definition subscriptions_requested (w : world Subscriber.App) : Prop :=
  Subscriber.connected (app w) = true ->
  forall tag,
    tag ∈ Subscriber.subscribed (app w) ->
    exists c, In (Call c (subscribe (lit "twitter/" ++ tag) 0)) (trace w).

(** * Properties

    From here on the file states and proves properties of the definitions
    above. *)

(** * Topic naming *)

Section TopicNamingFacts.
Import TopicNaming.

Lemma lstrip_drop_ws (s : str) : lstrip s = drop_ws s.
Proof. induction s as [|c t IH]; simpl; [reflexivity|]. now rewrite IH. Qed.

Lemma drop_ws_snoc (l : str) (c : N) :
  drop_ws (l ++ [c]) =
  match drop_ws l with
  | [] => if isspace c then [] else [c]
  | x => x ++ [c]
  end.
Proof.
  induction l as [|a l IH]; simpl; [reflexivity|].
  destruct (isspace a); [exact IH | reflexivity].
Qed.

Lemma rstrip_rev (s : str) : rstrip s = rev (drop_ws (rev s)).
Proof.
  induction s as [|c t IH]; [reflexivity|].
  cbn [rstrip rev]. rewrite drop_ws_snoc, IH.
  destruct (drop_ws (rev t)) as [|y ys] eqn:Hd.
  - simpl. now destruct (isspace c).
  - rewrite rev_app_distr. cbn [rev app].
    destruct (rev ys ++ [y]) as [|z zs] eqn:Hr; [|reflexivity].
    now destruct (rev ys).
Qed.

Lemma strip_trim (s : str) : strip s = trim s.
Proof. unfold strip, trim. now rewrite rstrip_rev, lstrip_drop_ws. Qed.

Lemma startswith_marker (s : str) :
  (if startswith (lit "#") s then skipn 1 s else s) = strip_marker s.
Proof.
  destruct s as [|c t]; [reflexivity|].
  cbn [lit List.map list_ascii_of_string startswith strip_marker skipn].
  rewrite andb_true_r, N.eqb_sym. reflexivity.
Qed.

Lemma collapse_ws_cons (c : N) (t : str) :
  collapse_ws (c :: t) =
  if isspace c then
    match t with
    | c' :: _ => if isspace c' then collapse_ws t
                 else ord "_" :: collapse_ws t
    | [] => [ord "_"]
    end
  else c :: collapse_ws t.
Proof. reflexivity. Qed.

(** A whitespace character at the head of a run stands for the whole run. *)
Lemma collapse_ws_run (c : N) (t : str) :
  isspace c = true ->
  collapse_ws (c :: t) =
  ord "_" :: collapse_ws (skipn (Re.span_length isspace t) t).
Proof.
  revert c. induction t as [|c' t' IH]; intros c Hc.
  - rewrite collapse_ws_cons, Hc. reflexivity.
  - rewrite collapse_ws_cons, Hc.
    cbn [Re.span_length]. destruct (isspace c') eqn:Hc'.
    + rewrite (IH c' Hc'). reflexivity.
    + reflexivity.
Qed.

Lemma sub_loop_ws_plus (fuel : nat) (s : str) :
  (length s <= fuel)%nat ->
  Re.sub_loop fuel Re.ws_plus (lit "_") s = collapse_ws s.
Proof.
  revert s. induction fuel as [|fuel IH]; intros s Hlen.
  - destruct s; [reflexivity | simpl in Hlen; lia].
  - destruct s as [|c t]; [reflexivity|].
    cbn [Re.sub_loop]. unfold Re.ws_plus. cbn [Re.span_length].
    destruct (isspace c) eqn:Hc.
    + rewrite (collapse_ws_run c t Hc). cbn [skipn].
      change (lit "_" ++ ?x) with (ord "_" :: x).
      rewrite IH; [reflexivity|].
      rewrite length_skipn. simpl in Hlen. lia.
    + rewrite collapse_ws_cons, Hc. rewrite IH; [reflexivity|].
      simpl in Hlen. lia.
Qed.

Lemma sub_ws_plus (s : str) :
  Re.sub Re.ws_plus (lit "_") s = collapse_ws s.
Proof. apply sub_loop_ws_plus. lia. Qed.

Lemma sub_loop_not_tag_char (fuel : nat) (s : str) :
  (length s <= fuel)%nat ->
  Re.sub_loop fuel Re.not_tag_char (lit "") s = keep_tag_chars s.
Proof.
  revert s. induction fuel as [|fuel IH]; intros s Hlen.
  - destruct s; [reflexivity | simpl in Hlen; lia].
  - destruct s as [|c t]; [reflexivity|].
    cbn [Re.sub_loop Re.not_tag_char]. unfold keep_tag_chars.
    cbn [List.filter]. simpl in Hlen.
    destruct (Re.tag_char c);
      [| change (skipn 1 (c :: t)) with t ];
      (rewrite IH; [reflexivity | lia]).
Qed.

Lemma sub_not_tag_char (s : str) :
  Re.sub Re.not_tag_char (lit "") s = keep_tag_chars s.
Proof. apply sub_loop_not_tag_char. lia. Qed.

(** The program's function is the normalisation the specification
    describes. *)
Lemma sanitize_hashtag_normalize (s : str) :
  sanitize_hashtag s = normalize s.
Proof.
  unfold sanitize_hashtag, normalize.
  rewrite sub_not_tag_char, sub_ws_plus, startswith_marker, strip_trim.
  reflexivity.
Qed.

Lemma tag_char_range (c : N) :
  Re.tag_char c = true ->
  (65 <= c <= 90) \/ (97 <= c <= 122) \/ (48 <= c <= 57) \/ c = 95 \/ c = 45.
Proof.
  unfold Re.tag_char.
  change (ord "A") with 65; change (ord "Z") with 90;
  change (ord "a") with 97; change (ord "z") with 122;
  change (ord "0") with 48; change (ord "9") with 57;
  change (ord "_") with 95; change (ord "-") with 45.
  rewrite !orb_true_iff, !andb_true_iff, !N.leb_le, !N.eqb_eq. lia.
Qed.

Lemma tag_char_not_space (c : N) : Re.tag_char c = true -> isspace c = false.
Proof.
  intros H. apply tag_char_range in H. unfold isspace.
  rewrite !orb_false_iff, !andb_false_iff, !N.leb_gt, !N.eqb_neq. lia.
Qed.

Lemma tag_char_not_marker (c : N) :
  Re.tag_char c = true -> (c =? ord "#") = false.
Proof.
  intros H. apply tag_char_range in H. change (ord "#") with 35.
  apply N.eqb_neq. lia.
Qed.

Lemma drop_ws_tag_chars (s : str) :
  List.Forall (fun c => Re.tag_char c = true) s -> drop_ws s = s.
Proof.
  intros H. destruct H as [|c t Hc _]; [reflexivity|].
  simpl. now rewrite (tag_char_not_space c Hc).
Qed.

Lemma collapse_ws_tag_chars (s : str) :
  List.Forall (fun c => Re.tag_char c = true) s -> collapse_ws s = s.
Proof.
  induction 1 as [|c t Hc _ IH]; [reflexivity|].
  rewrite collapse_ws_cons, (tag_char_not_space c Hc). now rewrite IH.
Qed.

Lemma keep_tag_chars_all (s : str) :
  List.Forall (fun c => Re.tag_char c = true) (keep_tag_chars s).
Proof.
  unfold keep_tag_chars. apply List.Forall_forall. intros c Hc.
  apply List.filter_In in Hc. tauto.
Qed.

Lemma keep_tag_chars_id (s : str) :
  List.Forall (fun c => Re.tag_char c = true) s -> keep_tag_chars s = s.
Proof.
  unfold keep_tag_chars. induction 1 as [|c t Hc _ IH]; [reflexivity|].
  simpl. now rewrite Hc, IH.
Qed.

(** A string of tag characters is its own normal form. *)
Lemma normalize_tag_chars (s : str) :
  List.Forall (fun c => Re.tag_char c = true) s -> normalize s = s.
Proof.
  intros H. unfold normalize, trim.
  rewrite (drop_ws_tag_chars s H).
  rewrite (drop_ws_tag_chars (rev s)) by (now apply List.Forall_rev).
  rewrite rev_involutive.
  assert (Hm : strip_marker s = s).
  { destruct H as [|c t Hc _]; [reflexivity|].
    cbn [strip_marker]. now rewrite (tag_char_not_marker c Hc). }
  rewrite Hm, (collapse_ws_tag_chars s H). now apply keep_tag_chars_id.
Qed.

Lemma sanitize_hashtag_tag_chars (s : str) :
  List.Forall (fun c => Re.tag_char c = true) (sanitize_hashtag s).
Proof. rewrite sanitize_hashtag_normalize. apply keep_tag_chars_all. Qed.

End TopicNamingFacts.

(** Whitespace beyond ASCII is whitespace to [strip] and to [\s]: an
    ideographic space in front is trimmed, a no-break space inside becomes
    an underscore. *)
Example sanitize_hashtag_unicode :
  sanitize_hashtag ([0x3000] ++ lit "a" ++ [0xA0; 0x2003] ++ lit "b")
  = lit "a_b".
Proof. reflexivity. Qed.

(** C1. For every string, [sanitize_hashtag] computes exactly the
    normalisation of the specification: trim the whitespace at both ends,
    strip one leading marker, replace each run of whitespace by one
    underscore, delete every character outside [A-Za-z0-9_-].  In
    particular "#iot" and "iot" both give "iot", "  my tag! " gives
    "my_tag" and "###" gives the empty string. *)
Theorem sanitize_hashtag_spec :
  (forall s : str,
     sanitize_hashtag s
     = TopicNaming.keep_tag_chars
         (TopicNaming.collapse_ws
            (TopicNaming.strip_marker (TopicNaming.trim s))))
  /\ sanitize_hashtag (lit "#iot") = lit "iot"
  /\ sanitize_hashtag (lit "iot") = lit "iot"
  /\ sanitize_hashtag (lit "  my tag! ") = lit "my_tag"
  /\ sanitize_hashtag (lit "###") = lit "".
Proof.
  split; [exact sanitize_hashtag_normalize|].
  repeat split; reflexivity.
Qed.

(** C2. [sanitize_hashtag] is idempotent, and every character of its result
    lies in [A-Za-z0-9_-]. *)
Theorem sanitize_hashtag_idempotent (s : str) :
  sanitize_hashtag (sanitize_hashtag s) = sanitize_hashtag s
  /\ List.Forall
       (fun c => (65 <= c <= 90) \/ (97 <= c <= 122) \/ (48 <= c <= 57)
                 \/ c = 95 \/ c = 45)
       (sanitize_hashtag s).
Proof.
  split.
  - rewrite (sanitize_hashtag_normalize (sanitize_hashtag s)).
    apply normalize_tag_chars, sanitize_hashtag_tag_chars.
  - eapply List.Forall_impl; [|apply sanitize_hashtag_tag_chars].
    intros c Hc. now apply tag_char_range.
Qed.

(** * Publishing *)

Arguments Py.lit : simpl never.
Arguments str_of_int : simpl never.

(** Unfold the monadic plumbing of a goal altogether. *)
Ltac mrun :=
  unfold try_except, try_finally, new_client, on_client, assign, call,
    Exception, IntVar_get, emit, read, update, bind, ret, raise, gets, modify;
  cbn [app trace negb orb andb fst snd].

(** Run the monadic plumbing of a goal one step further. *)
Ltac mstep :=
  cbn [bind ret raise gets modify read update emit app trace
       negb orb andb fst snd].

Section PublishFacts.
Import Publisher.
Variable E : Env.

Lemma added_app {A} (w : world A) (a : A) (delta : list effect) :
  added w (World a (trace w ++ delta)) = delta.
Proof. unfold added. cbn [trace]. now rewrite drop_app_length. Qed.

Lemma truthy_false (s : str) : truthy s = false <-> s = [].
Proof. destruct s; simpl; split; congruence. Qed.

Lemma truthy_true (s : str) : truthy s = true <-> s <> [].
Proof. destruct s; simpl; split; congruence. Qed.

(** What one run of [_publish] does, case by case. *)
Lemma publish_run (w : world App) :
  let a := app w in
  let hashtag := sanitize_hashtag (hashtag_var a) in
  let text := strip (Text_get (tweet_text a)) in
  let username := or_else (strip (username_var a)) (lit "anonymous") in
  ((connected a = false \/ client a = None)
   /\ _publish E w = (Ok tt, World a (trace w ++ [notice NotConnected])))
  \/ (connected a = true /\ is_Some (client a) /\ hashtag = []
      /\ _publish E w = (Ok tt, World a (trace w ++ [notice InvalidTopic])))
  \/ (connected a = true /\ is_Some (client a) /\ hashtag <> []
      /\ text = []
      /\ _publish E w = (Ok tt, World a (trace w ++ [notice EmptyPayload])))
  \/ (exists c a',
        connected a = true /\ client a = Some c /\ hashtag <> []
        /\ text <> []
        /\ _publish E w
           = (Ok tt,
              World a'
                (trace w
                 ++ [Call c (publish (lit "twitter/" ++ hashtag)
                               (username ++ lit ": " ++ text) 0 false)]))).
Proof.
  destruct w as [a tr]. cbn [app trace].
  unfold _publish. mstep.
  destruct (connected a) eqn:Hc; mstep.
  2:{ left. split; [now left | reflexivity]. }
  destruct (client a) as [c|] eqn:Hcl.
  2:{ left. split; [now right | reflexivity]. }
  rewrite bool_decide_true by eauto. mstep.
  destruct (truthy (sanitize_hashtag (hashtag_var a))) eqn:Hh; mstep.
  2:{ right; left. apply truthy_false in Hh. repeat split; eauto. }
  destruct (truthy (strip (Text_get (tweet_text a)))) eqn:Ht; mstep.
  2:{ right; right; left. apply truthy_false in Ht. apply truthy_true in Hh.
      repeat split; eauto. }
  right; right; right. apply truthy_true in Hh, Ht.
  mrun. rewrite Hcl.
  match goal with
  | |- context [lib E ?t ?k ?op] => destruct (lib E t k op) as [rc|text]
  end.
  - destruct (rc =? 0)%Z; cbn; eexists c, _; repeat split; eauto.
  - cbn. eexists c, _; repeat split; eauto.
Qed.

End PublishFacts.

(** C3. Whenever [_publish] reaches the broker client, the topic it
    publishes is "twitter/" followed by the normalised hashtag and the
    payload is the user name, ": " and the trimmed tweet text; an empty
    (trimmed) user name field gives the user name "anonymous". *)
Theorem publish_wire_format (E : Env) (w : world Publisher.App)
    (c : nat) (topic payload : str) (qos : Z) (retain : bool) :
  In (Call c (publish topic payload qos retain))
     (added w (snd (Publisher._publish E w))) ->
  let a := app w in
  let name := strip (Publisher.username_var a) in
  let username := if bool_decide (name = []) then lit "anonymous" else name in
  topic = lit "twitter/" ++ sanitize_hashtag (Publisher.hashtag_var a)
  /\ payload
     = username ++ lit ": "
       ++ strip (Publisher.tweet_text a ++ newline).
Proof.
  intros Hin a name username.
  assert (Hname : username = or_else name (lit "anonymous")).
  { subst username. unfold or_else. destruct name; reflexivity. }
  rewrite Hname. subst name a.
  destruct (publish_run E w) as [[_ Hr]|[(_&_&_&Hr)|[(_&_&_&_&Hr)|Hr]]].
  1-3: rewrite Hr in Hin; cbn [snd] in Hin; rewrite added_app in Hin;
       destruct Hin as [Hin|[]]; discriminate Hin.
  destruct Hr as (c'&a'&_&_&_&_&Hr).
  rewrite Hr in Hin; cbn [snd] in Hin; rewrite added_app in Hin.
  destruct Hin as [Hin|[]]. now inversion Hin.
Qed.

(** The wire format at a concrete publisher: user "alice" posts
    "hello world" to "#iot". *)
Lemma publish_wire_format_witness :
  lit "twitter/iot"
  = lit "twitter/"
    ++ sanitize_hashtag (Publisher.hashtag_var (app sample_publisher))
  /\ lit "alice: hello world"
     = (if bool_decide
             (strip (Publisher.username_var (app sample_publisher)) = [])
        then lit "anonymous"
        else strip (Publisher.username_var (app sample_publisher)))
       ++ lit ": "
       ++ strip (Publisher.tweet_text (app sample_publisher) ++ newline).
Proof.
  apply (publish_wire_format sample_env sample_publisher 0%nat
           (lit "twitter/iot") (lit "alice: hello world") 0%Z false).
  vm_compute. left. reflexivity.
Defined.


(** * Unsubscribing *)

(** C7. [_unsubscribe] on a tag that is empty or not in the subscription
    set is a no-op: its only effect is the "Not subscribed" notice; no call
    reaches the broker client, and the subscription set, the displayed list
    and the rest of the application state are unchanged. *)
Theorem unsubscribe_unknown_noop (E : Env) (w : world Subscriber.App) :
  Subscriber.unsubscribe_tag (app w) = []
  \/ Subscriber.unsubscribe_tag (app w) ∉ Subscriber.subscribed (app w) ->
  Subscriber._unsubscribe E w
  = (Ok tt,
     World (app w)
       (trace w
        ++ [MessageBox showinfo (lit "Not subscribed")
              (lit "Select a hashtag in the list or type one you're subscribed to.")]))
  /\ List.filter is_Call (added w (snd (Subscriber._unsubscribe E w))) = [].
Proof.
  intros H.
  assert (Hrun : Subscriber._unsubscribe E w
    = (Ok tt,
       World (app w)
         (trace w
          ++ [MessageBox showinfo (lit "Not subscribed")
                (lit "Select a hashtag in the list or type one you're subscribed to.")]))).
  { unfold Subscriber._unsubscribe. mstep.
    destruct H as [H|H].
    - rewrite H. reflexivity.
    - rewrite (bool_decide_false _ H). rewrite orb_true_r. reflexivity. }
  split; [exact Hrun|].
  rewrite Hrun. cbn [snd]. rewrite added_app. reflexivity.
Qed.

(** The fresh subscriber has an empty entry field and no subscription. *)
Lemma unsubscribe_unknown_noop_witness :
  Subscriber._unsubscribe sample_env Subscriber.init
  = (Ok tt,
     World (app Subscriber.init)
       (trace Subscriber.init
        ++ [MessageBox showinfo (lit "Not subscribed")
              (lit "Select a hashtag in the list or type one you're subscribed to.")]))
  /\ List.filter is_Call
       (added Subscriber.init
          (snd (Subscriber._unsubscribe sample_env Subscriber.init))) = [].
Proof.
  apply (unsubscribe_unknown_noop sample_env Subscriber.init).
  left. reflexivity.
Defined.

(** * Connecting *)

Section ToggleFacts.
Variable E : Env.
Hypothesis mqtt_installed : mqtt E = true.

Lemma publisher_toggle_disconnected (w : world Publisher.App) (p : Z) :
  Publisher.connected (app w) = false ->
  Publisher.port_var (app w) = Some p ->
  exists a',
    Publisher._toggle_connection E w
    = (Ok tt,
       World a'
         (trace w
          ++ [ThreadStart (strip (Publisher.broker_var (app w)))
                (if (p =? 0)%Z then 1883%Z else p)]))
    /\ Publisher.connected a' = false
    /\ Publisher.status_queue a' = Publisher.status_queue (app w)
    /\ Publisher.status_lbl a' = (lit "Status: Connecting...", lit "orange").
Proof.
  intros Hc Hp. unfold Publisher._toggle_connection.
  rewrite mqtt_installed. mstep. rewrite Hc. mstep. rewrite Hp.
  unfold Publisher._connect_async, Publisher._log. mrun.
  eexists. split; [reflexivity|]. cbn. auto.
Qed.

Lemma subscriber_toggle_disconnected (w : world Subscriber.App) (p : Z) :
  Subscriber.connected (app w) = false ->
  Subscriber.port_var (app w) = Some p ->
  exists a',
    Subscriber._toggle_connection E w
    = (Ok tt,
       World a'
         (trace w
          ++ [ThreadStart (strip (Subscriber.broker_var (app w)))
                (if (p =? 0)%Z then 1883%Z else p)]))
    /\ Subscriber.connected a' = false
    /\ Subscriber.status_queue a' = Subscriber.status_queue (app w)
    /\ Subscriber.status_lbl a' = (lit "Status: Connecting...", lit "orange").
Proof.
  intros Hc Hp. unfold Subscriber._toggle_connection.
  rewrite mqtt_installed. mstep. rewrite Hc. mstep. rewrite Hp.
  unfold Subscriber._connect_async, Subscriber._log_msg. mrun.
  eexists. split; [reflexivity|]. cbn. auto.
Qed.

End ToggleFacts.

Lemma added_same {A} (w : world A) (a : A) : added w (World a (trace w)) = [].
Proof. unfold added. cbn [trace]. apply drop_all. Qed.

Lemma publisher_toggle_connected (E : Env) (w : world Publisher.App) :
  Publisher.connected (app w) = true ->
  List.filter is_ThreadStart
    (added w (snd (Publisher._toggle_connection E w))) = [].
Proof.
  intros Hc. unfold Publisher._toggle_connection.
  destruct (mqtt E); mstep.
  2:{ cbn. rewrite added_app. reflexivity. }
  rewrite Hc. unfold Publisher._log. mrun.
  destruct (Publisher.client (app w)) as [c|]; cbn.
  - destruct (lib E (trace w) c disconnect); cbn;
      rewrite added_app; reflexivity.
  - rewrite added_same. reflexivity.
Qed.

Lemma subscriber_toggle_connected (E : Env) (w : world Subscriber.App) :
  Subscriber.connected (app w) = true ->
  List.filter is_ThreadStart
    (added w (snd (Subscriber._toggle_connection E w))) = [].
Proof.
  intros Hc. unfold Subscriber._toggle_connection.
  destruct (mqtt E); mstep.
  2:{ cbn. rewrite added_app. reflexivity. }
  rewrite Hc. unfold Subscriber._log_msg. mrun.
  destruct (Subscriber.client (app w)) as [c|]; cbn.
  - destruct (lib E (trace w) c disconnect); cbn;
      rewrite added_app; reflexivity.
  - rewrite added_same. reflexivity.
Qed.

Section WorkerClient.
Variable E : Env.

(** A worker first asks the library for a new client object, numbered
    after the ones created before, and makes it [self.client] when the
    library returns it. *)
Lemma publisher_worker_client (broker : str) (port : Z)
    (w : world Publisher.App) :
  (exists delta,
     added w (snd (Publisher.worker E broker port w))
     = Call (length (List.filter is_Client (trace w))) Client :: delta)
  /\ (forall rc,
        lib E (trace w) (length (List.filter is_Client (trace w))) Client
        = Returns rc ->
        Publisher.client (app (snd (Publisher.worker E broker port w)))
        = Some (length (List.filter is_Client (trace w)))).
Proof.
  destruct w as [a tr]. cbn [trace].
  unfold Publisher.worker, Publisher.status_put, added. mrun. cbn.
  repeat match goal with
         | |- context [lib E ?t ?c ?op] =>
             destruct (lib E t c op) eqn:?; cbn
         end;
    rewrite <- ?app_assoc, drop_app_length;
    (split; [eexists; reflexivity | intros; congruence]).
Qed.

Lemma subscriber_worker_client (broker : str) (port : Z)
    (w : world Subscriber.App) :
  (exists delta,
     added w (snd (Subscriber.worker E broker port w))
     = Call (length (List.filter is_Client (trace w))) Client :: delta)
  /\ (forall rc,
        lib E (trace w) (length (List.filter is_Client (trace w))) Client
        = Returns rc ->
        Subscriber.client (app (snd (Subscriber.worker E broker port w)))
        = Some (length (List.filter is_Client (trace w)))).
Proof.
  destruct w as [a tr]. cbn [trace].
  unfold Subscriber.worker, Subscriber.status_put, added. mrun. cbn.
  repeat match goal with
         | |- context [lib E ?t ?c ?op] =>
             destruct (lib E t c op) eqn:?; cbn
         end;
    rewrite <- ?app_assoc, drop_app_length;
    (split; [eexists; reflexivity | intros; congruence]).
Qed.

End WorkerClient.

(** C8, as the programs have it.  The programs keep no Connecting state:
    whenever the [connected] flag is false (and paho-mqtt is installed and
    the port field holds a number), [_toggle_connection] starts one new
    worker thread, whether or not an earlier attempt is still outstanding,
    and leaves the flag false, so that the next call starts another one.
    Only when the flag is true does the call start no attempt.  Every run
    of a worker begins by asking the library for a new client object,
    numbered after the client objects created before, and makes it
    [self.client] if the library returns it. *)
Theorem connect_starts_attempt (E : Env) :
  mqtt E = true ->
  (forall (w : world Publisher.App) (p : Z),
     Publisher.connected (app w) = false ->
     Publisher.port_var (app w) = Some p ->
     exists a',
       Publisher._toggle_connection E w
       = (Ok tt,
          World a'
            (trace w
             ++ [ThreadStart (strip (Publisher.broker_var (app w)))
                   (if (p =? 0)%Z then 1883%Z else p)]))
       /\ Publisher.connected a' = false)
  /\ (forall (w : world Subscriber.App) (p : Z),
        Subscriber.connected (app w) = false ->
        Subscriber.port_var (app w) = Some p ->
        exists a',
          Subscriber._toggle_connection E w
          = (Ok tt,
             World a'
               (trace w
                ++ [ThreadStart (strip (Subscriber.broker_var (app w)))
                      (if (p =? 0)%Z then 1883%Z else p)]))
          /\ Subscriber.connected a' = false)
  /\ (forall w : world Publisher.App,
        Publisher.connected (app w) = true ->
        List.filter is_ThreadStart
          (added w (snd (Publisher._toggle_connection E w))) = [])
  /\ (forall w : world Subscriber.App,
        Subscriber.connected (app w) = true ->
        List.filter is_ThreadStart
          (added w (snd (Subscriber._toggle_connection E w))) = [])
  /\ (forall (w : world Publisher.App) (broker : str) (port : Z),
        (exists delta,
           added w (snd (Publisher.worker E broker port w))
           = Call (length (List.filter is_Client (trace w))) Client :: delta)
        /\ (forall rc,
              lib E (trace w) (length (List.filter is_Client (trace w)))
                Client = Returns rc ->
              Publisher.client (app (snd (Publisher.worker E broker port w)))
              = Some (length (List.filter is_Client (trace w)))))
  /\ (forall (w : world Subscriber.App) (broker : str) (port : Z),
        (exists delta,
           added w (snd (Subscriber.worker E broker port w))
           = Call (length (List.filter is_Client (trace w))) Client :: delta)
        /\ (forall rc,
              lib E (trace w) (length (List.filter is_Client (trace w)))
                Client = Returns rc ->
              Subscriber.client
                (app (snd (Subscriber.worker E broker port w)))
              = Some (length (List.filter is_Client (trace w))))).
Proof.
  intros Hm. split; [|split; [|split; [|split; [|split]]]].
  - intros w p Hc Hp.
    destruct (publisher_toggle_disconnected E Hm w p Hc Hp) as (a'&H1&H2&_).
    eauto.
  - intros w p Hc Hp.
    destruct (subscriber_toggle_disconnected E Hm w p Hc Hp) as (a'&H1&H2&_).
    eauto.
  - apply publisher_toggle_connected.
  - apply subscriber_toggle_connected.
  - intros w broker port. apply publisher_worker_client.
  - intros w broker port. apply subscriber_worker_client.
Qed.

(** In the sample environment the fresh publisher is disconnected and its
    port field reads 1883. *)
Lemma connect_starts_attempt_witness :
  exists a',
    Publisher._toggle_connection sample_env Publisher.init
    = (Ok tt,
       World a'
         (trace Publisher.init
          ++ [ThreadStart (strip (Publisher.broker_var (app Publisher.init)))
                (if (1883 =? 0)%Z then 1883%Z else 1883%Z)]))
    /\ Publisher.connected a' = false.
Proof.
  apply (proj1 (connect_starts_attempt sample_env eq_refl)
           Publisher.init 1883%Z); reflexivity.
Defined.

(** C8, as the specification states it, fails: a publisher (or subscriber)
    that shows "Connecting..." after a first call to connect does not ignore
    a second call, it starts a second worker thread. *)
Lemma second_connect_not_ignored :
  ~ (forall w : world Publisher.App,
       Publisher.status_lbl (app w) = (lit "Status: Connecting...", lit "orange") ->
       List.filter is_ThreadStart
         (added w (snd (Publisher._toggle_connection sample_env w))) = [])
  /\ ~ (forall w : world Subscriber.App,
          Subscriber.status_lbl (app w)
          = (lit "Status: Connecting...", lit "orange") ->
          List.filter is_ThreadStart
            (added w (snd (Subscriber._toggle_connection sample_env w))) = [])
  /\ List.filter is_ThreadStart
       (trace (snd (Publisher._toggle_connection sample_env
                      (snd (Publisher._toggle_connection sample_env
                              Publisher.init)))))
     = [ThreadStart (lit "test.mosquitto.org") 1883;
        ThreadStart (lit "test.mosquitto.org") 1883].
Proof.
  split; [|split].
  - intros H.
    specialize (H (snd (Publisher._toggle_connection sample_env Publisher.init))
                  eq_refl).
    vm_compute in H. discriminate H.
  - intros H.
    specialize (H (snd (Subscriber._toggle_connection sample_env
                          Subscriber.init)) eq_refl).
    vm_compute in H. discriminate H.
  - vm_compute. reflexivity.
Qed.

(** * Connection attempts *)

Ltac lib_cases E :=
  repeat match goal with
         | |- context [lib E ?t ?c ?op] => destruct (lib E t c op); cbn
         end.

Lemma publisher_worker_run (E : Env) (broker : str) (port : Z)
    (w : world Publisher.App) :
  (exists c delta,
     Publisher.worker E broker port w
     = (Ok tt,
        World (Publisher.set_client (Some c) (app w))
          (trace w ++ delta ++ [Call c loop_start])))
  \/ (exists a' tr' text,
        Publisher.worker E broker port w = (Ok tt, World a' tr')
        /\ Publisher.status_queue a'
           = Publisher.status_queue (app w)
             ++ [(lit "error", lit "Connection failed: " ++ text)]).
Proof.
  unfold Publisher.worker, Publisher.status_put. mrun. cbn.
  lib_cases E.
  all: try (right; eexists _, _, _; split; reflexivity).
  left. eexists _, [_; _; _; _]. rewrite <- !app_assoc. reflexivity.
Qed.

Lemma subscriber_worker_run (E : Env) (broker : str) (port : Z)
    (w : world Subscriber.App) :
  (exists c delta,
     Subscriber.worker E broker port w
     = (Ok tt,
        World (Subscriber.set_client (Some c) (app w))
          (trace w ++ delta ++ [Call c loop_start])))
  \/ (exists a' tr' text,
        Subscriber.worker E broker port w = (Ok tt, World a' tr')
        /\ Subscriber.status_queue a'
           = Subscriber.status_queue (app w)
             ++ [(lit "error", lit "Connection failed: " ++ text)]).
Proof.
  unfold Subscriber.worker, Subscriber.status_put. mrun. cbn.
  lib_cases E.
  all: try (right; eexists _, _, _; split; reflexivity).
  left. eexists _, [_; _; _; _; _]. rewrite <- !app_assoc. reflexivity.
Qed.

Section WorkerEvents.
Variable E : Env.

(** The worker returns normally, and enqueues one "error" event with the
    text of the first library call that raises, nothing if none does. *)
Lemma publisher_worker_events (broker : str) (port : Z)
    (w : world Publisher.App) :
  let c := length (List.filter is_Client (trace w)) in
  let tr1 := trace w ++ [Call c Client; Call c set_on_connect;
                         Call c set_on_disconnect] in
  fst (Publisher.worker E broker port w) = Ok tt
  /\ Publisher.status_queue (app (snd (Publisher.worker E broker port w)))
     = Publisher.status_queue (app w)
       ++ match lib E (trace w) c Client with
          | Raises text => [(lit "error", lit "Connection failed: " ++ text)]
          | Returns _ =>
              match lib E tr1 c (connect broker port 60) with
              | Raises text =>
                  [(lit "error", lit "Connection failed: " ++ text)]
              | Returns _ =>
                  match lib E (tr1 ++ [Call c (connect broker port 60)]) c
                          loop_start
                  with
                  | Raises text =>
                      [(lit "error", lit "Connection failed: " ++ text)]
                  | Returns _ => []
                  end
              end
          end.
Proof.
  destruct w as [a tr]. cbn [trace app]. cbv zeta.
  unfold Publisher.worker, Publisher.status_put. mrun. cbn.
  repeat match goal with
         | |- context [lib E ?t ?c ?op] =>
             destruct (lib E t c op); cbn;
             rewrite <- ?app_assoc; cbn [Datatypes.app]
         end;
    rewrite ?app_nil_r; split; reflexivity.
Qed.

Lemma subscriber_worker_events (broker : str) (port : Z)
    (w : world Subscriber.App) :
  let c := length (List.filter is_Client (trace w)) in
  let tr1 := trace w ++ [Call c Client; Call c set_on_connect;
                         Call c set_on_disconnect; Call c set_on_message] in
  fst (Subscriber.worker E broker port w) = Ok tt
  /\ Subscriber.status_queue (app (snd (Subscriber.worker E broker port w)))
     = Subscriber.status_queue (app w)
       ++ match lib E (trace w) c Client with
          | Raises text => [(lit "error", lit "Connection failed: " ++ text)]
          | Returns _ =>
              match lib E tr1 c (connect broker port 60) with
              | Raises text =>
                  [(lit "error", lit "Connection failed: " ++ text)]
              | Returns _ =>
                  match lib E (tr1 ++ [Call c (connect broker port 60)]) c
                          loop_start
                  with
                  | Raises text =>
                      [(lit "error", lit "Connection failed: " ++ text)]
                  | Returns _ => []
                  end
              end
          end.
Proof.
  destruct w as [a tr]. cbn [trace app]. cbv zeta.
  unfold Subscriber.worker, Subscriber.status_put. mrun. cbn.
  repeat match goal with
         | |- context [lib E ?t ?c ?op] =>
             destruct (lib E t c op); cbn;
             rewrite <- ?app_assoc; cbn [Datatypes.app]
         end;
    rewrite ?app_nil_r; split; reflexivity.
Qed.

End WorkerEvents.

(** C9, as the programs have it.  Events are enqueued per library call and
    per callback, not per attempt.  The worker of an attempt returns
    normally; it enqueues exactly one "error" event, with the text of the
    exception, when one of its library calls ([mqtt.Client()], [connect],
    [loop_start]) raises, the first that does ending the worker, and it
    enqueues nothing when all of them return.  Every invocation of
    [_on_connect] enqueues exactly one event: "connected" exactly when the
    reason code is 0, "error" otherwise. *)
Theorem connect_events_per_call (E : Env) (broker : str) (port : Z) :
  (forall w : world Publisher.App,
     let c := length (List.filter is_Client (trace w)) in
     let tr1 := trace w ++ [Call c Client; Call c set_on_connect;
                            Call c set_on_disconnect] in
     fst (Publisher.worker E broker port w) = Ok tt
     /\ Publisher.status_queue (app (snd (Publisher.worker E broker port w)))
        = Publisher.status_queue (app w)
          ++ match lib E (trace w) c Client with
             | Raises text =>
                 [(lit "error", lit "Connection failed: " ++ text)]
             | Returns _ =>
                 match lib E tr1 c (connect broker port 60) with
                 | Raises text =>
                     [(lit "error", lit "Connection failed: " ++ text)]
                 | Returns _ =>
                     match lib E (tr1 ++ [Call c (connect broker port 60)]) c
                             loop_start
                     with
                     | Raises text =>
                         [(lit "error", lit "Connection failed: " ++ text)]
                     | Returns _ => []
                     end
                 end
             end)
  /\ (forall (w : world Publisher.App) (rc : Z),
        exists kind msg,
          Publisher._on_connect rc w
          = (Ok tt,
             World (Publisher.set_status_queue
                      (Publisher.status_queue (app w) ++ [(kind, msg)])
                      (app w))
               (trace w))
          /\ (kind = lit "connected" \/ kind = lit "error")
          /\ (kind = lit "connected" <-> rc = 0%Z))
  /\ (forall w : world Subscriber.App,
        let c := length (List.filter is_Client (trace w)) in
        let tr1 := trace w ++ [Call c Client; Call c set_on_connect;
                               Call c set_on_disconnect;
                               Call c set_on_message] in
        fst (Subscriber.worker E broker port w) = Ok tt
        /\ Subscriber.status_queue
             (app (snd (Subscriber.worker E broker port w)))
           = Subscriber.status_queue (app w)
             ++ match lib E (trace w) c Client with
                | Raises text =>
                    [(lit "error", lit "Connection failed: " ++ text)]
                | Returns _ =>
                    match lib E tr1 c (connect broker port 60) with
                    | Raises text =>
                        [(lit "error", lit "Connection failed: " ++ text)]
                    | Returns _ =>
                        match
                          lib E (tr1 ++ [Call c (connect broker port 60)]) c
                            loop_start
                        with
                        | Raises text =>
                            [(lit "error", lit "Connection failed: " ++ text)]
                        | Returns _ => []
                        end
                    end
                end)
  /\ (forall (w : world Subscriber.App) (rc : Z),
        exists kind msg,
          Subscriber._on_connect rc w
          = (Ok tt,
             World (Subscriber.set_status_queue
                      (Subscriber.status_queue (app w) ++ [(kind, msg)])
                      (app w))
               (trace w))
          /\ (kind = lit "connected" \/ kind = lit "error")
          /\ (kind = lit "connected" <-> rc = 0%Z)).
Proof.
  split; [intros w; apply publisher_worker_events|].
  split.
  { intros w rc. unfold Publisher._on_connect.
    destruct (Z.eqb_spec rc 0) as [Hrc|Hrc].
    - eexists _, _. split; [reflexivity|]. split; [now left|]. tauto.
    - eexists _, _. split; [reflexivity|]. split; [now right|].
      split; [discriminate | tauto]. }
  split; [intros w; apply subscriber_worker_events|].
  intros w rc. unfold Subscriber._on_connect.
  destruct (Z.eqb_spec rc 0) as [Hrc|Hrc].
  - eexists _, _. split; [reflexivity|]. split; [now left|]. tauto.
  - eexists _, _. split; [reflexivity|]. split; [now right|].
    split; [discriminate | tauto].
Qed.

(** C9, as the specification states it, fails.  In the sample run the
    publisher makes one attempt (one worker thread is started, and every
    library call of the worker returns, so the worker enqueues nothing);
    the library then reports reason code 5 and, on its next try, reason
    code 0: the one attempt has put both an "error" and a "connected" event
    into the queue.  Before the library reported anything, the completed
    worker had left the queue empty. *)
Lemma one_attempt_two_events :
  Publisher.reachable sample_env scenario_two_events
  /\ List.filter is_ThreadStart (trace scenario_two_events)
     = [ThreadStart (lit "test.mosquitto.org") 1883]
  /\ Publisher.status_queue (app scenario_two_events)
     = [(lit "error", lit "Failed to connect. Code: 5");
        (lit "connected", lit "Connected to broker.")]
  /\ Publisher.reachable sample_env scenario_started
  /\ List.filter is_ThreadStart (trace scenario_started)
     = [ThreadStart (lit "test.mosquitto.org") 1883]
  /\ Publisher.status_queue (app scenario_started) = [].
Proof.
  assert (Hs : Publisher.reachable sample_env scenario_started).
  { unfold scenario_started.
    eapply Publisher.reach_worker; [|vm_compute; tauto].
    apply Publisher.reach_toggle, Publisher.reach_init. }
  split; [|split; [|split; [|split; [exact Hs|split]]]];
    try (vm_compute; reflexivity).
  unfold scenario_two_events.
  eapply (Publisher.reach_on_connect _ _ 0%nat); [|vm_compute; tauto].
  eapply (Publisher.reach_on_connect _ _ 0%nat); [|vm_compute; tauto].
  exact Hs.
Qed.

(** * Inbound messages *)

(** The decoder on well-formed and on ill-formed input: "é", "€" and an
    emoji; an overlong form, a surrogate and a truncated sequence, each
    byte or longest well-formed prefix replaced by U+FFFD; the [strict]
    handler on the byte 0xFF. *)
Example utf8_decode_samples :
  Codec.utf8_decode Codec.replace 0 [Byte.xc3; Byte.xa9] = inr [0xE9]
  /\ Codec.utf8_decode Codec.replace 0 [Byte.xe2; Byte.x82; Byte.xac]
     = inr [0x20AC]
  /\ Codec.utf8_decode Codec.replace 0 [Byte.xf0; Byte.x9f; Byte.x98; Byte.x80]
     = inr [0x1F600]
  /\ Codec.utf8_decode Codec.replace 0 [Byte.xc0; Byte.x80]
     = inr [0xFFFD; 0xFFFD]
  /\ Codec.utf8_decode Codec.replace 0 [Byte.xed; Byte.xa0; Byte.x80]
     = inr [0xFFFD; 0xFFFD; 0xFFFD]
  /\ Codec.utf8_decode Codec.replace 0 [Byte.xf0; Byte.x9f; Byte.x98]
     = inr [0xFFFD]
  /\ Codec.utf8_decode Codec.strict 0 [Byte.x61; Byte.xff]
     = inl (UnicodeDecodeError 1 2 (lit "invalid start byte")).
Proof. repeat split; reflexivity. Qed.

Section DecodeFacts.
Import Codec.

Lemma emit_char_inr (c : N) (r : exn + str) :
  (exists s, r = inr s) -> exists s, emit_char c r = inr s.
Proof. intros [s ->]. simpl. eauto. Qed.

Lemma on_error_replace_inr (pos len : nat) (reason : str) (r : exn + str) :
  (exists s, r = inr s) -> exists s, on_error replace pos len reason r = inr s.
Proof. intros [s ->]. simpl. eauto. Qed.

(** With the [replace] handler the decoder raises on no input. *)
Lemma utf8_decode_replace_total (bs : list Byte.byte) :
  forall pos, exists s, utf8_decode replace pos bs = inr s.
Proof.
  remember (length bs) as n eqn:Hn.
  assert (Hlen : (length bs <= n)%nat) by lia. clear Hn.
  revert bs Hlen. induction n as [|n IH]; intros bs Hlen pos.
  - destruct bs; [simpl; eauto | simpl in Hlen; lia].
  - destruct bs as [|b1 r1]; [simpl; eauto|].
    cbn [utf8_decode].
    repeat match goal with
           | |- context [if ?b then _ else _] => destruct b
           | |- context [match ?l with [] => _ | _ :: _ => _ end] =>
               destruct l
           end;
      (apply emit_char_inr || apply on_error_replace_inr);
      (eauto || (apply IH; simpl in Hlen |- *; lia)).
Qed.

(** A payload that is well-formed UTF-8 decodes to the same text under
    [replace] as under [strict]. *)
Lemma utf8_decode_replace_strict (bs : list Byte.byte) :
  forall pos s,
    utf8_decode strict pos bs = inr s -> utf8_decode replace pos bs = inr s.
Proof.
  remember (length bs) as n eqn:Hn.
  assert (Hlen : (length bs <= n)%nat) by lia. clear Hn.
  revert bs Hlen. induction n as [|n IH]; intros bs Hlen pos s.
  - destruct bs; [simpl; eauto | simpl in Hlen; lia].
  - destruct bs as [|b1 r1]; [simpl; eauto|].
    cbn [utf8_decode].
    repeat match goal with
           | |- context [if ?b then _ else _] => destruct b
           | |- context [match ?l with [] => _ | _ :: _ => _ end] =>
               destruct l
           end;
      try discriminate;
      unfold emit_char;
      match goal with
      | |- context [utf8_decode strict ?p ?l] =>
          destruct (utf8_decode strict p l) as [e|t] eqn:Hs;
          [discriminate|];
          rewrite (IH l ltac:(simpl in Hlen |- *; lia) p t Hs); auto
      end.
Qed.

End DecodeFacts.

(** What one run of [_on_message] does: the payload is decoded with the
    [replace] handler, which cannot fail, and then the topic strictly,
    which can. *)
Lemma on_message_run (message : Subscriber.MQTTMessage)
    (w : world Subscriber.App) :
  exists text,
    Codec.utf8_decode Codec.replace 0 (Subscriber.payload message) = inr text
    /\ Subscriber._on_message message w
       = match Codec.utf8_decode Codec.strict 0 (Subscriber.topic message) with
         | inr topic =>
             (Ok tt,
              World (Subscriber.set_msg_queue
                       (Subscriber.msg_queue (app w)
                        ++ [lit "[" ++ topic ++ lit "] " ++ text])
                       (app w))
                (trace w))
         | inl e => (Raise e, w)
         end.
Proof.
  destruct (utf8_decode_replace_total (Subscriber.payload message) 0)
    as [text Htext].
  exists text. split; [exact Htext|].
  unfold Subscriber._on_message, Subscriber.msg_put, Codec.decode.
  rewrite Htext. mrun.
  destruct (Codec.utf8_decode Codec.strict 0 (Subscriber.topic message));
    destruct w; reflexivity.
Qed.

(** C10. [_on_message] is not total.  It reads [message.topic] outside its
    [try], and the library decodes the topic bytes strictly there: on the
    message with topic bytes 0xFF and payload "hi" the handler raises
    [UnicodeDecodeError] and enqueues nothing.  For a message whose topic
    is valid UTF-8 the claim holds: whatever the payload bytes, the handler
    returns normally and appends exactly one entry "[<topic>] <text>" to
    the message queue, where <text> is the payload decoded as UTF-8 with
    every undecodable range replaced by U+FFFD (a well-formed payload is
    decoded unchanged, the empty payload gives the empty text). *)
Theorem on_message_topic_decoding :
  (forall w : world Subscriber.App,
     Subscriber._on_message sample_bad_topic w
     = (Raise (UnicodeDecodeError 0 1 (lit "invalid start byte")), w))
  /\ (forall (message : Subscriber.MQTTMessage) (w : world Subscriber.App)
             (topic : str),
        Codec.utf8_decode Codec.strict 0 (Subscriber.topic message)
        = inr topic ->
        exists text,
          Codec.utf8_decode Codec.replace 0 (Subscriber.payload message)
          = inr text
          /\ Subscriber._on_message message w
             = (Ok tt,
                World (Subscriber.set_msg_queue
                         (Subscriber.msg_queue (app w)
                          ++ [lit "[" ++ topic ++ lit "] " ++ text])
                         (app w))
                  (trace w)))
  /\ (forall (bs : list Byte.byte) (text : str),
        Codec.utf8_decode Codec.strict 0 bs = inr text ->
        Codec.utf8_decode Codec.replace 0 bs = inr text)
  /\ Codec.utf8_decode Codec.replace 0 [] = inr []
  /\ Codec.utf8_decode Codec.replace 0 [Byte.xff]
     = inr [Codec.REPLACEMENT_CHARACTER].
Proof.
  split; [|split; [|split; [|split; reflexivity]]].
  - intros w. destruct (on_message_run sample_bad_topic w) as (text & _ & Hr).
    rewrite Hr. reflexivity.
  - intros message w topic Ht.
    destruct (on_message_run message w) as (text & Htext & Hr).
    exists text. split; [exact Htext|]. rewrite Hr, Ht. reflexivity.
  - intros bs. apply utf8_decode_replace_strict.
Qed.

(** * The queue drains *)

Section DrainLoop.
Context {S X : Type}.
Variable queue : S -> list X.
Variable get : M S X.
Variable handle : X -> M S unit.

Hypothesis get_spec :
  forall s,
    match queue s with
    | [] => get s = (Raise Empty, s)
    | x :: q => exists s', get s = (Ok x, s') /\ queue s' = q
    end.

Hypothesis handle_spec :
  forall x s, exists s', handle x s = (Ok tt, s') /\ queue s' = queue s.

(** With more fuel than queued entries the loop handles the entries one
    by one, oldest first, and ends on [queue.Empty] with the queue empty. *)
Lemma while_true_drains (fuel : nat) :
  forall s,
    (length (queue s) < fuel)%nat ->
    while_true fuel (bind get handle) s
    = (Raise Empty, rounds get handle (queue s) s)
    /\ queue (rounds get handle (queue s) s) = [].
Proof.
  induction fuel as [|fuel IH]; intros s Hlen; [lia|].
  cbn [while_true]. unfold bind at 1. unfold bind at 1.
  pose proof (get_spec s) as Hget.
  destruct (queue s) as [|x q] eqn:Hq.
  - rewrite Hget. split; [reflexivity | exact Hq].
  - destruct Hget as (s1 & Hget & Hq1). rewrite Hget.
    destruct (handle_spec x s1) as (s2 & Hh & Hq2). rewrite Hh.
    cbn [rounds fold_left]. rewrite Hget. cbn [snd]. rewrite Hh. cbn [snd].
    assert (Hq' : queue s2 = q) by congruence.
    specialize (IH s2). rewrite Hq' in IH. unfold rounds in IH.
    apply IH. simpl in Hlen. lia.
Qed.

Lemma rounds_cons (x : X) (items : list X) (s : S) :
  rounds get handle (x :: items) s
  = rounds get handle items (snd (handle x (snd (get s)))).
Proof. reflexivity. Qed.

Lemma rounds_invariant (P : S -> Prop) :
  (forall x s, P s -> P (snd (handle x (snd (get s))))) ->
  forall items s, P s -> P (rounds get handle items s).
Proof.
  intros Hstep items. unfold rounds.
  induction items as [|x items IH]; intros s Hs; [exact Hs|].
  cbn [fold_left]. apply IH, Hstep, Hs.
Qed.

(** A property kept by every round that handles the head of the queue is
    kept by the rounds that take the whole queue. *)
Lemma rounds_queue_invariant (P : S -> Prop) :
  (forall s x q, queue s = x :: q -> P s ->
                 P (snd (handle x (snd (get s))))) ->
  forall items s, queue s = items -> P s -> P (rounds get handle items s).
Proof.
  intros Hstep items. unfold rounds.
  induction items as [|x items IH]; intros s Hq Hs; [exact Hs|].
  cbn [fold_left]. apply IH; [|now apply (Hstep s x items)].
  pose proof (get_spec s) as Hget. rewrite Hq in Hget.
  destruct Hget as (s1 & Hget & Hq1). rewrite Hget. cbn [snd].
  destruct (handle_spec x s1) as (s2 & Hh & Hq2). rewrite Hh. cbn [snd].
  congruence.
Qed.

End DrainLoop.

Section PublisherDrain.
Import Publisher.
Variable E : Env.

Lemma publisher_get_spec (w : world App) :
  match status_queue (app w) with
  | [] => status_get_nowait w = (Raise Empty, w)
  | x :: q =>
      exists w', status_get_nowait w = (Ok x, w') /\ status_queue (app w') = q
  end.
Proof.
  unfold status_get_nowait. destruct (status_queue (app w)); eauto.
Qed.

Lemma publisher_handle_spec (item : str * str) (w : world App) :
  exists w',
    handle_status E item w = (Ok tt, w')
    /\ status_queue (app w') = status_queue (app w).
Proof.
  destruct item as [kind msg]. unfold handle_status, _log.
  repeat case_bool_decide; eexists; split; reflexivity.
Qed.

Lemma publisher_drain (w : world App) (fuel : nat) :
  (length (status_queue (app w)) < fuel)%nat ->
  _drain_status_queue E fuel w
  = (Ok tt,
     World
       (app (rounds status_get_nowait (handle_status E)
               (status_queue (app w)) w))
       (trace (rounds status_get_nowait (handle_status E)
                 (status_queue (app w)) w)
        ++ [After 150 drain_status_queue]))
  /\ status_queue
       (app (rounds status_get_nowait (handle_status E)
               (status_queue (app w)) w)) = [].
Proof.
  intros Hlen.
  destruct (while_true_drains (fun w => status_queue (app w))
              status_get_nowait (handle_status E)
              publisher_get_spec publisher_handle_spec fuel w Hlen)
    as [Hrun Hq].
  split; [|exact Hq].
  unfold _drain_status_queue, try_finally, try_except.
  change (while_true fuel _ w)
    with (while_true fuel (bind status_get_nowait (handle_status E)) w).
  rewrite Hrun. reflexivity.
Qed.

End PublisherDrain.

Section SubscriberDrain.
Import Subscriber.
Variable E : Env.

Lemma set_msg_text_same (a : App) : set_msg_text (msg_text a) a = a.
Proof. destruct a; reflexivity. Qed.

Lemma subscribe_to_topic_run (tag : str) (w : world App) :
  exists l,
    _subscribe_to_topic E tag w
    = (Ok tt, World (set_msg_text l (app w)) (trace w ++ subscribe_calls (app w) [tag])).
Proof.
  unfold _subscribe_to_topic, _log_msg, subscribe_calls. mstep.
  destruct (connected (app w)); mstep.
  2:{ eexists. mrun. rewrite app_nil_r. reflexivity. }
  destruct (client (app w)) as [c|] eqn:Hcl.
  2:{ rewrite bool_decide_false by (intros [? ?]; discriminate).
      eexists. mrun. rewrite app_nil_r. reflexivity. }
  rewrite bool_decide_true by eauto. mrun. rewrite Hcl.
  destruct (lib E (trace w) c _); cbn; eexists; reflexivity.
Qed.

Lemma for_each_subscribe_run (tags : list str) :
  forall w : world App,
    exists l,
      for_each tags (_subscribe_to_topic E) w
      = (Ok tt, World (set_msg_text l (app w)) (trace w ++ subscribe_calls (app w) tags)).
Proof.
  induction tags as [|tag tags IH]; intros w.
  - exists (msg_text (app w)). cbn [for_each]. unfold ret, subscribe_calls.
    rewrite set_msg_text_same.
    destruct (connected (app w)), (client (app w)), w;
      cbn; rewrite app_nil_r; reflexivity.
  - cbn [for_each]. unfold bind.
    destruct (subscribe_to_topic_run tag w) as [l Hl]. rewrite Hl.
    destruct (IH (World (set_msg_text l (app w))
                    (trace w ++ subscribe_calls (app w) [tag]))) as [l' Hl'].
    rewrite Hl'. exists l'. cbn [app trace]. f_equal. f_equal.
    rewrite <- app_assoc. f_equal. unfold subscribe_calls. cbn.
    destruct (connected (app w)), (client (app w)); reflexivity.
Qed.

(** What handling one status event does to the subscriber. *)
Lemma subscriber_handle_run (item : str * str) (w : world App) :
  exists a' delta,
    handle_status E item w = (Ok tt, World a' (trace w ++ delta))
    /\ status_queue a' = status_queue (app w)
    /\ msg_queue a' = msg_queue (app w)
    /\ client a' = client (app w)
    /\ subscribed a' = subscribed (app w)
    /\ (fst item = lit "connected" ->
        connected a' = true
        /\ delta
           = match client (app w) with
             | Some c =>
                 List.map
                   (fun tag => Call c (subscribe (lit "twitter/" ++ tag) 0))
                   (resubscribe_order E (app w))
             | None => []
             end)
    /\ (fst item <> lit "connected" ->
        delta = [] /\ (connected a' = true -> connected (app w) = true)).
Proof.
  destruct item as [kind msg]. destruct w as [a tr].
  unfold handle_status, resubscribe_order. cbn [fst app trace].
  case_bool_decide as Hk.
  - unfold _log_msg. mstep. cbn [msg_text set_msg_text].
    rewrite length_app, Nat.add_1_r.
    match goal with
    | |- context [for_each ?tags _ ?w0] =>
        destruct (for_each_subscribe_run tags w0) as [l Hl]
    end.
    rewrite Hl. cbn [app trace]. eexists _, _.
    split; [reflexivity|]. unfold subscribe_calls. cbn.
    repeat split; try (intros; congruence).
  - unfold _log_msg.
    repeat case_bool_decide; eexists _, []; rewrite app_nil_r;
      (split; [reflexivity|]); cbn; repeat split;
      try congruence; try (intros; congruence).
Qed.

Lemma subscriber_get_spec (w : world App) :
  match status_queue (app w) with
  | [] => status_get_nowait w = (Raise Empty, w)
  | x :: q =>
      exists w', status_get_nowait w = (Ok x, w') /\ status_queue (app w') = q
  end.
Proof.
  unfold status_get_nowait. destruct (status_queue (app w)); eauto.
Qed.

Lemma subscriber_handle_spec (item : str * str) (w : world App) :
  exists w',
    handle_status E item w = (Ok tt, w')
    /\ status_queue (app w') = status_queue (app w).
Proof.
  destruct (subscriber_handle_run item w) as (a'&delta&Hr&Hq&_).
  eexists. split; [exact Hr | exact Hq].
Qed.

Lemma subscriber_drain (w : world App) (fuel : nat) :
  (length (status_queue (app w)) < fuel)%nat ->
  _drain_status_queue E fuel w
  = (Ok tt,
     World
       (app (rounds status_get_nowait (handle_status E)
               (status_queue (app w)) w))
       (trace (rounds status_get_nowait (handle_status E)
                 (status_queue (app w)) w)
        ++ [After 150 drain_status_queue]))
  /\ status_queue
       (app (rounds status_get_nowait (handle_status E)
               (status_queue (app w)) w)) = [].
Proof.
  intros Hlen.
  destruct (while_true_drains (fun w => status_queue (app w))
              status_get_nowait (handle_status E)
              subscriber_get_spec subscriber_handle_spec fuel w Hlen)
    as [Hrun Hq].
  split; [|exact Hq].
  unfold _drain_status_queue, try_finally, try_except.
  change (while_true fuel _ w)
    with (while_true fuel (bind status_get_nowait (handle_status E)) w).
  rewrite Hrun. reflexivity.
Qed.

Lemma message_get_spec (w : world App) :
  match msg_queue (app w) with
  | [] => msg_get_nowait w = (Raise Empty, w)
  | x :: q =>
      exists w', msg_get_nowait w = (Ok x, w') /\ msg_queue (app w') = q
  end.
Proof.
  unfold msg_get_nowait. destruct (msg_queue (app w)); eauto.
Qed.

Lemma message_handle_spec (line : str) (w : world App) :
  exists w',
    _log_msg E line w = (Ok tt, w') /\ msg_queue (app w') = msg_queue (app w).
Proof. eexists. split; reflexivity. Qed.

Lemma message_drain (w : world App) (fuel : nat) :
  (length (msg_queue (app w)) < fuel)%nat ->
  _drain_message_queue E fuel w
  = (Ok tt,
     World
       (app (rounds msg_get_nowait (_log_msg E) (msg_queue (app w)) w))
       (trace (rounds msg_get_nowait (_log_msg E) (msg_queue (app w)) w)
        ++ [After 120 drain_message_queue]))
  /\ msg_queue
       (app (rounds msg_get_nowait (_log_msg E) (msg_queue (app w)) w)) = [].
Proof.
  intros Hlen.
  destruct (while_true_drains (fun w => msg_queue (app w))
              msg_get_nowait (_log_msg E)
              message_get_spec message_handle_spec fuel w Hlen)
    as [Hrun Hq].
  split; [|exact Hq].
  unfold _drain_message_queue, try_finally, try_except.
  change (while_true fuel _ w)
    with (while_true fuel (bind msg_get_nowait (_log_msg E)) w).
  rewrite Hrun. reflexivity.
Qed.

(** The feed after the rounds: one line per entry, in the order of the
    entries, each behind the clock reading of its position. *)
Lemma message_rounds_feed (items : list str) :
  forall w : world App,
    msg_text (app (rounds msg_get_nowait (_log_msg E) items w))
    = msg_text (app w)
      ++ imap (fun i line =>
                 strftime E (length (msg_text (app w)) + i) ++ line ++ newline)
           items.
Proof.
  induction items as [|line items IH]; intros [a tr].
  - cbn. now rewrite app_nil_r.
  - rewrite rounds_cons, IH. unfold msg_get_nowait, _log_msg.
    cbn [app trace imap].
    destruct (msg_queue a); cbn; rewrite <- app_assoc; cbn;
      rewrite Nat.add_0_r; do 2 f_equal;
      apply imap_ext; intros i x _; cbn; rewrite length_app; cbn;
      do 2 f_equal; lia.
Qed.

End SubscriberDrain.

(** * Reachable worlds: a client object exists whenever it is needed *)

(** Membership in a trace or queue extended by concrete entries. *)
Ltac in_cases :=
  intros;
  repeat match goal with
         | H : In _ (_ ++ _) |- _ => apply in_app_or in H; destruct H as [H|H]
         | H : In _ (_ :: _) |- _ => destruct H as [H|H]
         | H : In _ [] |- _ => destruct H
         | H : @eq effect _ _ |- _ => discriminate H
         | H : @eq (list N * list N) _ _ |- _ => discriminate H
         end;
  eauto.

Section PublisherReach.
Import Publisher.
Variable E : Env.

Lemma publisher_quiet_invariant (w w' : world App) :
  quiet w w' -> client_invariant w -> client_invariant w'.
Proof.
  intros (Hcl & Hc & Hq & Ht) [Hi|(Hi1 & Hi2 & Hi3)].
  - left. now rewrite Hcl.
  - right. repeat split.
    + destruct (connected (app w')); [|reflexivity].
      rewrite Hc in Hi1; [discriminate | reflexivity].
    + intros msg H. exact (Hi2 msg (Hq msg H)).
    + intros c H. exact (Hi3 c (Ht c H)).
Qed.

Ltac quiet_solve :=
  unfold quiet; cbn; repeat split; auto; try congruence; in_cases.

Lemma publisher_toggle_quiet (w : world App) :
  quiet w (snd (_toggle_connection E w)).
Proof.
  destruct w as [a tr]. unfold _toggle_connection, _connect_async, _log.
  destruct (mqtt E); mstep; [|quiet_solve].
  destruct (connected a) eqn:Hc; mrun.
  - destruct (client a) as [c|]; cbn; lib_cases E; quiet_solve.
  - destruct (port_var a); cbn; quiet_solve.
Qed.

Lemma publisher_publish_quiet (w : world App) :
  quiet w (snd (_publish E w)).
Proof.
  destruct w as [a tr]. unfold _publish, _log. mstep.
  destruct (connected a) eqn:Hc; mstep; [|quiet_solve].
  destruct (client a) as [c|] eqn:Hcl.
  2:{ rewrite bool_decide_false by (intros [? ?]; discriminate). quiet_solve. }
  rewrite bool_decide_true by eauto. mstep.
  destruct (truthy _); mstep; [|quiet_solve].
  destruct (truthy _); mstep; [|quiet_solve].
  mrun. rewrite Hcl. lib_cases E; [|quiet_solve].
  match goal with |- context [(?rc =? 0)%Z] => destruct (rc =? 0)%Z end;
    quiet_solve.
Qed.

Lemma publisher_worker_invariant (broker : str) (port : Z) (w : world App) :
  client_invariant w -> client_invariant (snd (worker E broker port w)).
Proof.
  destruct w as [a tr]. intros Hinv.
  unfold worker, status_put. mrun. cbn.
  lib_cases E; try (left; cbn; eauto; fail).
  apply (publisher_quiet_invariant (World a tr)); [quiet_solve | exact Hinv].
Qed.

Lemma publisher_on_connect_invariant (rc : Z) (c : nat) (w : world App) :
  In (Call c set_on_connect) (trace w) ->
  client_invariant w -> client_invariant (snd (_on_connect rc w)).
Proof.
  intros Hin [Hi|(_ & _ & Hi)]; [|destruct (Hi c Hin)].
  left. unfold _on_connect. destruct (rc =? 0)%Z; exact Hi.
Qed.

Lemma publisher_on_disconnect_quiet (rc : Z) (w : world App) :
  quiet w (snd (_on_disconnect rc w)).
Proof. destruct w as [a tr]. unfold _on_disconnect. quiet_solve. Qed.

Lemma publisher_round_invariant (w : world App) (x : str * str)
    (q : list (str * str)) :
  status_queue (app w) = x :: q ->
  client_invariant w ->
  client_invariant (snd (handle_status E x (snd (status_get_nowait w)))).
Proof.
  destruct w as [a tr]. cbn [app]. intros Hq Hinv.
  unfold status_get_nowait. cbn [app trace]. rewrite Hq. cbn [snd].
  destruct x as [kind msg]. unfold handle_status, _log.
  case_bool_decide as Hk.
  - subst kind. destruct Hinv as [Hi|(_ & Hi & _)].
    + left. exact Hi.
    + destruct (Hi msg). cbn [app]. rewrite Hq. now left.
  - apply (publisher_quiet_invariant (World a tr)); [|exact Hinv].
    repeat case_bool_decide; unfold quiet; cbn; rewrite ?Hq;
      repeat split; auto; try congruence; in_cases;
      try (right; assumption).
Qed.

Lemma publisher_drain_invariant (w : world App) (fuel : nat) :
  (length (status_queue (app w)) < fuel)%nat ->
  client_invariant w -> client_invariant (snd (_drain_status_queue E fuel w)).
Proof.
  intros Hlen Hinv.
  destruct (publisher_drain E w fuel Hlen) as [Hrun _]. rewrite Hrun.
  cbn [snd].
  set (w' := rounds status_get_nowait (handle_status E)
               (status_queue (app w)) w).
  assert (Hw' : client_invariant w').
  { apply (rounds_queue_invariant (fun w => status_queue (app w))
             status_get_nowait (handle_status E)
             publisher_get_spec (publisher_handle_spec E) client_invariant);
      [apply publisher_round_invariant | reflexivity | exact Hinv]. }
  apply (publisher_quiet_invariant w'); [|exact Hw'].
  unfold quiet; cbn; repeat split; auto; in_cases.
Qed.

Lemma publisher_reachable_invariant (w : world App) :
  reachable E w -> client_invariant w.
Proof.
  induction 1 as [|w b p u h t _ IH|w _ IH|w _ IH|w broker port _ IH Hin
                  |w c rc _ IH Hin|w c rc _ IH Hin|w fuel _ IH Hlen].
  - right. repeat split; [intros msg [] | intros c [H|[]]; discriminate H].
  - apply (publisher_quiet_invariant w); [|exact IH].
    unfold quiet; cbn; auto.
  - exact (publisher_quiet_invariant _ _ (publisher_toggle_quiet w) IH).
  - exact (publisher_quiet_invariant _ _ (publisher_publish_quiet w) IH).
  - now apply publisher_worker_invariant.
  - now apply (publisher_on_connect_invariant rc c).
  - exact (publisher_quiet_invariant _ _ (publisher_on_disconnect_quiet rc w) IH).
  - now apply publisher_drain_invariant.
Qed.

(** In every reachable world of the publisher the [connected] flag is set
    only while a client object exists. *)
Lemma publisher_connected_client (w : world App) :
  reachable E w -> connected (app w) = true -> is_Some (client (app w)).
Proof.
  intros Hr Hc. destruct (publisher_reachable_invariant w Hr) as [H|(H&_)].
  - exact H.
  - congruence.
Qed.

End PublisherReach.

Section SubscriberReach.
Import Subscriber.
Variable E : Env.

Lemma subscriber_quiet_invariant (w w' : world App) :
  quiet w w' -> client_invariant w -> client_invariant w'.
Proof.
  intros (Hcl & Hc & Hq & Ht) [Hi|(Hi1 & Hi2 & Hi3)].
  - left. now rewrite Hcl.
  - right. repeat split.
    + destruct (connected (app w')); [|reflexivity].
      rewrite Hc in Hi1; [discriminate | reflexivity].
    + intros msg H. exact (Hi2 msg (Hq msg H)).
    + intros c H. exact (Hi3 c (Ht c H)).
Qed.

Lemma subscribe_calls_quiet (a : App) (tags : list str) (c : nat) :
  ~ In (Call c set_on_connect) (subscribe_calls a tags).
Proof.
  unfold subscribe_calls. destruct (connected a), (client a); try (intros []).
  intros H. apply in_map_iff in H. destruct H as (tag & H & _).
  discriminate H.
Qed.

Ltac quiet_solve :=
  unfold quiet; cbn; repeat split; auto; try congruence; in_cases;
  try (exfalso; eapply subscribe_calls_quiet; eassumption).

Lemma subscriber_toggle_quiet (w : world App) :
  quiet w (snd (_toggle_connection E w)).
Proof.
  destruct w as [a tr]. unfold _toggle_connection, _connect_async, _log_msg.
  destruct (mqtt E); mstep; [|quiet_solve].
  destruct (connected a) eqn:Hc; mrun.
  - destruct (client a) as [c|]; cbn; lib_cases E; quiet_solve.
  - destruct (port_var a); cbn; quiet_solve.
Qed.

Lemma subscriber_subscribe_quiet (w : world App) :
  quiet w (snd (_subscribe E w)).
Proof.
  destruct w as [a tr]. unfold _subscribe. mstep.
  destruct (truthy _); mstep; [|quiet_solve].
  case_bool_decide; mstep; [quiet_solve|].
  match goal with
  | |- context [_subscribe_to_topic E ?tag ?w0] =>
      destruct (subscribe_to_topic_run E tag w0) as [l Hl]; rewrite Hl
  end.
  quiet_solve.
Qed.

Lemma subscriber_unsubscribe_quiet (w : world App) :
  quiet w (snd (_unsubscribe E w)).
Proof.
  destruct w as [a tr]. unfold _unsubscribe, _log_msg. mstep.
  destruct (negb (truthy (unsubscribe_tag a)) || _); mstep; [quiet_solve|].
  assert (Hconn : forall a0 : App,
            connected (match first_line_of (unsubscribe_tag a) (sub_list a) 0
                       with Some i => Listbox_delete i a0 | None => a0 end)
            = connected a0)
    by (intros a0; destruct (first_line_of _ _ _); reflexivity).
  assert (Hclient : forall a0 : App,
            client (match first_line_of (unsubscribe_tag a) (sub_list a) 0
                    with Some i => Listbox_delete i a0 | None => a0 end)
            = client a0)
    by (intros a0; destruct (first_line_of _ _ _); reflexivity).
  cbn [sub_list set_subscribed]. rewrite Hconn, Hclient.
  cbn [connected client set_subscribed].
  destruct (connected a); mstep.
  2:{ destruct (first_line_of _ _ _); quiet_solve. }
  destruct (client a) as [c|] eqn:Hcl.
  2:{ rewrite bool_decide_false by (intros [? ?]; discriminate).
      destruct (first_line_of _ _ _); quiet_solve. }
  rewrite bool_decide_true by eauto. mrun. rewrite Hclient.
  cbn [client set_subscribed]. rewrite Hcl.
  lib_cases E; destruct (first_line_of _ _ _); quiet_solve.
Qed.

Lemma subscriber_worker_invariant (broker : str) (port : Z) (w : world App) :
  client_invariant w -> client_invariant (snd (worker E broker port w)).
Proof.
  destruct w as [a tr]. intros Hinv.
  unfold worker, status_put. mrun. cbn.
  lib_cases E; try (left; cbn; eauto; fail).
  apply (subscriber_quiet_invariant (World a tr)); [quiet_solve | exact Hinv].
Qed.

Lemma subscriber_on_connect_invariant (rc : Z) (c : nat) (w : world App) :
  In (Call c set_on_connect) (trace w) ->
  client_invariant w -> client_invariant (snd (_on_connect rc w)).
Proof.
  intros Hin [Hi|(_ & _ & Hi)]; [|destruct (Hi c Hin)].
  left. unfold _on_connect. destruct (rc =? 0)%Z; exact Hi.
Qed.

Lemma subscriber_on_disconnect_quiet (rc : Z) (w : world App) :
  quiet w (snd (_on_disconnect rc w)).
Proof. destruct w as [a tr]. unfold _on_disconnect. quiet_solve. Qed.

Lemma subscriber_on_message_quiet (message : MQTTMessage) (w : world App) :
  quiet w (snd (_on_message message w)).
Proof.
  destruct (on_message_run message w) as (text & _ & Hrun).
  rewrite Hrun. destruct w as [a tr].
  destruct (Codec.utf8_decode _ _ (topic message)); quiet_solve.
Qed.

Lemma subscriber_round_invariant (w : world App) (x : str * str)
    (q : list (str * str)) :
  status_queue (app w) = x :: q ->
  client_invariant w ->
  client_invariant (snd (handle_status E x (snd (status_get_nowait w)))).
Proof.
  destruct w as [a tr]. cbn [app]. intros Hq Hinv.
  unfold status_get_nowait. cbn [app trace]. rewrite Hq. cbn [snd].
  destruct (subscriber_handle_run E x (World (set_status_queue q a) tr))
    as (a' & delta & Hrun & Hq' & _ & Hcl & _ & Hconn & Hother).
  rewrite Hrun. cbn [snd]. cbn in Hq', Hcl.
  destruct x as [kind msg]. cbn [fst] in Hconn, Hother.
  destruct (decide (kind = lit "connected")) as [Hk|Hk].
  - subst kind. destruct Hinv as [Hi|(_ & Hi & _)].
    + left. cbn in Hi |- *. now rewrite Hcl.
    + destruct (Hi msg). cbn [app]. rewrite Hq. now left.
  - destruct (Hother Hk) as [-> Hc].
    apply (subscriber_quiet_invariant (World a tr)); [|exact Hinv].
    unfold quiet; cbn. rewrite Hq', Hq, app_nil_r.
    repeat split; auto. intros msg0 H. now right.
Qed.

Lemma subscriber_drain_invariant (w : world App) (fuel : nat) :
  (length (status_queue (app w)) < fuel)%nat ->
  client_invariant w -> client_invariant (snd (_drain_status_queue E fuel w)).
Proof.
  intros Hlen Hinv.
  destruct (subscriber_drain E w fuel Hlen) as [Hrun _]. rewrite Hrun.
  cbn [snd].
  set (w' := rounds status_get_nowait (handle_status E)
               (status_queue (app w)) w).
  assert (Hw' : client_invariant w').
  { apply (rounds_queue_invariant (fun w => status_queue (app w))
             status_get_nowait (handle_status E)
             subscriber_get_spec (subscriber_handle_spec E) client_invariant);
      [apply subscriber_round_invariant | reflexivity | exact Hinv]. }
  apply (subscriber_quiet_invariant w'); [|exact Hw'].
  unfold quiet; cbn; repeat split; auto; in_cases.
Qed.

Lemma message_drain_invariant (w : world App) (fuel : nat) :
  (length (msg_queue (app w)) < fuel)%nat ->
  client_invariant w ->
  client_invariant (snd (_drain_message_queue E fuel w)).
Proof.
  intros Hlen Hinv.
  destruct (message_drain E w fuel Hlen) as [Hrun _]. rewrite Hrun.
  cbn [snd].
  set (w' := rounds msg_get_nowait (_log_msg E) (msg_queue (app w)) w).
  assert (Hw' : client_invariant w').
  { apply rounds_invariant; [|exact Hinv].
    intros line [a tr] Hs.
    apply (subscriber_quiet_invariant (World a tr)); [|exact Hs].
    unfold msg_get_nowait, _log_msg. cbn [app trace].
    destruct (msg_queue a); quiet_solve. }
  apply (subscriber_quiet_invariant w'); [|exact Hw'].
  unfold quiet; cbn; repeat split; auto; in_cases.
Qed.

Lemma subscriber_reachable_invariant (w : world App) :
  reachable E w -> client_invariant w.
Proof.
  induction 1 as [|w b p h sel _ IH _|w _ IH|w _ IH|w _ IH
                  |w broker port _ IH Hin|w c rc _ IH Hin|w c rc _ IH Hin
                  |w c message _ IH Hin|w fuel _ IH Hlen|w fuel _ IH Hlen].
  - right. repeat split; [intros msg [] | intros c [H|[H|[]]]; discriminate H].
  - apply (subscriber_quiet_invariant w); [|exact IH].
    unfold quiet; cbn; auto.
  - exact (subscriber_quiet_invariant _ _ (subscriber_toggle_quiet w) IH).
  - exact (subscriber_quiet_invariant _ _ (subscriber_subscribe_quiet w) IH).
  - exact (subscriber_quiet_invariant _ _ (subscriber_unsubscribe_quiet w) IH).
  - now apply subscriber_worker_invariant.
  - now apply (subscriber_on_connect_invariant rc c).
  - exact (subscriber_quiet_invariant _ _
             (subscriber_on_disconnect_quiet rc w) IH).
  - exact (subscriber_quiet_invariant _ _
             (subscriber_on_message_quiet message w) IH).
  - now apply subscriber_drain_invariant.
  - now apply message_drain_invariant.
Qed.

End SubscriberReach.

(** * Re-subscription *)

Section Resubscribe.
Import Subscriber.
Variable E : Env.

(** The iteration takes every tag of the set once. *)
Lemma resubscribe_order_perm (a : App) :
  resubscribe_order E a ≡ₚ elements (subscribed a).
Proof. apply set_iter_perm. Qed.

Lemma resubscribe_order_In (a : App) (tag : str) :
  In tag (resubscribe_order E a) <-> tag ∈ subscribed a.
Proof.
  rewrite <- list_elem_of_In, (resubscribe_order_perm a).
  apply elem_of_elements.
Qed.

(** Handling a "connected" event subscribes to every tag of the set. *)
Lemma handle_connected_run (w : world App) (msg : str) (c : nat) :
  client (app w) = Some c ->
  exists a',
    handle_status E (lit "connected", msg) w
    = (Ok tt,
       World a'
         (trace w
          ++ List.map (fun tag => Call c (subscribe (lit "twitter/" ++ tag) 0))
               (resubscribe_order E (app w))))
    /\ connected a' = true
    /\ client a' = Some c
    /\ subscribed a' = subscribed (app w).
Proof.
  intros Hcl.
  destruct (subscriber_handle_run E (lit "connected", msg) w)
    as (a' & delta & Hrun & _ & _ & Hcl' & Hs & Hconn & _).
  destruct (Hconn eq_refl) as [Hc Hd]. rewrite Hcl in Hd. subst delta.
  exists a'. repeat split; auto. congruence.
Qed.

(** The rounds of a drain keep the client object and the subscription set,
    and only extend the trace; a "connected" event among the handled ones
    leaves a subscribe call for every tag. *)
Lemma rounds_resubscribe (c : nat) (items : list (str * str)) :
  forall w : world App,
    status_queue (app w) = items ->
    client (app w) = Some c ->
    client (app (rounds status_get_nowait (handle_status E) items w)) = Some c
    /\ subscribed (app (rounds status_get_nowait (handle_status E) items w))
       = subscribed (app w)
    /\ exists delta,
         trace (rounds status_get_nowait (handle_status E) items w)
         = trace w ++ delta
         /\ ((exists msg, In (lit "connected", msg) items) ->
             forall tag, tag ∈ subscribed (app w) ->
               In (Call c (subscribe (lit "twitter/" ++ tag) 0)) delta).
Proof.
  induction items as [|x q IH]; intros [a tr] Hq Hcl; cbn [app trace] in *.
  - cbn. repeat split; auto. exists []. rewrite app_nil_r.
    split; [reflexivity|]. intros [msg []].
  - destruct (subscriber_handle_run E x (World (set_status_queue q a) tr))
      as (a' & d1 & Hrun & Hq' & _ & Hcl' & Hs & Hconn & _).
    assert (Hstep : snd (handle_status E x
                           (snd (status_get_nowait (World a tr))))
                    = World a' (tr ++ d1)).
    { unfold status_get_nowait. cbn [app trace]. rewrite Hq. cbn [snd].
      now rewrite Hrun. }
    rewrite rounds_cons, Hstep. cbn in Hq', Hcl', Hs.
    destruct (IH (World a' (tr ++ d1)) Hq' ltac:(cbn; congruence))
      as (IHc & IHs & d2 & IHt & IHin).
    cbn [app trace] in *.
    split; [exact IHc|]. split; [congruence|].
    exists (d1 ++ d2). split; [now rewrite IHt, app_assoc|].
    intros [msg [Hx|Hin]] tag Htag; apply in_or_app.
    + left. subst x. destruct (Hconn eq_refl) as [_ Hd].
      cbn in Hd. rewrite Hcl in Hd. subst d1.
      apply in_map_iff. exists tag. split; [reflexivity|].
      apply resubscribe_order_In, Htag.
    + right. apply IHin; [eauto|]. now rewrite Hs.
Qed.

End Resubscribe.

(** C5. Every processing of a "connected" event by the drain re-applies
    the whole subscription set: with a client object [c], handling the
    event sets the [connected] flag and issues one subscribe call on
    "twitter/"+tag for each tag of a list that holds every tag of the set
    once (in the order in which Python happens to iterate the set) and
    nothing else, the set itself unchanged.  In every reachable world with
    a "connected" event queued the client object exists, and the drain
    leaves a subscribe call on "twitter/"+tag for every tag of the set,
    with no user action.  In the sample run, with the set {"iot","news"},
    the drain after the reconnection makes two calls, one that subscribes
    to twitter/iot and one that subscribes to twitter/news. *)
Theorem resubscribe_on_connected (E : Env) :
  (forall (w : world Subscriber.App) (msg : str) (c : nat),
     Subscriber.client (app w) = Some c ->
     exists a' tags,
       tags ≡ₚ elements (Subscriber.subscribed (app w))
       /\ Subscriber.handle_status E (lit "connected", msg) w
          = (Ok tt,
             World a'
               (trace w
                ++ List.map
                     (fun tag => Call c (subscribe (lit "twitter/" ++ tag) 0))
                     tags))
       /\ Subscriber.connected a' = true
       /\ Subscriber.subscribed a' = Subscriber.subscribed (app w))
  /\ (forall (w : world Subscriber.App) (msg : str) (fuel : nat),
        Subscriber.reachable E w ->
        In (lit "connected", msg) (Subscriber.status_queue (app w)) ->
        (length (Subscriber.status_queue (app w)) < fuel)%nat ->
        exists c,
          Subscriber.client (app w) = Some c
          /\ fst (Subscriber._drain_status_queue E fuel w) = Ok tt
          /\ Subscriber.subscribed
               (app (snd (Subscriber._drain_status_queue E fuel w)))
             = Subscriber.subscribed (app w)
          /\ forall tag,
               tag ∈ Subscriber.subscribed (app w) ->
               In (Call c (subscribe (lit "twitter/" ++ tag) 0))
                  (added w (snd (Subscriber._drain_status_queue E fuel w))))
  /\ (elements (Subscriber.subscribed (app scenario_reconnecting))
      ≡ₚ [lit "iot"; lit "news"]
      /\ List.filter is_Call (added scenario_reconnecting scenario_reconnected)
         ≡ₚ [Call 0 (subscribe (lit "twitter/iot") 0);
             Call 0 (subscribe (lit "twitter/news") 0)]).
Proof.
  split; [|split].
  - intros w msg c Hcl.
    destruct (handle_connected_run E w msg c Hcl) as (a' & H1 & H2 & _ & H3).
    exists a', (Subscriber.resubscribe_order E (app w)).
    split; [apply resubscribe_order_perm | auto].
  - intros w msg fuel Hreach Hin Hlen.
    destruct (subscriber_reachable_invariant E w Hreach)
      as [[c Hcl]|(_ & Hno & _)]; [|destruct (Hno msg Hin)].
    exists c. split; [exact Hcl|].
    destruct (subscriber_drain E w fuel Hlen) as [Hrun _]. rewrite Hrun.
    cbn [fst snd app].
    destruct (rounds_resubscribe E c (Subscriber.status_queue (app w)) w
                eq_refl Hcl) as (_ & Hs & delta & Ht & Hcalls).
    split; [reflexivity|]. split; [exact Hs|].
    intros tag Htag. unfold added. cbn [trace]. rewrite Ht.
    rewrite <- app_assoc, drop_app_length.
    apply in_or_app. left. apply Hcalls; eauto.
  - split.
    + assert (H : elements (Subscriber.subscribed (app scenario_reconnecting))
                  = [lit "iot"; lit "news"]) by (vm_compute; reflexivity).
      now rewrite H.
    + assert (H : List.filter is_Call
                    (added scenario_reconnecting scenario_reconnected)
                  = [Call 0 (subscribe (lit "twitter/iot") 0);
                     Call 0 (subscribe (lit "twitter/news") 0)])
        by (vm_compute; reflexivity).
      now rewrite H.
Qed.

(** The sample run: a reachable world with the "connected" event of the
    reconnection in its queue. *)
Lemma scenario_reconnecting_reachable :
  Subscriber.reachable sample_env scenario_reconnecting.
Proof.
  unfold scenario_reconnecting, scenario_connected, scenario_connecting,
    scenario_subscribed.
  cbv zeta.
  eapply (Subscriber.reach_on_connect _ _ 0%nat);
    [|vm_compute; tauto].
  apply Subscriber.reach_drain_status; [|vm_compute; lia].
  eapply (Subscriber.reach_on_disconnect _ _ 0%nat);
    [|vm_compute; tauto].
  apply Subscriber.reach_drain_status; [|vm_compute; lia].
  eapply (Subscriber.reach_on_connect _ _ 0%nat);
    [|vm_compute; tauto].
  eapply Subscriber.reach_worker; [|vm_compute; tauto].
  apply Subscriber.reach_toggle.
  apply Subscriber.reach_subscribe.
  apply Subscriber.reach_edit; [|discriminate].
  apply Subscriber.reach_subscribe.
  apply Subscriber.reach_edit; [|discriminate].
  apply Subscriber.reach_init.
Qed.

Lemma resubscribe_on_connected_witness :
  exists c,
    Subscriber.client (app scenario_reconnecting) = Some c
    /\ fst (Subscriber._drain_status_queue sample_env 2 scenario_reconnecting)
       = Ok tt
    /\ Subscriber.subscribed
         (app (snd (Subscriber._drain_status_queue sample_env 2
                      scenario_reconnecting)))
       = Subscriber.subscribed (app scenario_reconnecting)
    /\ forall tag,
         tag ∈ Subscriber.subscribed (app scenario_reconnecting) ->
         In (Call c (subscribe (lit "twitter/" ++ tag) 0))
            (added scenario_reconnecting
               (snd (Subscriber._drain_status_queue sample_env 2
                       scenario_reconnecting))).
Proof.
  apply (proj1 (proj2 (resubscribe_on_connected sample_env))
           scenario_reconnecting (lit "Connected to broker.") 2%nat).
  - exact scenario_reconnecting_reachable.
  - vm_compute. tauto.
  - vm_compute. lia.
Defined.

(** * The event bridge *)

(** C6. A drain, given more fuel than there are queued entries, returns
    normally, handles exactly the queued entries (all that were put since
    the previous drain, which left the queue empty), each once and in the
    order in which they were put, and leaves the queue empty; on an empty
    queue it handles nothing and leaves the application unchanged.  A put
    appends at the end of the queue.  This holds for the status queue of
    the publisher and for the status queue and the message queue of the
    subscriber; the drain of the message queue shows it in the feed, which
    gains one line per queued message, in the order of the queue. *)
Theorem drain_delivers_all (E : Env) :
  (forall (w : world Publisher.App) (fuel : nat),
     (length (Publisher.status_queue (app w)) < fuel)%nat ->
     Publisher._drain_status_queue E fuel w
     = (Ok tt,
        World
          (app (rounds Publisher.status_get_nowait (Publisher.handle_status E)
                  (Publisher.status_queue (app w)) w))
          (trace (rounds Publisher.status_get_nowait
                    (Publisher.handle_status E)
                    (Publisher.status_queue (app w)) w)
           ++ [After 150 drain_status_queue]))
     /\ Publisher.status_queue
          (app (snd (Publisher._drain_status_queue E fuel w))) = []
     /\ (Publisher.status_queue (app w) = [] ->
         Publisher._drain_status_queue E fuel w
         = (Ok tt, World (app w) (trace w ++ [After 150 drain_status_queue]))))
  /\ (forall (w : world Subscriber.App) (fuel : nat),
        (length (Subscriber.status_queue (app w)) < fuel)%nat ->
        Subscriber._drain_status_queue E fuel w
        = (Ok tt,
           World
             (app (rounds Subscriber.status_get_nowait
                     (Subscriber.handle_status E)
                     (Subscriber.status_queue (app w)) w))
             (trace (rounds Subscriber.status_get_nowait
                       (Subscriber.handle_status E)
                       (Subscriber.status_queue (app w)) w)
              ++ [After 150 drain_status_queue]))
        /\ Subscriber.status_queue
             (app (snd (Subscriber._drain_status_queue E fuel w))) = []
        /\ (Subscriber.status_queue (app w) = [] ->
            Subscriber._drain_status_queue E fuel w
            = (Ok tt,
               World (app w) (trace w ++ [After 150 drain_status_queue]))))
  /\ (forall (w : world Subscriber.App) (fuel : nat),
        (length (Subscriber.msg_queue (app w)) < fuel)%nat ->
        Subscriber._drain_message_queue E fuel w
        = (Ok tt,
           World
             (app (rounds Subscriber.msg_get_nowait (Subscriber._log_msg E)
                     (Subscriber.msg_queue (app w)) w))
             (trace (rounds Subscriber.msg_get_nowait (Subscriber._log_msg E)
                       (Subscriber.msg_queue (app w)) w)
              ++ [After 120 drain_message_queue]))
        /\ Subscriber.msg_queue
             (app (snd (Subscriber._drain_message_queue E fuel w))) = []
        /\ (Subscriber.msg_queue (app w) = [] ->
            Subscriber._drain_message_queue E fuel w
            = (Ok tt,
               World (app w) (trace w ++ [After 120 drain_message_queue]))))
  /\ (forall (w : world Publisher.App) (item : str * str),
        Publisher.status_queue (app (snd (Publisher.status_put item w)))
        = Publisher.status_queue (app w) ++ [item])
  /\ (forall (w : world Subscriber.App) (item : str * str),
        Subscriber.status_queue (app (snd (Subscriber.status_put item w)))
        = Subscriber.status_queue (app w) ++ [item])
  /\ (forall (w : world Subscriber.App) (line : str),
        Subscriber.msg_queue (app (snd (Subscriber.msg_put line w)))
        = Subscriber.msg_queue (app w) ++ [line])
  /\ (forall (w : world Subscriber.App) (fuel : nat),
        (length (Subscriber.msg_queue (app w)) < fuel)%nat ->
        Subscriber.msg_text
          (app (snd (Subscriber._drain_message_queue E fuel w)))
        = Subscriber.msg_text (app w)
          ++ imap (fun i line =>
                     strftime E (length (Subscriber.msg_text (app w)) + i)
                     ++ line ++ newline)
               (Subscriber.msg_queue (app w))).
Proof.
  split; [|split; [|split; [|repeat split]]].
  4:{ intros w fuel Hlen.
      destruct (message_drain E w fuel Hlen) as [Hrun _]. rewrite Hrun.
      cbn [snd app]. apply message_rounds_feed. }
  - intros w fuel Hlen.
    destruct (publisher_drain E w fuel Hlen) as [Hrun Hq].
    split; [exact Hrun|]. split; [now rewrite Hrun|].
    intros Hempty. rewrite Hrun, Hempty. reflexivity.
  - intros w fuel Hlen.
    destruct (subscriber_drain E w fuel Hlen) as [Hrun Hq].
    split; [exact Hrun|]. split; [now rewrite Hrun|].
    intros Hempty. rewrite Hrun, Hempty. reflexivity.
  - intros w fuel Hlen.
    destruct (message_drain E w fuel Hlen) as [Hrun Hq].
    split; [exact Hrun|]. split; [now rewrite Hrun|].
    intros Hempty. rewrite Hrun, Hempty. reflexivity.
Qed.

(** The drain of the sample run that handles the "connected" event of the
    reconnection. *)
Lemma drain_delivers_all_witness :
  Subscriber._drain_status_queue sample_env 2 scenario_reconnecting
  = (Ok tt,
     World
       (app (rounds Subscriber.status_get_nowait
               (Subscriber.handle_status sample_env)
               (Subscriber.status_queue (app scenario_reconnecting))
               scenario_reconnecting))
       (trace (rounds Subscriber.status_get_nowait
                 (Subscriber.handle_status sample_env)
                 (Subscriber.status_queue (app scenario_reconnecting))
                 scenario_reconnecting)
        ++ [After 150 drain_status_queue]))
  /\ Subscriber.status_queue
       (app (snd (Subscriber._drain_status_queue sample_env 2
                    scenario_reconnecting))) = []
  /\ (Subscriber.status_queue (app scenario_reconnecting) = [] ->
      Subscriber._drain_status_queue sample_env 2 scenario_reconnecting
      = (Ok tt,
         World (app scenario_reconnecting)
           (trace scenario_reconnecting ++ [After 150 drain_status_queue]))).
Proof.
  apply (proj1 (proj2 (drain_delivers_all sample_env))
           scenario_reconnecting 2%nat).
  vm_compute. lia.
Defined.

(** * The publish guards *)

(** C4. [_publish] invoked while not connected, or with a hashtag that
    normalises to the empty string, or with an empty trimmed tweet body,
    ends with the notice of the corresponding error, calls no operation of
    the broker client and leaves the application state unchanged; the
    checks are made in this order.  When connected, with a non-empty
    normalised hashtag and a non-empty body, exactly one publish call is
    issued.  Connected means that the [connected] flag is set and a client
    object exists; in every reachable world the flag alone says so. *)
Theorem publish_guards (E : Env) (w : world Publisher.App) :
  let a := app w in
  let hashtag := sanitize_hashtag (Publisher.hashtag_var a) in
  let text := strip (Publisher.tweet_text a ++ newline) in
  let not_connected :=
    Publisher.connected a = false \/ Publisher.client a = None in
  (not_connected \/ hashtag = [] \/ text = [] ->
   exists e, Publisher._publish E w = (Ok tt, World a (trace w ++ [notice e]))
             /\ match e with
                | NotConnected => not_connected
                | InvalidTopic => hashtag = []
                | EmptyPayload => text = []
                end)
  /\ (not_connected ->
      Publisher._publish E w
      = (Ok tt, World a (trace w ++ [notice NotConnected])))
  /\ (~ not_connected -> hashtag = [] ->
      Publisher._publish E w
      = (Ok tt, World a (trace w ++ [notice InvalidTopic])))
  /\ (~ not_connected -> hashtag <> [] -> text = [] ->
      Publisher._publish E w
      = (Ok tt, World a (trace w ++ [notice EmptyPayload])))
  /\ (~ not_connected -> hashtag <> [] -> text <> [] ->
      exists a' c topic payload,
        Publisher._publish E w
        = (Ok tt, World a' (trace w ++ [Call c (publish topic payload 0 false)]))
        /\ Publisher.client a = Some c)
  /\ (Publisher.reachable E w ->
      (not_connected <-> Publisher.connected a = false)).
Proof.
  pose proof (publish_run E w) as H. cbv zeta in H |- *.
  unfold Publisher.Text_get in H.
  assert (Hreach : Publisher.reachable E w ->
            (Publisher.connected (app w) = false
             \/ Publisher.client (app w) = None
             <-> Publisher.connected (app w) = false)).
  { intros Hr. split; [|tauto]. intros [Hc|Hcl]; [exact Hc|].
    destruct (Publisher.connected (app w)) eqn:Hc; [|reflexivity].
    destruct (publisher_connected_client E w Hr Hc) as [c Hc'].
    congruence. }
  destruct H as [[Hn Hr]|[(Hc&[c Hcl]&Hh&Hr)|
    [(Hc&[c Hcl]&Hh&Ht&Hr)|(c&a'&Hc&Hcl&Hh&Ht&Hr)]]].
  - repeat split; try (intros; tauto).
    intros _. exists NotConnected. split; assumption.
  - assert (Hnc : ~ (Publisher.connected (app w) = false
                     \/ Publisher.client (app w) = None))
      by (intros [H|H]; congruence).
    repeat split; try (intros; tauto); try (intros; exfalso; tauto).
    intros _. exists InvalidTopic. split; assumption.
  - assert (Hnc : ~ (Publisher.connected (app w) = false
                     \/ Publisher.client (app w) = None))
      by (intros [H|H]; congruence).
    repeat split; try (intros; tauto); try (intros; exfalso; tauto).
    intros _. exists EmptyPayload. split; assumption.
  - assert (Hnc : ~ (Publisher.connected (app w) = false
                     \/ Publisher.client (app w) = None))
      by (intros [H|H]; congruence).
    repeat split; try (intros; tauto); try (intros; exfalso; tauto).
    intros _ _ _. eexists a', c, _, _. split; [exact Hr | exact Hcl].
Qed.

(** The sample publisher is connected, its hashtag normalises to "iot" and
    its tweet body is not empty: one publish call. *)
Lemma publish_guards_witness :
  exists a' c topic payload,
    Publisher._publish sample_env sample_publisher
    = (Ok tt,
       World a'
         (trace sample_publisher ++ [Call c (publish topic payload 0 false)]))
    /\ Publisher.client (app sample_publisher) = Some c.
Proof.
  apply (proj1 (proj2 (proj2 (proj2 (proj2
           (publish_guards sample_env sample_publisher)))))).
  - intros [H|H]; discriminate H.
  - vm_compute. discriminate.
  - vm_compute. discriminate.
Defined.

(** * Further properties of the normalisation *)

Section SanitizeMore.
Import TopicNaming.

Lemma collapse_ws_head_space (c : N) (t : str) :
  isspace c = true -> keep_tag_chars (collapse_ws (c :: t)) <> [].
Proof.
  revert c. induction t as [|c' t IH]; intros c Hc.
  - rewrite collapse_ws_cons, Hc. discriminate.
  - rewrite collapse_ws_cons, Hc. destruct (isspace c') eqn:Hc'.
    + now apply IH.
    + discriminate.
Qed.

(** After the collapse and the filter nothing is left exactly when the text
    holds neither whitespace nor a character of the class. *)
Lemma keep_collapse_nil (t : str) :
  keep_tag_chars (collapse_ws t) = []
  <-> List.Forall (fun c => isspace c = false /\ Re.tag_char c = false) t.
Proof.
  induction t as [|c t IH].
  - split; [constructor | reflexivity].
  - destruct (isspace c) eqn:Hc.
    + split.
      * intros H. now apply collapse_ws_head_space in H.
      * intros H. inversion H as [|? ? [Hs _] _]. congruence.
    + rewrite collapse_ws_cons, Hc. unfold keep_tag_chars in *.
      cbn [List.filter]. destruct (Re.tag_char c) eqn:Ht.
      * split; [discriminate|]. intros H. inversion H as [|? ? [_ Hx] _].
        congruence.
      * rewrite IH. split.
        -- intros H. constructor; [split; assumption | exact H].
        -- intros H. now inversion H.
Qed.

End SanitizeMore.

(** X1. The normal forms of [sanitize_hashtag] are exactly the strings over
    the class [A-Za-z0-9_-]: a string is left as it is if and only if all
    its characters are in the class. *)
Theorem sanitize_hashtag_fixed_points (s : str) :
  sanitize_hashtag s = s
  <-> List.Forall
        (fun c => (65 <= c <= 90) \/ (97 <= c <= 122) \/ (48 <= c <= 57)
                  \/ c = 95 \/ c = 45)
        s.
Proof.
  split.
  - intros H. rewrite <- H.
    eapply List.Forall_impl; [|apply sanitize_hashtag_tag_chars].
    intros c Hc. now apply tag_char_range.
  - intros H. rewrite sanitize_hashtag_normalize.
    apply normalize_tag_chars.
    eapply List.Forall_impl; [|exact H].
    intros c Hc. unfold Re.tag_char.
    change (ord "A") with 65; change (ord "Z") with 90;
    change (ord "a") with 97; change (ord "z") with 122;
    change (ord "0") with 48; change (ord "9") with 57;
    change (ord "_") with 95; change (ord "-") with 45.
    rewrite !orb_true_iff, !andb_true_iff, !N.leb_le, !N.eqb_eq.
    cbv beta in Hc. lia.
Qed.

(** X2. [sanitize_hashtag] gives the empty string, the case both programs
    reject as an invalid hashtag, exactly when the trimmed text behind its
    one leading marker holds neither whitespace nor a character of the
    class; any whitespace left inside becomes an underscore and makes the
    tag valid. *)
Theorem sanitize_hashtag_empty (s : str) :
  sanitize_hashtag s = []
  <-> List.Forall
        (fun c => isspace c = false /\ Re.tag_char c = false)
        (if startswith (lit "#") (strip s) then skipn 1 (strip s)
         else strip s).
Proof.
  rewrite sanitize_hashtag_normalize. unfold TopicNaming.normalize.
  rewrite keep_collapse_nil, startswith_marker, strip_trim. reflexivity.
Qed.

(** * Further properties of the decoder *)

Section DecodeMore.
Import Codec.

Lemma utf8_decode_ascii (h : errors) (bs : list Byte.byte) :
  List.Forall (fun b => byte_val b < 0x80) bs ->
  forall pos, utf8_decode h pos bs = inr (List.map byte_val bs).
Proof.
  induction 1 as [|b bs Hb _ IH]; intros pos; [reflexivity|].
  cbn [utf8_decode List.map].
  apply N.ltb_lt in Hb. rewrite Hb, IH. reflexivity.
Qed.

Lemma utf8_decode_replace_length (bs : list Byte.byte) :
  forall pos s,
    utf8_decode replace pos bs = inr s -> (length s <= length bs)%nat.
Proof.
  remember (length bs) as n eqn:Hn.
  assert (Hlen : (length bs <= n)%nat) by lia.
  rewrite Hn. clear Hn.
  revert bs Hlen. induction n as [|n IH]; intros bs Hlen pos s.
  - destruct bs; [|simpl in Hlen; lia]. simpl. intros [= <-]. simpl. lia.
  - destruct bs as [|b1 r1]; [simpl; intros [= <-]; simpl; lia|].
    cbn [utf8_decode].
    repeat match goal with
           | |- context [if ?b then _ else _] => destruct b
           | |- context [match ?l with [] => _ | _ :: _ => _ end] =>
               destruct l
           end;
      unfold emit_char, on_error;
      try (intros [= <-]; simpl; lia);
      match goal with
      | |- context [utf8_decode replace ?p ?l] =>
          destruct (utf8_decode replace p l) as [e|t] eqn:Hr;
          [discriminate|];
          pose proof (IH l ltac:(simpl in Hlen |- *; lia) p t Hr);
          intros [= <-]; simpl in *; lia
      end.
Qed.

Lemma utf8_decode_replace_marks (bs : list Byte.byte) :
  forall pos e,
    utf8_decode strict pos bs = inl e ->
    exists s, utf8_decode replace pos bs = inr s
              /\ In REPLACEMENT_CHARACTER s.
Proof.
  remember (length bs) as n eqn:Hn.
  assert (Hlen : (length bs <= n)%nat) by lia. clear Hn.
  revert bs Hlen. induction n as [|n IH]; intros bs Hlen pos e.
  - destruct bs; [simpl; discriminate | simpl in Hlen; lia].
  - destruct bs as [|b1 r1]; [simpl; discriminate|].
    cbn [utf8_decode].
    repeat match goal with
           | |- context [if ?b then _ else _] => destruct b
           | |- context [match ?l with [] => _ | _ :: _ => _ end] =>
               destruct l
           end;
      unfold emit_char, on_error;
      try (intros _; eexists; split; [reflexivity | now left]);
      try match goal with
          | |- inl _ = inl _ -> exists s,
                 match utf8_decode replace ?p ?l with _ => _ end = _ /\ _ =>
              intros _;
              destruct (utf8_decode_replace_total l p) as [t Ht];
              rewrite Ht; eexists; split; [reflexivity | now left]
          end;
      match goal with
      | |- context [utf8_decode strict ?p ?l] =>
          destruct (utf8_decode strict p l) as [e'|t] eqn:Hs;
          [|discriminate];
          destruct (IH l ltac:(simpl in Hlen |- *; lia) p e' Hs)
            as (s' & Hs' & Hin);
          rewrite Hs'; intros _; eexists; split; [reflexivity | now right]
      end.
Qed.

End DecodeMore.

(** X3. A payload of ASCII bytes is shown verbatim: for a message whose
    topic bytes are valid UTF-8, [_on_message] returns normally and queues
    "[<topic>] " followed by the characters of the payload, byte for
    character. *)
Theorem on_message_ascii (message : Subscriber.MQTTMessage)
    (w : world Subscriber.App) (topic : str) :
  Codec.utf8_decode Codec.strict 0 (Subscriber.topic message) = inr topic ->
  List.Forall (fun b => Byte.to_N b < 0x80) (Subscriber.payload message) ->
  Subscriber._on_message message w
  = (Ok tt,
     World (Subscriber.set_msg_queue
              (Subscriber.msg_queue (app w)
               ++ [lit "[" ++ topic ++ lit "] "
                   ++ List.map Byte.to_N (Subscriber.payload message)])
              (app w))
       (trace w)).
Proof.
  intros Htopic Hascii.
  destruct (on_message_run message w) as (text & Htext & Hrun).
  rewrite (utf8_decode_ascii Codec.replace _ Hascii 0) in Htext.
  injection Htext as <-. rewrite Hrun, Htopic. reflexivity.
Qed.

(** The message "alice: hello world" on topic twitter/iot. *)
Lemma on_message_ascii_witness :
  Codec.utf8_decode Codec.strict 0 (Subscriber.topic sample_message)
  = inr (lit "twitter/iot")
  /\ Subscriber._on_message sample_message Subscriber.init
     = (Ok tt,
        World (Subscriber.set_msg_queue
                 (Subscriber.msg_queue (app Subscriber.init)
                  ++ [lit "[" ++ lit "twitter/iot" ++ lit "] "
                      ++ List.map Byte.to_N
                           (Subscriber.payload sample_message)])
                 (app Subscriber.init))
          (trace Subscriber.init)).
Proof.
  split; [vm_compute; reflexivity|].
  apply (on_message_ascii sample_message Subscriber.init (lit "twitter/iot")).
  - vm_compute. reflexivity.
  - vm_compute. repeat constructor.
Defined.

(** X4. Decoding with the [replace] handler fails on no payload and never
    lengthens: it gives a text of at most one character per payload byte.
    And a payload that the [strict] handler rejects is visibly marked: its
    text holds at least one U+FFFD. *)
Theorem utf8_decode_replace_bounds (bs : list Byte.byte) :
  exists s,
    Codec.utf8_decode Codec.replace 0 bs = inr s
    /\ (length s <= length bs)%nat
    /\ (forall e, Codec.utf8_decode Codec.strict 0 bs = inl e ->
                  In 0xFFFD s).
Proof.
  destruct (utf8_decode_replace_total bs 0) as [s Hs].
  exists s. split; [exact Hs|]. split.
  - now apply (utf8_decode_replace_length bs 0).
  - intros e He.
    destruct (utf8_decode_replace_marks bs 0 e He) as (s' & Hs' & Hin).
    rewrite Hs in Hs'. injection Hs' as <-. exact Hin.
Qed.

(** * Further properties of the publisher's actions *)

(** X5. A publish that reaches the client clears the tweet box exactly
    when the library returns code 0; when it returns another code or raises,
    the draft stays in the box.  Either way [_publish] returns normally and
    writes one log line. *)
Theorem publish_clears_on_success (E : Env) (w : world Publisher.App)
    (c : nat) :
  Publisher.connected (app w) = true ->
  Publisher.client (app w) = Some c ->
  sanitize_hashtag (Publisher.hashtag_var (app w)) <> [] ->
  strip (Publisher.tweet_text (app w) ++ newline) <> [] ->
  exists line,
    fst (Publisher._publish E w) = Ok tt
    /\ app (snd (Publisher._publish E w))
       = match
           lib E (trace w) c
             (publish
                (lit "twitter/"
                 ++ sanitize_hashtag (Publisher.hashtag_var (app w)))
                (or_else (strip (Publisher.username_var (app w)))
                   (lit "anonymous")
                 ++ lit ": "
                 ++ strip (Publisher.tweet_text (app w) ++ newline))
                0 false)
         with
         | Returns 0%Z =>
             Publisher.set_tweet_text (lit "")
               (Publisher.set_log_text
                  (Publisher.log_text (app w) ++ [line]) (app w))
         | _ =>
             Publisher.set_log_text
               (Publisher.log_text (app w) ++ [line]) (app w)
         end.
Proof.
  destruct w as [a tr]. cbn [app trace]. intros Hc Hcl Hh Ht.
  apply truthy_true in Hh, Ht.
  match goal with
  | |- context [lib E tr c ?op] => destruct (lib E tr c op) as [rc|text] eqn:Hans
  end;
    unfold Publisher._publish, Publisher._log, Publisher.Text_get; mstep;
    rewrite Hc, Hcl; rewrite bool_decide_true by eauto; mstep;
    rewrite Hh, Ht; mrun; rewrite Hcl;
    change Publisher.TOPIC_PREFIX with (lit "twitter/");
    cbn [app trace]; rewrite Hans.
  - destruct rc; cbn; eexists; split; reflexivity.
  - cbn. eexists; split; reflexivity.
Qed.

(** The sample publisher in the sample environment: the library returns
    code 0 and the box is cleared. *)
Lemma publish_clears_on_success_witness :
  exists line,
    fst (Publisher._publish sample_env sample_publisher) = Ok tt
    /\ app (snd (Publisher._publish sample_env sample_publisher))
       = match
           lib sample_env (trace sample_publisher) 0%nat
             (publish
                (lit "twitter/"
                 ++ sanitize_hashtag
                      (Publisher.hashtag_var (app sample_publisher)))
                (or_else (strip (Publisher.username_var (app sample_publisher)))
                   (lit "anonymous")
                 ++ lit ": "
                 ++ strip (Publisher.tweet_text (app sample_publisher)
                           ++ newline))
                0 false)
         with
         | Returns 0%Z =>
             Publisher.set_tweet_text (lit "")
               (Publisher.set_log_text
                  (Publisher.log_text (app sample_publisher) ++ [line])
                  (app sample_publisher))
         | _ =>
             Publisher.set_log_text
               (Publisher.log_text (app sample_publisher) ++ [line])
               (app sample_publisher)
         end.
Proof.
  apply (publish_clears_on_success sample_env sample_publisher 0%nat).
  - reflexivity.
  - reflexivity.
  - vm_compute. discriminate.
  - vm_compute. discriminate.
Defined.

(** * Further properties of the connection toggle *)

(** X6. Pressing the button while connected always disconnects locally:
    whatever [client.disconnect()] does (it may raise, and there may even be
    no client object), the call returns normally with the [connected] flag
    cleared, the button reading "Connect" and the status "Disconnected"; at
    most the one disconnect call reaches the library and no thread is
    started.  This holds in both programs. *)
Theorem toggle_disconnects (E : Env) :
  mqtt E = true ->
  (forall w : world Publisher.App,
     Publisher.connected (app w) = true ->
     exists a',
       Publisher._toggle_connection E w
       = (Ok tt,
          World a'
            (trace w
             ++ match Publisher.client (app w) with
                | Some c => [Call c disconnect]
                | None => []
                end))
       /\ Publisher.connected a' = false
       /\ Publisher.connect_btn a' = lit "Connect"
       /\ Publisher.status_lbl a' = (lit "Status: Disconnected", lit "red")
       /\ Publisher.client a' = Publisher.client (app w)
       /\ Publisher.status_queue a' = Publisher.status_queue (app w))
  /\ (forall w : world Subscriber.App,
        Subscriber.connected (app w) = true ->
        exists a',
          Subscriber._toggle_connection E w
          = (Ok tt,
             World a'
               (trace w
                ++ match Subscriber.client (app w) with
                   | Some c => [Call c disconnect]
                   | None => []
                   end))
          /\ Subscriber.connected a' = false
          /\ Subscriber.connect_btn a' = lit "Connect"
          /\ Subscriber.status_lbl a' = (lit "Status: Disconnected", lit "red")
          /\ Subscriber.client a' = Subscriber.client (app w)
          /\ Subscriber.subscribed a' = Subscriber.subscribed (app w)).
Proof.
  intros Hm. split.
  - intros [a tr] Hc. cbn [app trace] in *.
    unfold Publisher._toggle_connection, Publisher._log.
    rewrite Hm. mstep. rewrite Hc. mrun.
    destruct (Publisher.client a) as [c|] eqn:Hcl; cbn.
    + destruct (lib E tr c disconnect); cbn; eexists;
        (split; [reflexivity|]); cbn; rewrite ?Hcl; repeat split; auto.
    + rewrite app_nil_r. eexists. split; [reflexivity|].
      cbn. rewrite ?Hcl. repeat split; auto.
  - intros [a tr] Hc. cbn [app trace] in *.
    unfold Subscriber._toggle_connection, Subscriber._log_msg.
    rewrite Hm. mstep. rewrite Hc. mrun.
    destruct (Subscriber.client a) as [c|] eqn:Hcl; cbn.
    + destruct (lib E tr c disconnect); cbn; eexists;
        (split; [reflexivity|]); cbn; rewrite ?Hcl; repeat split; auto.
    + rewrite app_nil_r. eexists. split; [reflexivity|].
      cbn. rewrite ?Hcl. repeat split; auto.
Qed.

Lemma toggle_disconnects_witness :
  exists a',
    Publisher._toggle_connection sample_env sample_publisher
    = (Ok tt,
       World a'
         (trace sample_publisher
          ++ match Publisher.client (app sample_publisher) with
             | Some c => [Call c disconnect]
             | None => []
             end))
    /\ Publisher.connected a' = false
    /\ Publisher.connect_btn a' = lit "Connect"
    /\ Publisher.status_lbl a' = (lit "Status: Disconnected", lit "red")
    /\ Publisher.client a' = Publisher.client (app sample_publisher)
    /\ Publisher.status_queue a'
       = Publisher.status_queue (app sample_publisher).
Proof.
  apply (proj1 (toggle_disconnects sample_env eq_refl) sample_publisher).
  reflexivity.
Defined.

(** X7. A call to connect with a port field that holds no number fails
    before anything happens: [TclError] leaves the button handler, nothing
    is logged, no thread is started and the world is as before.  A port
    field that reads 0 stands for the default port 1883.  This holds in
    both programs. *)
Theorem toggle_port_field (E : Env) :
  mqtt E = true ->
  (forall w : world Publisher.App,
     Publisher.connected (app w) = false ->
     Publisher.port_var (app w) = None ->
     Publisher._toggle_connection E w = (Raise TclError, w))
  /\ (forall w : world Subscriber.App,
        Subscriber.connected (app w) = false ->
        Subscriber.port_var (app w) = None ->
        Subscriber._toggle_connection E w = (Raise TclError, w))
  /\ (forall w : world Publisher.App,
        Publisher.connected (app w) = false ->
        Publisher.port_var (app w) = Some 0%Z ->
        added w (snd (Publisher._toggle_connection E w))
        = [ThreadStart (strip (Publisher.broker_var (app w))) 1883])
  /\ (forall w : world Subscriber.App,
        Subscriber.connected (app w) = false ->
        Subscriber.port_var (app w) = Some 0%Z ->
        added w (snd (Subscriber._toggle_connection E w))
        = [ThreadStart (strip (Subscriber.broker_var (app w))) 1883]).
Proof.
  intros Hm. repeat split.
  - intros [a tr] Hc Hp. cbn [app trace] in *.
    unfold Publisher._toggle_connection. rewrite Hm. mstep.
    rewrite Hc. mstep. rewrite Hp. reflexivity.
  - intros [a tr] Hc Hp. cbn [app trace] in *.
    unfold Subscriber._toggle_connection. rewrite Hm. mstep.
    rewrite Hc. mstep. rewrite Hp. reflexivity.
  - intros w Hc Hp.
    destruct (publisher_toggle_disconnected E Hm w 0%Z Hc Hp) as (a' & Hr & _).
    rewrite Hr. cbn [snd]. now rewrite added_app.
  - intros w Hc Hp.
    destruct (subscriber_toggle_disconnected E Hm w 0%Z Hc Hp) as (a' & Hr & _).
    rewrite Hr. cbn [snd]. now rewrite added_app.
Qed.

Lemma toggle_port_field_witness :
  Publisher._toggle_connection sample_env sample_unreadable_port
  = (Raise TclError, sample_unreadable_port).
Proof.
  apply (proj1 (toggle_port_field sample_env eq_refl) sample_unreadable_port);
    reflexivity.
Defined.

(** * Further properties of subscribing and unsubscribing *)

Section SubscribeRuns.
Import Subscriber.
Variable E : Env.

(** What one run of [_subscribe] does, case by case. *)
Lemma subscribe_run (w : world App) :
  (sanitize_hashtag (hashtag_var (app w)) = []
   /\ _subscribe E w
      = (Ok tt,
         World (app w)
           (trace w
            ++ [MessageBox showwarning (lit "Invalid hashtag")
                  (lit "Please enter a valid hashtag (e.g., #iot or iot).")])))
  \/ (sanitize_hashtag (hashtag_var (app w)) <> []
      /\ sanitize_hashtag (hashtag_var (app w)) ∈ subscribed (app w)
      /\ _subscribe E w
         = (Ok tt,
            World (app w)
              (trace w
               ++ [MessageBox showinfo (lit "Already subscribed")
                     (lit "You're already following #"
                      ++ sanitize_hashtag (hashtag_var (app w))
                      ++ lit ".")])))
  \/ (sanitize_hashtag (hashtag_var (app w)) <> []
      /\ (sanitize_hashtag (hashtag_var (app w)) ∉ subscribed (app w))
      /\ exists l,
           _subscribe E w
           = (Ok tt,
              World
                (set_msg_text l
                   (set_sub_list
                      (sub_list (app w)
                       ++ [lit "#" ++ sanitize_hashtag (hashtag_var (app w))])
                      (sub_sel (app w))
                      (set_subscribed
                         ({[sanitize_hashtag (hashtag_var (app w))]}
                          ∪ subscribed (app w))
                         (app w))))
                (trace w
                 ++ subscribe_calls (app w)
                      [sanitize_hashtag (hashtag_var (app w))]))).
Proof.
  destruct w as [a tr]. cbn [app trace]. unfold _subscribe. mstep.
  destruct (truthy (sanitize_hashtag (hashtag_var a))) eqn:Ht; mstep.
  2:{ left. apply truthy_false in Ht. split; [exact Ht | reflexivity]. }
  apply truthy_true in Ht. right.
  case_bool_decide as Hin; mstep.
  - left. repeat split; auto.
  - right. repeat split; auto.
    match goal with
    | |- context [_subscribe_to_topic E ?tag ?w0] =>
        destruct (subscribe_to_topic_run E tag w0) as [l Hl]
    end.
    exists l. rewrite Hl. reflexivity.
Qed.

(** What [_unsubscribe] does to a tag of the set. *)
Lemma unsubscribe_run (w : world App) :
  unsubscribe_tag (app w) <> [] ->
  unsubscribe_tag (app w) ∈ subscribed (app w) ->
  exists l,
    _unsubscribe E w
    = (Ok tt,
       World
         (set_msg_text l
            (match first_line_of (unsubscribe_tag (app w))
                     (sub_list (app w)) 0
             with
             | Some i => Listbox_delete i
             | None => fun a => a
             end
               (set_subscribed
                  (subscribed (app w) ∖ {[unsubscribe_tag (app w)]})
                  (app w))))
         (trace w
          ++ (if connected (app w) then
                match client (app w) with
                | Some c =>
                    [Call c (unsubscribe
                               (lit "twitter/" ++ unsubscribe_tag (app w)))]
                | None => []
                end
              else []))).
Proof.
  destruct w as [a tr]. cbn [app trace]. intros Ht Hin.
  apply truthy_true in Ht.
  unfold _unsubscribe, _log_msg. mstep.
  rewrite Ht, (bool_decide_true _ Hin). mstep.
  assert (Hconn : forall a0 : App,
            connected (match first_line_of (unsubscribe_tag a) (sub_list a) 0
                       with Some i => Listbox_delete i a0 | None => a0 end)
            = connected a0)
    by (intros a0; destruct (first_line_of _ _ _); reflexivity).
  assert (Hclient : forall a0 : App,
            client (match first_line_of (unsubscribe_tag a) (sub_list a) 0
                    with Some i => Listbox_delete i a0 | None => a0 end)
            = client a0)
    by (intros a0; destruct (first_line_of _ _ _); reflexivity).
  cbn [sub_list set_subscribed]. rewrite Hconn, Hclient.
  cbn [connected client set_subscribed].
  destruct (connected a); mstep.
  2:{ rewrite app_nil_r.
      destruct (first_line_of _ _ _); eexists; reflexivity. }
  destruct (client a) as [c|] eqn:Hcl.
  2:{ rewrite bool_decide_false by (intros [? ?]; discriminate).
      rewrite app_nil_r.
      destruct (first_line_of _ _ _); eexists; reflexivity. }
  rewrite bool_decide_true by eauto. mrun. rewrite Hclient.
  cbn [client set_subscribed]. rewrite Hcl.
  lib_cases E; destruct (first_line_of _ _ _); eexists; reflexivity.
Qed.

End SubscribeRuns.

(** X8. [_subscribe] by cases.  An entry that normalises to the empty
    string is rejected with a warning, and a tag already in the set with a
    notice; in both cases nothing else changes and no call reaches the
    library.  A new tag is added to the set and its line "#tag" is appended
    to the list; the subscribe call on "twitter/"+tag is issued at once when
    connected with a client object, and not at all otherwise (the drain
    issues it on the next "connected" event). *)
Theorem subscribe_cases (E : Env) (w : world Subscriber.App) :
  let a := app w in
  let tag := sanitize_hashtag (Subscriber.hashtag_var a) in
  (tag = [] \/ tag ∈ Subscriber.subscribed a ->
   exists b title text,
     Subscriber._subscribe E w
     = (Ok tt, World a (trace w ++ [MessageBox b title text])))
  /\ (tag <> [] -> tag ∉ Subscriber.subscribed a ->
      fst (Subscriber._subscribe E w) = Ok tt
      /\ Subscriber.subscribed (app (snd (Subscriber._subscribe E w)))
         = {[tag]} ∪ Subscriber.subscribed a
      /\ Subscriber.sub_list (app (snd (Subscriber._subscribe E w)))
         = Subscriber.sub_list a ++ [lit "#" ++ tag]
      /\ added w (snd (Subscriber._subscribe E w))
         = if Subscriber.connected a then
             match Subscriber.client a with
             | Some c => [Call c (subscribe (lit "twitter/" ++ tag) 0)]
             | None => []
             end
           else []).
Proof.
  cbv zeta.
  destruct (subscribe_run E w)
    as [[Hn Hr]|[(Hne & Hin & Hr)|(Hne & Hnin & l & Hr)]].
  - split; [eauto|]. intros H; contradiction.
  - split; [eauto|]. intros _ H; contradiction.
  - split; [intros [H|H]; contradiction|]. intros _ _.
    rewrite Hr. cbn [fst snd app]. rewrite added_app.
    repeat split; reflexivity.
Qed.

(** The fresh subscriber after the user has typed "#iot": a new tag, not
    connected, so no call yet. *)
Lemma subscribe_cases_witness :
  fst (Subscriber._subscribe sample_env sample_typed_iot) = Ok tt
  /\ Subscriber.subscribed
       (app (snd (Subscriber._subscribe sample_env sample_typed_iot)))
     = {[sanitize_hashtag (Subscriber.hashtag_var (app sample_typed_iot))]}
       ∪ Subscriber.subscribed (app sample_typed_iot)
  /\ Subscriber.sub_list
       (app (snd (Subscriber._subscribe sample_env sample_typed_iot)))
     = Subscriber.sub_list (app sample_typed_iot)
       ++ [lit "#"
           ++ sanitize_hashtag (Subscriber.hashtag_var (app sample_typed_iot))]
  /\ added sample_typed_iot
       (snd (Subscriber._subscribe sample_env sample_typed_iot))
     = if Subscriber.connected (app sample_typed_iot) then
         match Subscriber.client (app sample_typed_iot) with
         | Some c =>
             [Call c
                (subscribe
                   (lit "twitter/"
                    ++ sanitize_hashtag
                         (Subscriber.hashtag_var (app sample_typed_iot)))
                   0)]
         | None => []
         end
       else [].
Proof.
  apply (proj2 (subscribe_cases sample_env sample_typed_iot)).
  - vm_compute. discriminate.
  - apply not_elem_of_empty.
Defined.

(** * Invariants of the publisher *)

Section PublisherInvariants.
Import Publisher.
Variable E : Env.

(** Induction over the reachable worlds, with a drain taken apart into its
    rounds and the re-arming of the timer. *)
Lemma publisher_reachable_rounds (P : world App -> Prop) :
  P init ->
  (forall w b p u h t, P w -> P (World (edit b p u h t (app w)) (trace w))) ->
  (forall w, P w -> P (snd (_toggle_connection E w))) ->
  (forall w, P w -> P (snd (_publish E w))) ->
  (forall w broker port,
     P w -> In (ThreadStart broker port) (trace w) ->
     P (snd (worker E broker port w))) ->
  (forall w c rc,
     P w -> In (Call c set_on_connect) (trace w) ->
     P (snd (_on_connect rc w))) ->
  (forall w rc, P w -> P (snd (_on_disconnect rc w))) ->
  (forall w x q,
     status_queue (app w) = x :: q -> P w ->
     P (snd (handle_status E x (snd (status_get_nowait w))))) ->
  (forall w, P w -> P (World (app w) (trace w ++ [After 150 drain_status_queue]))) ->
  forall w, reachable E w -> P w.
Proof.
  intros Hinit Hedit Htoggle Hpublish Hworker Hconn Hdisc Hround Hafter.
  induction 1 as [|w b p u h t _ IH|w _ IH|w _ IH|w broker port _ IH Hin
                  |w c rc _ IH Hin|w c rc _ IH Hin|w fuel _ IH Hlen]; eauto.
  destruct (publisher_drain E w fuel Hlen) as [Hrun _]. rewrite Hrun.
  cbn [snd]. apply Hafter.
  apply (rounds_queue_invariant (fun w => status_queue (app w))
           status_get_nowait (handle_status E)
           publisher_get_spec (publisher_handle_spec E) P);
    [exact Hround | reflexivity | exact IH].
Qed.

Ltac ui_solve H :=
  unfold publisher_ui_consistent in *; cbn in *;
  destruct H as [Hbtn Hlbl];
  repeat match goal with
         | Hc : connected _ = _ |- _ => rewrite Hc in *
         end;
  split;
    [ first [assumption | reflexivity]
    | first [ assumption
            | split; intros Hx;
              first [reflexivity | discriminate Hx
                    | vm_compute in Hx; discriminate Hx] ] ].

Lemma publisher_ui_invariant (w : world App) :
  reachable E w -> publisher_ui_consistent (app w).
Proof.
  apply (publisher_reachable_rounds (fun w => publisher_ui_consistent (app w))).
  - unfold publisher_ui_consistent; cbn.
    split; [reflexivity|]. split; intros Hx; discriminate Hx.
  - intros w0 b p u h t H. exact H.
  - intros [a tr] H. cbn [app] in *.
    unfold _toggle_connection, _connect_async, _log.
    destruct (mqtt E); mstep; [|exact H].
    destruct (connected a) eqn:Hc; mrun.
    + destruct (client a) as [c|]; cbn; lib_cases E.
      all: ui_solve H.
    + destruct (port_var a); cbn; [|exact H]. ui_solve H.
  - intros [a tr] H. cbn [app] in *.
    unfold _publish, _log. mstep.
    destruct (connected a) eqn:Hc; mstep; [|exact H].
    destruct (client a) as [c|] eqn:Hcl.
    2:{ rewrite bool_decide_false by (intros [? ?]; discriminate). exact H. }
    rewrite bool_decide_true by eauto. mstep.
    destruct (truthy _); mstep; [|exact H].
    destruct (truthy _); mstep; [|exact H].
    mrun. rewrite Hcl. lib_cases E; [|ui_solve H].
    match goal with |- context [(?rc =? 0)%Z] => destruct (rc =? 0)%Z end.
    all: ui_solve H.
  - intros [a tr] broker port H _. cbn [app] in *.
    unfold worker, status_put. mrun. cbn.
    lib_cases E; exact H.
  - intros [a tr] c rc H _. unfold _on_connect.
    destruct (rc =? 0)%Z; exact H.
  - intros [a tr] rc H. exact H.
  - intros [a tr] [kind msg] q Hq H. cbn [app] in *.
    unfold status_get_nowait. cbn [app trace]. rewrite Hq. cbn [snd].
    unfold handle_status, _log.
    repeat case_bool_decide; cbn; try exact H;
      (unfold publisher_ui_consistent; cbn; split; [reflexivity|];
       split; intros Hx; first [reflexivity | discriminate Hx
                                  | vm_compute in Hx; discriminate Hx]).
  - intros w0 H. exact H.
Qed.

End PublisherInvariants.

Lemma grows_refl {A} (P : effect -> Prop) (w : world A) (a : A) :
  grows P w (World a (trace w)).
Proof. exists []. cbn. split; [now rewrite app_nil_r | constructor]. Qed.

Lemma grows_weaken {A} (P Q : effect -> Prop) (w w' : world A) :
  (forall e, P e -> Q e) -> grows P w w' -> grows Q w w'.
Proof.
  intros HPQ (delta & Ht & Hd). exists delta. split; [exact Ht|].
  eapply List.Forall_impl; [exact HPQ | exact Hd].
Qed.

Lemma grows_forall {A} (P : effect -> Prop) (w w' : world A) :
  grows P w w' -> List.Forall P (trace w) -> List.Forall P (trace w').
Proof.
  intros (delta & Ht & Hd) H. rewrite Ht. apply List.Forall_app. now split.
Qed.

Lemma grows_in {A} (P : effect -> Prop) (w w' : world A) (e : effect) :
  grows P w w' -> In e (trace w) -> In e (trace w').
Proof.
  intros (delta & Ht & _) H. rewrite Ht. apply in_or_app. now left.
Qed.

(** The trace of a concrete result extends the trace it started from. *)
Ltac grows_solve :=
  unfold grows; cbn [trace snd app];
  first [ exists []; split; [now rewrite app_nil_r | constructor]
        | rewrite <- ?app_assoc; eexists; split;
          [reflexivity | repeat constructor] ].

Section PublisherTrace.
Import Publisher.
Variable E : Env.

Lemma publisher_toggle_grows (w : world App) :
  grows no_topic_call w (snd (_toggle_connection E w)).
Proof.
  destruct w as [a tr]. unfold _toggle_connection, _connect_async, _log.
  destruct (mqtt E); mstep; [|grows_solve].
  destruct (connected a) eqn:Hc; mrun.
  - destruct (client a) as [c|]; cbn; lib_cases E.
    all: grows_solve.
  - destruct (port_var a); cbn.
    all: grows_solve.
Qed.

Lemma publisher_worker_grows (broker : str) (port : Z) (w : world App) :
  grows no_topic_call w (snd (worker E broker port w)).
Proof.
  destruct w as [a tr]. unfold worker, status_put. mrun. cbn.
  lib_cases E.
  all: grows_solve.
Qed.

Lemma publisher_round_trace (x : str * str) (w : world App) :
  trace (snd (handle_status E x (snd (status_get_nowait w)))) = trace w.
Proof.
  destruct w as [a tr], x as [kind msg].
  unfold status_get_nowait, handle_status, _log. cbn [app trace].
  destruct (status_queue a); repeat case_bool_decide; reflexivity.
Qed.

Lemma valid_tag_sanitize (s : str) :
  sanitize_hashtag s <> [] -> valid_tag (sanitize_hashtag s).
Proof. intros H. split; [exact H | apply sanitize_hashtag_tag_chars]. Qed.

Lemma publisher_publish_grows (w : world App) :
  grows publisher_call_ok w (snd (_publish E w)).
Proof.
  destruct (publish_run E w) as [[_ Hr]|[(_&_&_&Hr)|[(_&_&_&_&Hr)|Hr]]].
  1-3: rewrite Hr; cbn [snd]; eexists; split;
       [reflexivity | repeat constructor].
  destruct Hr as (c & a' & _ & _ & Hh & _ & Hr). rewrite Hr. cbn [snd].
  eexists. split; [reflexivity|]. constructor; [|constructor].
  cbn. repeat split.
  - eexists. split; [apply valid_tag_sanitize, Hh | reflexivity].
  - intros H. apply (f_equal (@length N)) in H.
    rewrite !length_app in H.
    change (length (lit ": ")) with 2%nat in H.
    change (@length N []) with 0%nat in H. lia.
Qed.

Lemma no_topic_call_publisher (e : effect) :
  no_topic_call e -> publisher_call_ok e.
Proof. destruct e as [| c [] | |]; cbn; tauto. Qed.

(** The calls the publisher makes: publish only, on tag topics. *)
Lemma publisher_calls_invariant (w : world App) :
  reachable E w -> List.Forall publisher_call_ok (trace w).
Proof.
  apply (publisher_reachable_rounds E
           (fun w => List.Forall publisher_call_ok (trace w))).
  - repeat constructor.
  - intros w0 b p u h t H. exact H.
  - intros w0 H. eapply grows_forall; [|exact H].
    eapply grows_weaken; [exact no_topic_call_publisher|].
    apply publisher_toggle_grows.
  - intros w0 H. eapply grows_forall; [|exact H].
    apply publisher_publish_grows.
  - intros w0 broker port H _. eapply grows_forall; [|exact H].
    eapply grows_weaken; [exact no_topic_call_publisher|].
    apply publisher_worker_grows.
  - intros [a tr] c rc H _. unfold _on_connect.
    destruct (rc =? 0)%Z; exact H.
  - intros [a tr] rc H. exact H.
  - intros w0 x q _ H. now rewrite publisher_round_trace.
  - intros w0 H. cbn [trace]. apply List.Forall_app. split; [exact H|].
    repeat constructor.
Qed.

(** The flag is set, and a "connected" event queued, only after the user
    asked to connect. *)
Lemma publisher_asked_invariant (w : world App) :
  reachable E w -> publisher_asked_to_connect w.
Proof.
  assert (Hstep : forall w w' : world App,
            quiet w w' -> grows (fun _ => True) w w' ->
            publisher_asked_to_connect w -> publisher_asked_to_connect w').
  { intros w0 w' (Hcl & Hc & Hq & Ht) Hg [(b & p & Hi)|(Hi1 & Hi2 & Hi3)].
    - left. exists b, p. eapply grows_in; eauto.
    - right. repeat split.
      + destruct (connected (app w')); [|reflexivity].
        rewrite Hc in Hi1; [discriminate | reflexivity].
      + intros msg H. exact (Hi2 msg (Hq msg H)).
      + intros c H. exact (Hi3 c (Ht c H)). }
  apply (publisher_reachable_rounds E publisher_asked_to_connect).
  - right. repeat split; [intros msg [] | intros c [H|[]]; discriminate H].
  - intros w0 b p u h t H. apply (Hstep w0); [| apply grows_refl | exact H].
    unfold quiet; cbn; auto.
  - intros w0 H. apply (Hstep w0); [apply publisher_toggle_quiet | | exact H].
    eapply grows_weaken; [|apply publisher_toggle_grows]. auto.
  - intros w0 H. apply (Hstep w0); [apply publisher_publish_quiet | | exact H].
    eapply grows_weaken; [|apply publisher_publish_grows]. auto.
  - intros w0 broker port _ Hin. left. exists broker, port.
    eapply grows_in; [apply publisher_worker_grows | exact Hin].
  - intros [a tr] c rc [Hl|(_ & _ & Hr)] Hin; [|destruct (Hr c Hin)].
    left. unfold _on_connect. destruct (rc =? 0)%Z; exact Hl.
  - intros w0 rc H.
    apply (Hstep w0); [apply publisher_on_disconnect_quiet | | exact H].
    destruct w0. unfold _on_disconnect. apply grows_refl.
  - intros w0 x q Hq [(b & p & Hl)|Hr].
    + left. exists b, p. now rewrite publisher_round_trace.
    + destruct w0 as [a tr]. cbn [app] in Hq.
      destruct Hr as (Hr1 & Hr2 & Hr3). cbn [app trace] in *.
      right. unfold status_get_nowait. cbn [app trace]. rewrite Hq.
      cbn [snd]. destruct x as [kind msg]. unfold handle_status, _log.
      case_bool_decide as Hk.
      * subst kind. destruct (Hr2 msg). rewrite Hq. now left.
      * repeat case_bool_decide; cbn; rewrite ?Hq in *;
          (repeat split; auto;
           intros msg0 Hin; apply (Hr2 msg0); now right).
  - intros w0 H. apply (Hstep w0); [| | exact H].
    + unfold quiet; cbn; repeat split; auto; in_cases.
    + eexists. split; [reflexivity | repeat constructor].
Qed.

End PublisherTrace.

(** * Invariants of the subscriber *)

Section SubscriberInvariants.
Import Subscriber.
Variable E : Env.

(** Induction over the reachable worlds, with the drains taken apart into
    their rounds and the re-arming of the timer. *)
Lemma subscriber_reachable_rounds (P : world App -> Prop) :
  P init ->
  (forall w b p h sel,
     P w -> (forall i, sel = Some i -> (i < length (sub_list (app w)))%nat) ->
     P (World (edit b p h sel (app w)) (trace w))) ->
  (forall w, P w -> P (snd (_toggle_connection E w))) ->
  (forall w, P w -> P (snd (_subscribe E w))) ->
  (forall w, P w -> P (snd (_unsubscribe E w))) ->
  (forall w broker port,
     P w -> In (ThreadStart broker port) (trace w) ->
     P (snd (worker E broker port w))) ->
  (forall w c rc,
     P w -> In (Call c set_on_connect) (trace w) ->
     P (snd (_on_connect rc w))) ->
  (forall w rc, P w -> P (snd (_on_disconnect rc w))) ->
  (forall w message, P w -> P (snd (_on_message message w))) ->
  (forall w x q,
     status_queue (app w) = x :: q -> P w ->
     P (snd (handle_status E x (snd (status_get_nowait w))))) ->
  (forall w line, P w -> P (snd (_log_msg E line (snd (msg_get_nowait w))))) ->
  (forall w ms t, P w -> P (World (app w) (trace w ++ [After ms t]))) ->
  forall w, reachable E w -> P w.
Proof.
  intros Hinit Hedit Htoggle Hsub Hunsub Hworker Hconn Hdisc Hmsg Hround
    Hline Hafter.
  induction 1 as [|w b p h sel _ IH Hsel|w _ IH|w _ IH|w _ IH
                  |w broker port _ IH Hin|w c rc _ IH Hin|w c rc _ IH Hin
                  |w c message _ IH Hin|w fuel _ IH Hlen|w fuel _ IH Hlen];
    eauto.
  - destruct (subscriber_drain E w fuel Hlen) as [Hrun _]. rewrite Hrun.
    cbn [snd]. apply Hafter.
    apply (rounds_queue_invariant (fun w => status_queue (app w))
             status_get_nowait (handle_status E)
             subscriber_get_spec (subscriber_handle_spec E) P);
      [exact Hround | reflexivity | exact IH].
  - destruct (message_drain E w fuel Hlen) as [Hrun _]. rewrite Hrun.
    cbn [snd]. apply Hafter.
    apply rounds_invariant; [|exact IH]. intros line s Hs. now apply Hline.
Qed.

Ltac aside_solve :=
  unfold subscriber_aside; cbn [app snd];
  repeat (split; [reflexivity|]); grows_solve.

Lemma subscriber_worker_aside (broker : str) (port : Z) (w : world App) :
  subscriber_aside w (snd (worker E broker port w)).
Proof.
  destruct w as [a tr]. unfold worker, status_put. mrun. cbn.
  lib_cases E.
  all: aside_solve.
Qed.

Lemma subscriber_on_connect_aside (rc : Z) (w : world App) :
  subscriber_aside w (snd (_on_connect rc w)).
Proof.
  destruct w as [a tr]. unfold _on_connect, status_put.
  destruct (rc =? 0)%Z; aside_solve.
Qed.

Lemma subscriber_on_disconnect_aside (rc : Z) (w : world App) :
  subscriber_aside w (snd (_on_disconnect rc w)).
Proof. destruct w as [a tr]. aside_solve. Qed.

Lemma subscriber_on_message_aside (message : MQTTMessage) (w : world App) :
  subscriber_aside w (snd (_on_message message w)).
Proof.
  destruct (on_message_run message w) as (text & _ & Hrun).
  rewrite Hrun. destruct w as [a tr].
  destruct (Codec.utf8_decode _ _ (topic message)); aside_solve.
Qed.

Lemma subscriber_line_aside (line : str) (w : world App) :
  subscriber_aside w (snd (_log_msg E line (snd (msg_get_nowait w)))).
Proof.
  destruct w as [a tr]. unfold msg_get_nowait, _log_msg. cbn [app trace].
  destruct (msg_queue a); aside_solve.
Qed.

(** What one run of [_toggle_connection] does to the subscriber, case by
    case. *)
Lemma subscriber_toggle_cases (w : world App) :
  (mqtt E = false
   /\ exists box, _toggle_connection E w
                  = (Ok tt, World (app w) (trace w ++ [box]))
                  /\ no_topic_call box)
  \/ (connected (app w) = true
      /\ exists l delta,
           _toggle_connection E w
           = (Ok tt,
              World
                (set_msg_text l
                   (set_status_lbl (lit "Status: Disconnected") (lit "red")
                      (set_connect_btn (lit "Connect")
                         (set_connected false (app w)))))
                (trace w ++ delta))
           /\ List.Forall no_topic_call delta)
  \/ (connected (app w) = false
      /\ _toggle_connection E w = (Raise TclError, w))
  \/ (connected (app w) = false
      /\ exists l broker port,
           _toggle_connection E w
           = (Ok tt,
              World
                (set_msg_text l
                   (set_status_lbl (lit "Status: Connecting...")
                      (lit "orange") (app w)))
                (trace w ++ [ThreadStart broker port]))).
Proof.
  destruct w as [a tr]. cbn [app trace].
  unfold _toggle_connection, _connect_async, _log_msg.
  destruct (mqtt E); mstep.
  2:{ left. split; [reflexivity|]. eexists. split; [reflexivity | exact I]. }
  right. destruct (connected a) eqn:Hc; mrun.
  - left. split; [reflexivity|].
    destruct (client a) as [c|]; cbn; lib_cases E.
    1-2: eexists _, [_]; split; [reflexivity | repeat constructor].
    eexists _, []. rewrite app_nil_r. split; [reflexivity | constructor].
  - right. destruct (port_var a) as [p|]; cbn.
    + right. split; [reflexivity|]. eexists _, _, _. reflexivity.
    + left. split; reflexivity.
Qed.

(** What handling one status event does to the subscriber, case by
    case. *)
Lemma subscriber_handle_cases (item : str * str) (w : world App) :
  (fst item = lit "connected"
   /\ exists l,
        handle_status E item w
        = (Ok tt,
           World
             (set_msg_text l
                (set_status_lbl (lit "Status: Connected") (lit "green")
                   (set_connect_btn (lit "Disconnect")
                      (set_connected true (app w)))))
             (trace w
              ++ subscribe_calls (set_connected true (app w))
                   (resubscribe_order E (app w)))))
  \/ (fst item <> lit "connected"
      /\ exists l text colour,
           handle_status E item w
           = (Ok tt,
              World
                (set_msg_text l
                   (set_status_lbl text colour
                      (set_connect_btn (lit "Connect")
                         (set_connected false (app w)))))
                (trace w))
           /\ (text, colour) <> (lit "Status: Connected", lit "green"))
  \/ (fst item <> lit "connected"
      /\ handle_status E item w = (Ok tt, w)).
Proof.
  destruct item as [kind msg]. destruct w as [a tr].
  unfold handle_status. cbn [fst app trace].
  case_bool_decide as Hk.
  - left. split; [exact Hk|]. unfold _log_msg, resubscribe_order. mstep.
    cbn [msg_text set_msg_text]. rewrite length_app, Nat.add_1_r.
    match goal with
    | |- context [for_each ?tags _ ?w0] =>
        destruct (for_each_subscribe_run E tags w0) as [l Hl]
    end.
    rewrite Hl. exists l. reflexivity.
  - right. unfold _log_msg.
    repeat case_bool_decide.
    + left. split; [exact Hk|]. eexists _, _, _.
      split; [reflexivity|]. intros Hx. vm_compute in Hx. discriminate Hx.
    + left. split; [exact Hk|]. eexists _, _, _.
      split; [reflexivity|]. intros Hx. vm_compute in Hx. discriminate Hx.
    + right. split; [exact Hk | reflexivity].
Qed.

Lemma subscriber_pop (w : world App) (x : str * str) (q : list (str * str)) :
  status_queue (app w) = x :: q ->
  snd (status_get_nowait w) = World (set_status_queue q (app w)) (trace w).
Proof. intros Hq. unfold status_get_nowait. now rewrite Hq. Qed.

(** What [_unsubscribe] does when it rejects. *)
Lemma unsubscribe_rejected (w : world App) :
  unsubscribe_tag (app w) = []
  \/ unsubscribe_tag (app w) ∉ subscribed (app w) ->
  exists box,
    _unsubscribe E w = (Ok tt, World (app w) (trace w ++ [box]))
    /\ no_topic_call box.
Proof.
  intros H. unfold _unsubscribe. mstep. eexists. split.
  - destruct H as [H|H].
    + rewrite H. reflexivity.
    + rewrite (bool_decide_false _ H), orb_true_r. reflexivity.
  - exact I.
Qed.

End SubscriberInvariants.

Section SubscriberUi.
Import Subscriber.
Variable E : Env.

Lemma subscriber_ui_same (a a' : App) :
  connected a' = connected a ->
  connect_btn a' = connect_btn a ->
  status_lbl a' = status_lbl a ->
  subscriber_ui_consistent a -> subscriber_ui_consistent a'.
Proof.
  unfold subscriber_ui_consistent. intros -> -> ->. tauto.
Qed.

Lemma subscriber_ui_set (b : bool) (text colour : str) (l : list str)
    (a : App) :
  (b = true <-> (text, colour) = (lit "Status: Connected", lit "green")) ->
  subscriber_ui_consistent
    (set_msg_text l
       (set_status_lbl text colour
          (set_connect_btn (if b then lit "Disconnect" else lit "Connect")
             (set_connected b a)))).
Proof. intros H. split; [reflexivity | exact H]. Qed.

Lemma subscriber_ui_invariant (w : world App) :
  reachable E w -> subscriber_ui_consistent (app w).
Proof.
  apply (subscriber_reachable_rounds E
           (fun w => subscriber_ui_consistent (app w))).
  - unfold subscriber_ui_consistent; cbn.
    split; [reflexivity|]. split; intros Hx; discriminate Hx.
  - intros w0 b p h sel H _. exact H.
  - intros w0 H.
    destruct (subscriber_toggle_cases E w0)
      as [(_ & box & Hr & _)|[(_ & l & delta & Hr & _)
          |[(_ & Hr)|(Hc & l & broker & port & Hr)]]];
      rewrite Hr; cbn [snd app]; try exact H.
    + apply (subscriber_ui_set false).
      split; intros Hx; [discriminate Hx | vm_compute in Hx; discriminate Hx].
    + destruct H as [Hbtn Hlbl]. split; cbn; [exact Hbtn|].
      rewrite Hc. split; intros Hx;
        [discriminate Hx | vm_compute in Hx; discriminate Hx].
  - intros w0 H.
    destruct (subscribe_run E w0) as [[_ Hr]|[(_ & _ & Hr)|(_ & _ & l & Hr)]];
      rewrite Hr; exact H.
  - intros w0 H.
    destruct (decide (unsubscribe_tag (app w0) = [])) as [Hn|Hn].
    { destruct (unsubscribe_rejected E w0 (or_introl Hn)) as (box & Hr & _).
      rewrite Hr. exact H. }
    destruct (decide (unsubscribe_tag (app w0) ∈ subscribed (app w0)))
      as [Hin|Hin].
    2:{ destruct (unsubscribe_rejected E w0 (or_intror Hin)) as (box & Hr & _).
        rewrite Hr. exact H. }
    destruct (unsubscribe_run E w0 Hn Hin) as [l Hr]. rewrite Hr.
    cbn [snd app]. destruct (first_line_of _ _ _); exact H.
  - intros w0 broker port H _.
    destruct (subscriber_worker_aside E broker port w0) as (H1 & H2 & H3 & _).
    eapply subscriber_ui_same; eauto.
  - intros w0 c rc H _.
    destruct (subscriber_on_connect_aside rc w0) as (H1 & H2 & H3 & _).
    eapply subscriber_ui_same; eauto.
  - intros w0 rc H.
    destruct (subscriber_on_disconnect_aside rc w0) as (H1 & H2 & H3 & _).
    eapply subscriber_ui_same; eauto.
  - intros w0 message H.
    destruct (subscriber_on_message_aside message w0) as (H1 & H2 & H3 & _).
    eapply subscriber_ui_same; eauto.
  - intros w0 x q Hq H. rewrite (subscriber_pop w0 x q Hq).
    destruct (subscriber_handle_cases E x
                (World (set_status_queue q (app w0)) (trace w0)))
      as [(_ & l & Hr)|[(_ & l & text & colour & Hr & Hne)|(_ & Hr)]];
      rewrite Hr; cbn [snd app].
    + apply (subscriber_ui_set true). tauto.
    + apply (subscriber_ui_set false). split; [discriminate | tauto].
    + exact H.
  - intros w0 line H.
    destruct (subscriber_line_aside E line w0) as (H1 & H2 & H3 & _).
    eapply subscriber_ui_same; eauto.
  - intros w0 ms t H. exact H.
Qed.

End SubscriberUi.

(** X9. In every reachable world of either program the display agrees
    with the [connected] flag: the button reads "Disconnect" when the flag
    is set and "Connect" when it is not, and the status line reads
    "Status: Connected" (in green) exactly when the flag is set. *)
Theorem display_follows_flag (E : Env) :
  (forall w : world Publisher.App,
     Publisher.reachable E w ->
     Publisher.connect_btn (app w)
     = (if Publisher.connected (app w) then lit "Disconnect"
        else lit "Connect")
     /\ (Publisher.connected (app w) = true
         <-> Publisher.status_lbl (app w)
             = (lit "Status: Connected", lit "green")))
  /\ (forall w : world Subscriber.App,
        Subscriber.reachable E w ->
        Subscriber.connect_btn (app w)
        = (if Subscriber.connected (app w) then lit "Disconnect"
           else lit "Connect")
        /\ (Subscriber.connected (app w) = true
            <-> Subscriber.status_lbl (app w)
                = (lit "Status: Connected", lit "green"))).
Proof.
  split.
  - apply publisher_ui_invariant.
  - apply subscriber_ui_invariant.
Qed.

(** The subscriber of the sample run, about to handle the "connected"
    event of the reconnection: its flag is down and its button reads
    "Connect". *)
Lemma display_follows_flag_witness :
  Subscriber.connect_btn (app scenario_reconnecting)
  = (if Subscriber.connected (app scenario_reconnecting)
     then lit "Disconnect" else lit "Connect")
  /\ (Subscriber.connected (app scenario_reconnecting) = true
      <-> Subscriber.status_lbl (app scenario_reconnecting)
          = (lit "Status: Connected", lit "green")).
Proof.
  apply (proj2 (display_follows_flag sample_env) scenario_reconnecting).
  exact scenario_reconnecting_reachable.
Defined.

Section SubscriberLists.
Import Subscriber.
Variable E : Env.

Lemma lstrip_marker_line (t : str) :
  List.Forall (fun c => Re.tag_char c = true) t ->
  lstrip_chars (lit "#") (lit "#" ++ t) = t.
Proof.
  intros H. change (lit "#" ++ t) with (ord "#" :: t).
  change (lit "#") with [ord "#"]. cbn [lstrip_chars existsb].
  rewrite N.eqb_refl. cbn [orb].
  destruct H as [|c t Hc _]; [reflexivity|].
  cbn [lstrip_chars existsb]. rewrite (tag_char_not_marker c Hc). reflexivity.
Qed.

Lemma first_line_of_tags (tag : str) (pre post : list str) :
  List.Forall valid_tag pre -> valid_tag tag -> tag ∉ pre ->
  forall k,
    first_line_of tag
      (List.map (fun t => lit "#" ++ t) (pre ++ tag :: post)) k
    = Some (k + length pre)%nat.
Proof.
  intros Hpre [_ Htag]. induction Hpre as [|t pre [_ Ht] _ IH]; intros Hnin k.
  - cbn [Datatypes.app List.map first_line_of]. rewrite (lstrip_marker_line tag Htag).
    rewrite bool_decide_true by reflexivity. cbn. f_equal. lia.
  - cbn [Datatypes.app List.map first_line_of]. rewrite (lstrip_marker_line t Ht).
    apply not_elem_of_cons in Hnin. destruct Hnin as [Hne Hnin].
    rewrite bool_decide_false by congruence.
    rewrite (IH Hnin). cbn. f_equal. lia.
Qed.

Lemma delete_middle {A} (pre : list A) (x : A) (post : list A) :
  take (length pre) (pre ++ x :: post)
  ++ drop (S (length pre)) (pre ++ x :: post)
  = pre ++ post.
Proof.
  induction pre as [|y pre IH]; [reflexivity|].
  cbn. f_equal. exact IH.
Qed.

Lemma mirror_same (a a' : App) :
  sub_list a' = sub_list a ->
  subscribed a' = subscribed a ->
  sub_sel a' = sub_sel a ->
  list_mirrors_set a -> list_mirrors_set a'.
Proof.
  intros H1 H2 H3 (tags & Hnd & Hv & Hl & Hs & Hsel).
  exists tags. rewrite H1, H2, H3. auto.
Qed.

(** Adding a new valid tag keeps the list and the set in step. *)
Lemma mirror_add (a a' : App) (tag : str) :
  valid_tag tag -> tag ∉ subscribed a ->
  sub_list a' = sub_list a ++ [lit "#" ++ tag] ->
  subscribed a' = {[tag]} ∪ subscribed a ->
  sub_sel a' = sub_sel a ->
  list_mirrors_set a -> list_mirrors_set a'.
Proof.
  intros Hvalid Hnin H1 H2 H3 (tags & Hnd & Hv & Hl & Hs & Hsel).
  exists (tags ++ [tag]). repeat split.
  - apply NoDup_app. repeat split; [exact Hnd | | apply NoDup_singleton].
    intros x Hx Hx'. apply list_elem_of_singleton in Hx'. subst x.
    apply Hnin. rewrite Hs. now apply elem_of_list_to_set.
  - apply List.Forall_app. split; [exact Hv | now constructor].
  - rewrite H1, Hl, List.map_app. reflexivity.
  - rewrite H2, Hs, list_to_set_app_L. cbn.
    rewrite (right_id_L ∅ (∪)). apply (comm_L (∪)).
  - intros i Hi. rewrite H3 in Hi. apply Hsel in Hi.
    rewrite length_app. cbn. lia.
Qed.

(** Removing a tag of the set removes exactly its line. *)
Lemma mirror_remove (a : App) (l : list str) (tag : str) :
  tag ∈ subscribed a ->
  list_mirrors_set a ->
  list_mirrors_set
    (set_msg_text l
       (match first_line_of tag (sub_list a) 0 with
        | Some i => Listbox_delete i
        | None => fun a => a
        end (set_subscribed (subscribed a ∖ {[tag]}) a)))
  /\ length (sub_list
               (match first_line_of tag (sub_list a) 0 with
                | Some i => Listbox_delete i
                | None => fun a => a
                end (set_subscribed (subscribed a ∖ {[tag]}) a)))
     = Nat.pred (length (sub_list a))
  /\ (forall line,
        In line
          (sub_list
             (match first_line_of tag (sub_list a) 0 with
              | Some i => Listbox_delete i
              | None => fun a => a
              end (set_subscribed (subscribed a ∖ {[tag]}) a))) <->
        In line (sub_list a) /\ line <> lit "#" ++ tag).
Proof.
  intros Hin (tags & Hnd & Hv & Hl & Hs & Hsel).
  rewrite Hs in Hin. apply elem_of_list_to_set in Hin.
  apply list_elem_of_split in Hin. destruct Hin as (pre & post & ->).
  apply NoDup_app in Hnd. destruct Hnd as (Hnd1 & Hnd2 & Hnd3).
  apply NoDup_cons in Hnd3. destruct Hnd3 as [Hnpost Hnd3].
  assert (Hnpre : tag ∉ pre).
  { intros Hx. apply (Hnd2 tag Hx). now left. }
  apply List.Forall_app in Hv. destruct Hv as [Hv1 Hv2].
  inversion Hv2 as [|? ? Hvt Hv3]; subst.
  rewrite Hl, (first_line_of_tags tag pre post Hv1 Hvt Hnpre 0).
  cbn [Nat.add].
  assert (Hlines :
    take (length pre) (List.map (fun t => lit "#" ++ t) (pre ++ tag :: post))
    ++ drop (S (length pre))
         (List.map (fun t => lit "#" ++ t) (pre ++ tag :: post))
    = List.map (fun t => lit "#" ++ t) (pre ++ post)).
  { rewrite !List.map_app. cbn [List.map].
    rewrite <- (List.length_map (fun t => lit "#" ++ t) pre).
    apply delete_middle. }
  split; [|split].
  - exists (pre ++ post). repeat split.
    + apply NoDup_app. repeat split; [exact Hnd1 | | exact Hnd3].
      intros x Hx Hx'. apply (Hnd2 x Hx). now right.
    + apply List.Forall_app. now split.
    + cbn. rewrite Hl. exact Hlines.
    + cbn. rewrite Hs, !list_to_set_app_L, list_to_set_cons.
      assert (Hpre' : tag ∉ (list_to_set pre : gset (list N)))
        by now rewrite elem_of_list_to_set.
      assert (Hpost' : tag ∉ (list_to_set post : gset (list N)))
        by now rewrite elem_of_list_to_set.
      apply set_eq. intros x.
      rewrite elem_of_difference, !elem_of_union, elem_of_singleton.
      split.
      * intros [[Hx|[Hx|Hx]] Hne]; [now left | contradiction | now right].
      * intros [Hx|Hx]; (split; [tauto | intros ->; contradiction]).
    + intros i Hi.
      cbn [sub_sel set_msg_text Listbox_delete set_sub_list set_subscribed]
        in Hi.
      rewrite length_app.
      destruct (sub_sel a) as [j|] eqn:Hj; [|discriminate].
      specialize (Hsel j eq_refl). rewrite length_app in Hsel. cbn in Hsel.
      destruct (Nat.ltb_spec j (length pre)).
      * injection Hi as <-. lia.
      * destruct (Nat.eqb_spec j (length pre)); [discriminate|].
        injection Hi as <-. lia.
  - cbn. rewrite Hl, Hlines, !List.length_map, !length_app. cbn. lia.
  - intros line. cbn. rewrite Hl, Hlines.
    rewrite !in_map_iff. split.
    + intros (t & <- & Ht). apply in_app_or in Ht. split.
      * exists t. split; [reflexivity|]. apply in_or_app.
        destruct Ht; [now left | right; now right].
      * intros Heq. apply app_inv_head in Heq. subst t.
        destruct Ht as [Ht|Ht]; apply list_elem_of_In in Ht; contradiction.
    + intros [(t & <- & Ht) Hne]. exists t. split; [reflexivity|].
      apply in_app_or in Ht. apply in_or_app.
      destruct Ht as [Ht|[Ht|Ht]]; [now left | | now right].
      subst t. contradiction.
Qed.

Lemma no_topic_call_subscriber (e : effect) :
  no_topic_call e -> subscriber_call_ok e.
Proof. destruct e as [| c [] | |]; cbn; tauto. Qed.

Lemma subscribe_calls_ok (a : App) (tags : list str) :
  List.Forall valid_tag tags ->
  List.Forall subscriber_call_ok (subscribe_calls a tags).
Proof.
  intros H. unfold subscribe_calls.
  destruct (connected a), (client a); try constructor.
  apply List.Forall_map. eapply List.Forall_impl; [|exact H].
  intros t Ht. cbn. split; [|reflexivity]. exists t. split; [exact Ht|].
  reflexivity.
Qed.

Lemma mirror_valid (a : App) (tag : str) :
  list_mirrors_set a -> tag ∈ subscribed a -> valid_tag tag.
Proof.
  intros (tags & _ & Hv & _ & Hs & _) Hin.
  rewrite Hs in Hin. apply elem_of_list_to_set, list_elem_of_In in Hin.
  rewrite List.Forall_forall in Hv. now apply Hv.
Qed.

End SubscriberLists.

Section SubscriberSafety.
Import Subscriber.
Variable E : Env.

Lemma subscriber_aside_safe (w w' : world App) :
  subscriber_aside w w' ->
  list_mirrors_set (app w) /\ List.Forall subscriber_call_ok (trace w) ->
  list_mirrors_set (app w') /\ List.Forall subscriber_call_ok (trace w').
Proof.
  intros (_ & _ & _ & H1 & H2 & H3 & Hg) [Hm Ht]. split.
  - now apply (mirror_same (app w)).
  - eapply grows_forall; [|exact Ht].
    eapply grows_weaken; [exact no_topic_call_subscriber | exact Hg].
Qed.

(** The list mirrors the set, and the calls name tag topics only. *)
Lemma subscriber_safety_invariant (w : world App) :
  reachable E w ->
  list_mirrors_set (app w) /\ List.Forall subscriber_call_ok (trace w).
Proof.
  apply (subscriber_reachable_rounds E
           (fun w => list_mirrors_set (app w)
                     /\ List.Forall subscriber_call_ok (trace w))).
  - split; [|repeat constructor].
    exists []. repeat split; try constructor. intros i Hi. discriminate Hi.
  - intros w0 b p h sel [(tags & Hnd & Hv & Hl & Hs & Hsel) Ht] Hi.
    split; [|exact Ht]. exists tags. repeat split; auto.
    intros i Hsi. cbn in Hsi. apply Hi in Hsi.
    now rewrite Hl, List.length_map in Hsi.
  - intros w0 [Hm Ht].
    destruct (subscriber_toggle_cases E w0)
      as [(_ & box & Hr & Hb)|[(_ & l & delta & Hr & Hd)
          |[(_ & Hr)|(Hc & l & broker & port & Hr)]]];
      rewrite Hr; cbn [snd app trace].
    + split; [exact Hm|]. apply List.Forall_app. split; [exact Ht|].
      constructor; [now apply no_topic_call_subscriber | constructor].
    + split; [eapply mirror_same; [| | |exact Hm]; reflexivity|].
      apply List.Forall_app. split; [exact Ht|].
      eapply List.Forall_impl; [exact no_topic_call_subscriber | exact Hd].
    + now split.
    + split; [eapply mirror_same; [| | |exact Hm]; reflexivity|].
      apply List.Forall_app. split; [exact Ht | repeat constructor].
  - intros w0 [Hm Ht].
    destruct (subscribe_run E w0)
      as [[_ Hr]|[(_ & _ & Hr)|(Hne & Hnin & l & Hr)]];
      rewrite Hr; cbn [snd app trace].
    + split; [exact Hm|]. apply List.Forall_app.
      split; [exact Ht | repeat constructor].
    + split; [exact Hm|]. apply List.Forall_app.
      split; [exact Ht | repeat constructor].
    + pose proof (valid_tag_sanitize _ Hne) as Hvalid. split.
      * eapply (mirror_add (app w0)); eauto.
      * apply List.Forall_app. split; [exact Ht|].
        apply subscribe_calls_ok. now constructor.
  - intros w0 [Hm Ht].
    destruct (decide (unsubscribe_tag (app w0) = [])) as [Hn|Hn].
    { destruct (unsubscribe_rejected E w0 (or_introl Hn)) as (box & Hr & Hb).
      rewrite Hr. cbn [snd app trace]. split; [exact Hm|].
      apply List.Forall_app. split; [exact Ht|].
      constructor; [now apply no_topic_call_subscriber | constructor]. }
    destruct (decide (unsubscribe_tag (app w0) ∈ subscribed (app w0)))
      as [Hin|Hin].
    2:{ destruct (unsubscribe_rejected E w0 (or_intror Hin))
          as (box & Hr & Hb).
        rewrite Hr. cbn [snd app trace]. split; [exact Hm|].
        apply List.Forall_app. split; [exact Ht|].
        constructor; [now apply no_topic_call_subscriber | constructor]. }
    destruct (unsubscribe_run E w0 Hn Hin) as [l Hr]. rewrite Hr.
    cbn [snd app trace]. split.
    + now apply mirror_remove.
    + apply List.Forall_app. split; [exact Ht|].
      destruct (connected (app w0)), (client (app w0)); repeat constructor.
      exists (unsubscribe_tag (app w0)).
      split; [now apply (mirror_valid (app w0)) | reflexivity].
  - intros w0 broker port H _.
    exact (subscriber_aside_safe _ _ (subscriber_worker_aside E broker port w0) H).
  - intros w0 c rc H _.
    exact (subscriber_aside_safe _ _ (subscriber_on_connect_aside rc w0) H).
  - intros w0 rc H.
    exact (subscriber_aside_safe _ _ (subscriber_on_disconnect_aside rc w0) H).
  - intros w0 message H.
    exact (subscriber_aside_safe _ _
             (subscriber_on_message_aside message w0) H).
  - intros w0 x q Hq [Hm Ht]. rewrite (subscriber_pop w0 x q Hq).
    destruct (subscriber_handle_cases E x
                (World (set_status_queue q (app w0)) (trace w0)))
      as [(_ & l & Hr)|[(_ & l & text & colour & Hr & _)|(_ & Hr)]];
      rewrite Hr; cbn [snd app trace].
    + split; [eapply mirror_same; [| | |exact Hm]; reflexivity|].
      apply List.Forall_app. split; [exact Ht|].
      apply subscribe_calls_ok. apply List.Forall_forall. intros t Hin.
      apply (mirror_valid (app w0)); [exact Hm|].
      apply (resubscribe_order_In E) in Hin. exact Hin.
    + split; [eapply mirror_same; [| | |exact Hm]; reflexivity | exact Ht].
    + split; [eapply mirror_same; [| | |exact Hm]; reflexivity | exact Ht].
  - intros w0 line H.
    exact (subscriber_aside_safe _ _ (subscriber_line_aside E line w0) H).
  - intros w0 ms t [Hm Ht]. split; [exact Hm|].
    cbn [trace]. apply List.Forall_app. split; [exact Ht | repeat constructor].
Qed.

End SubscriberSafety.

(** * Sample runs *)

Lemma scenario_published_reachable :
  Publisher.reachable sample_env scenario_published.
Proof.
  unfold scenario_published. cbv zeta.
  apply Publisher.reach_publish.
  apply Publisher.reach_drain; [|vm_compute; lia].
  eapply (Publisher.reach_on_connect _ _ 0%nat); [|vm_compute; tauto].
  eapply Publisher.reach_worker; [|vm_compute; tauto].
  apply Publisher.reach_toggle.
  apply Publisher.reach_edit.
  apply Publisher.reach_init.
Qed.

Lemma scenario_connected_reachable :
  Subscriber.reachable sample_env scenario_connected.
Proof.
  unfold scenario_connected, scenario_connecting, scenario_subscribed.
  cbv zeta.
  apply Subscriber.reach_drain_status; [|vm_compute; lia].
  eapply (Subscriber.reach_on_connect _ _ 0%nat); [|vm_compute; tauto].
  eapply Subscriber.reach_worker; [|vm_compute; tauto].
  apply Subscriber.reach_toggle.
  apply Subscriber.reach_subscribe.
  apply Subscriber.reach_edit; [|discriminate].
  apply Subscriber.reach_subscribe.
  apply Subscriber.reach_edit; [|discriminate].
  apply Subscriber.reach_init.
Qed.

Lemma scenario_selected_reachable :
  Subscriber.reachable sample_env scenario_selected.
Proof.
  apply Subscriber.reach_edit; [exact scenario_connected_reachable|].
  intros i Hi. injection Hi as <-. vm_compute. lia.
Qed.

Lemma scenario_typed_mqtt_reachable :
  Subscriber.reachable sample_env scenario_typed_mqtt.
Proof.
  apply Subscriber.reach_edit; [exact scenario_connected_reachable|].
  discriminate.
Qed.

(** * The list of subscriptions *)

Lemma marker_line_inj (t t' : str) : lit "#" ++ t = lit "#" ++ t' -> t = t'.
Proof. apply app_inv_head. Qed.

Lemma NoDup_marker_lines (tags : list str) :
  NoDup tags -> NoDup (List.map (fun t => lit "#" ++ t) tags).
Proof.
  induction 1 as [|t tags Hnin _ IH]; cbn [List.map]; constructor;
    [|exact IH].
  rewrite list_elem_of_In, in_map_iff. intros (t' & Heq & Hin).
  apply marker_line_inj in Heq. subst t'.
  apply list_elem_of_In in Hin. contradiction.
Qed.

(** X10. In every reachable world of the subscriber the displayed list
    mirrors the subscription set: no line occurs twice, the lines are
    exactly "#tag" for the tags of the set, there are as many lines as
    tags, every tag is non-empty and over [A-Za-z0-9_-], and a selection
    points at a line of the list. *)
Theorem list_shows_subscriptions (E : Env) (w : world Subscriber.App) :
  Subscriber.reachable E w ->
  NoDup (Subscriber.sub_list (app w))
  /\ (forall line,
        In line (Subscriber.sub_list (app w))
        <-> exists tag, tag ∈ Subscriber.subscribed (app w)
                        /\ line = lit "#" ++ tag)
  /\ length (Subscriber.sub_list (app w))
     = size (Subscriber.subscribed (app w))
  /\ (forall tag, tag ∈ Subscriber.subscribed (app w) -> valid_tag tag)
  /\ (forall i, Subscriber.sub_sel (app w) = Some i ->
                (i < length (Subscriber.sub_list (app w)))%nat).
Proof.
  intros Hr.
  destruct (subscriber_safety_invariant E w Hr)
    as [(tags & Hnd & Hv & Hl & Hs & Hsel) _].
  rewrite Hl, Hs. split; [|split; [|split; [|split]]].
  - now apply NoDup_marker_lines.
  - intros line. split.
    + intros Hin. apply in_map_iff in Hin. destruct Hin as (t & <- & Ht).
      exists t. split; [|reflexivity].
      apply elem_of_list_to_set. now apply list_elem_of_In.
    + intros (t & Ht & ->). apply in_map.
      apply list_elem_of_In. now apply elem_of_list_to_set in Ht.
  - rewrite List.length_map. symmetry. now apply size_list_to_set.
  - intros t Ht. apply elem_of_list_to_set in Ht.
    apply list_elem_of_In in Ht.
    rewrite List.Forall_forall in Hv. now apply Hv.
  - intros i Hi. rewrite List.length_map. now apply Hsel.
Qed.

(** The list of the sample run shows "#iot" and "#news", in some order. *)
Lemma list_shows_subscriptions_witness :
  NoDup (Subscriber.sub_list (app scenario_reconnecting))
  /\ (forall line,
        In line (Subscriber.sub_list (app scenario_reconnecting))
        <-> exists tag, tag ∈ Subscriber.subscribed (app scenario_reconnecting)
                        /\ line = lit "#" ++ tag)
  /\ length (Subscriber.sub_list (app scenario_reconnecting))
     = size (Subscriber.subscribed (app scenario_reconnecting))
  /\ (forall tag, tag ∈ Subscriber.subscribed (app scenario_reconnecting) ->
                  valid_tag tag)
  /\ (forall i, Subscriber.sub_sel (app scenario_reconnecting) = Some i ->
                (i < length (Subscriber.sub_list
                               (app scenario_reconnecting)))%nat).
Proof.
  apply (list_shows_subscriptions sample_env scenario_reconnecting).
  exact scenario_reconnecting_reachable.
Defined.

(** * What the programs ask of the broker *)

(** X11. The publisher only ever publishes: every publish call in the
    trace of a reachable world names a topic "twitter/<tag>" with a
    non-empty tag over [A-Za-z0-9_-], carries a non-empty payload, and is
    made at QoS 0 without the retain flag; the publisher never subscribes
    or unsubscribes. *)
Theorem publisher_calls_safe (E : Env) (w : world Publisher.App) :
  Publisher.reachable E w ->
  forall c op,
    In (Call c op) (trace w) ->
    match op with
    | publish topic payload qos retain =>
        (exists tag,
           tag <> [] /\ List.Forall (fun ch => Re.tag_char ch = true) tag
           /\ topic = lit "twitter/" ++ tag)
        /\ payload <> [] /\ qos = 0%Z /\ retain = false
    | subscribe _ _ | unsubscribe _ => False
    | _ => True
    end.
Proof.
  intros Hr c op Hin.
  pose proof (publisher_calls_invariant E w Hr) as Hall.
  rewrite List.Forall_forall in Hall. specialize (Hall _ Hin).
  destruct op; try exact I; try exact Hall.
  destruct Hall as ((tag & [Hne Hch] & Ht) & Hrest).
  split; [|exact Hrest]. exists tag. auto.
Qed.

(** The one publish call of the sample run. *)
Lemma publisher_calls_safe_witness :
  Publisher.reachable sample_env scenario_published
  /\ (forall c op,
        In (Call c op) (trace scenario_published) ->
        match op with
        | publish topic payload qos retain =>
            (exists tag,
               tag <> [] /\ List.Forall (fun ch => Re.tag_char ch = true) tag
               /\ topic = lit "twitter/" ++ tag)
            /\ payload <> [] /\ qos = 0%Z /\ retain = false
        | subscribe _ _ | unsubscribe _ => False
        | _ => True
        end).
Proof.
  split; [exact scenario_published_reachable|].
  apply (publisher_calls_safe sample_env scenario_published).
  exact scenario_published_reachable.
Defined.

(** X12. The subscriber never publishes: every subscribe call in the
    trace of a reachable world is made at QoS 0 and, like every
    unsubscribe call, names a topic "twitter/<tag>" with a non-empty tag
    over [A-Za-z0-9_-]. *)
Theorem subscriber_calls_safe (E : Env) (w : world Subscriber.App) :
  Subscriber.reachable E w ->
  forall c op,
    In (Call c op) (trace w) ->
    match op with
    | subscribe topic qos =>
        (exists tag,
           tag <> [] /\ List.Forall (fun ch => Re.tag_char ch = true) tag
           /\ topic = lit "twitter/" ++ tag)
        /\ qos = 0%Z
    | unsubscribe topic =>
        exists tag,
          tag <> [] /\ List.Forall (fun ch => Re.tag_char ch = true) tag
          /\ topic = lit "twitter/" ++ tag
    | publish _ _ _ _ => False
    | _ => True
    end.
Proof.
  intros Hr c op Hin.
  destruct (subscriber_safety_invariant E w Hr) as [_ Hall].
  rewrite List.Forall_forall in Hall. specialize (Hall _ Hin).
  destruct op; try exact I; try exact Hall.
  - destruct Hall as ((tag & [Hne Hch] & Ht) & Hq).
    split; [|exact Hq]. exists tag. auto.
  - destruct Hall as (tag & [Hne Hch] & Ht). exists tag. auto.
Qed.

(** The subscribe calls of the sample run. *)
Lemma subscriber_calls_safe_witness :
  Subscriber.reachable sample_env scenario_reconnecting
  /\ (forall c op,
        In (Call c op) (trace scenario_reconnecting) ->
        match op with
        | subscribe topic qos =>
            (exists tag,
               tag <> [] /\ List.Forall (fun ch => Re.tag_char ch = true) tag
               /\ topic = lit "twitter/" ++ tag)
            /\ qos = 0%Z
        | unsubscribe topic =>
            exists tag,
              tag <> [] /\ List.Forall (fun ch => Re.tag_char ch = true) tag
              /\ topic = lit "twitter/" ++ tag
        | publish _ _ _ _ => False
        | _ => True
        end).
Proof.
  split; [exact scenario_reconnecting_reachable|].
  apply (subscriber_calls_safe sample_env scenario_reconnecting).
  exact scenario_reconnecting_reachable.
Defined.

(** * The flag and the user's request to connect *)

Section SubscriberAsked.
Import Subscriber.
Variable E : Env.

Lemma subscriber_asked_step (w w' : world App) :
  quiet w w' -> (exists delta, trace w' = trace w ++ delta) ->
  subscriber_asked_to_connect w -> subscriber_asked_to_connect w'.
Proof.
  intros (Hcl & Hc & Hq & Ht) [delta Hg] [(b & p & Hi)|(Hi1 & Hi2 & Hi3)].
  - left. exists b, p. rewrite Hg. apply in_or_app. now left.
  - right. repeat split.
    + destruct (connected (app w')); [|reflexivity].
      rewrite Hc in Hi1; [discriminate | reflexivity].
    + intros msg H. exact (Hi2 msg (Hq msg H)).
    + intros c H. exact (Hi3 c (Ht c H)).
Qed.

Lemma subscriber_aside_extends (w w' : world App) :
  subscriber_aside w w' -> exists delta, trace w' = trace w ++ delta.
Proof.
  intros (_ & _ & _ & _ & _ & _ & delta & Hd & _). now exists delta.
Qed.

Lemma subscriber_toggle_extends (w : world App) :
  exists delta, trace (snd (_toggle_connection E w)) = trace w ++ delta.
Proof.
  destruct (subscriber_toggle_cases E w)
    as [(_ & box & Hr & _)|[(_ & l & delta & Hr & _)
        |[(_ & Hr)|(_ & l & broker & port & Hr)]]];
    rewrite Hr; cbn [snd trace]; eauto.
  exists []. now rewrite app_nil_r.
Qed.

Lemma subscriber_subscribe_extends (w : world App) :
  exists delta, trace (snd (_subscribe E w)) = trace w ++ delta.
Proof.
  destruct (subscribe_run E w) as [[_ Hr]|[(_ & _ & Hr)|(_ & _ & l & Hr)]];
    rewrite Hr; cbn [snd trace]; eauto.
Qed.

Lemma subscriber_unsubscribe_extends (w : world App) :
  exists delta, trace (snd (_unsubscribe E w)) = trace w ++ delta.
Proof.
  destruct (decide (unsubscribe_tag (app w) = [])) as [Hn|Hn].
  { destruct (unsubscribe_rejected E w (or_introl Hn)) as (box & Hr & _).
    rewrite Hr. cbn [snd trace]. eauto. }
  destruct (decide (unsubscribe_tag (app w) ∈ subscribed (app w)))
    as [Hin|Hin].
  - destruct (unsubscribe_run E w Hn Hin) as [l Hr]. rewrite Hr.
    cbn [snd trace]. eauto.
  - destruct (unsubscribe_rejected E w (or_intror Hin)) as (box & Hr & _).
    rewrite Hr. cbn [snd trace]. eauto.
Qed.

(** The flag is set, and a "connected" event queued, only after the user
    asked to connect. *)
Lemma subscriber_asked_invariant (w : world App) :
  reachable E w -> subscriber_asked_to_connect w.
Proof.
  apply (subscriber_reachable_rounds E subscriber_asked_to_connect).
  - right. repeat split;
      [intros msg [] | intros c [H|[H|[]]]; discriminate H].
  - intros w0 b p h sel H _. apply (subscriber_asked_step w0); [| |exact H].
    + unfold quiet; cbn; auto.
    + exists []. now rewrite app_nil_r.
  - intros w0 H. apply (subscriber_asked_step w0); [| |exact H].
    + apply subscriber_toggle_quiet.
    + apply subscriber_toggle_extends.
  - intros w0 H. apply (subscriber_asked_step w0); [| |exact H].
    + apply subscriber_subscribe_quiet.
    + apply subscriber_subscribe_extends.
  - intros w0 H. apply (subscriber_asked_step w0); [| |exact H].
    + apply subscriber_unsubscribe_quiet.
    + apply subscriber_unsubscribe_extends.
  - intros w0 broker port _ Hin. left. exists broker, port.
    destruct (subscriber_aside_extends _ _
                (subscriber_worker_aside E broker port w0)) as [delta Hd].
    rewrite Hd. apply in_or_app. now left.
  - intros w0 c rc [(b & p & Hl)|(_ & _ & Hr)] Hin; [|destruct (Hr c Hin)].
    left. exists b, p.
    destruct (subscriber_aside_extends _ _
                (subscriber_on_connect_aside rc w0)) as [delta Hd].
    rewrite Hd. apply in_or_app. now left.
  - intros w0 rc H. apply (subscriber_asked_step w0); [| |exact H].
    + apply subscriber_on_disconnect_quiet.
    + apply subscriber_aside_extends, subscriber_on_disconnect_aside.
  - intros w0 message H. apply (subscriber_asked_step w0); [| |exact H].
    + apply subscriber_on_message_quiet.
    + apply subscriber_aside_extends, subscriber_on_message_aside.
  - intros w0 x q Hq H. rewrite (subscriber_pop w0 x q Hq).
    destruct (subscriber_handle_cases E x
                (World (set_status_queue q (app w0)) (trace w0)))
      as [(Hk & l & Hr)|[(Hk & l & text & colour & Hr & _)|(Hk & Hr)]];
      rewrite Hr; cbn [snd app trace].
    + destruct H as [(b & p & Hl)|(_ & Hi & _)].
      * left. exists b, p. cbn [trace]. apply in_or_app. now left.
      * destruct x as [kind msg]. cbn [fst] in Hk. subst kind.
        destruct (Hi msg). rewrite Hq. now left.
    + destruct H as [(b & p & Hl)|(Hi1 & Hi2 & Hi3)].
      * left. exists b, p. exact Hl.
      * right. cbn. repeat split; [|exact Hi3].
        intros msg Hin. apply (Hi2 msg). rewrite Hq. now right.
    + destruct H as [(b & p & Hl)|(Hi1 & Hi2 & Hi3)].
      * left. exists b, p. exact Hl.
      * right. cbn. repeat split; [exact Hi1 | | exact Hi3].
        intros msg Hin. apply (Hi2 msg). rewrite Hq. now right.
  - intros w0 line H. apply (subscriber_asked_step w0); [| |exact H].
    + destruct w0 as [a tr]. unfold msg_get_nowait, _log_msg, quiet.
      cbn [app trace]. destruct (msg_queue a); cbn; auto.
    + apply subscriber_aside_extends, subscriber_line_aside.
  - intros w0 ms t H. apply (subscriber_asked_step w0); [| |exact H].
    + unfold quiet; cbn; repeat split; auto; in_cases.
    + cbn [trace]. eauto.
Qed.

End SubscriberAsked.

(** X13. Neither program shows itself connected unless the user has asked
    for it: in a reachable world whose [connected] flag is set, or whose
    status queue holds a "connected" event, a connection thread has been
    started before. *)
Theorem connected_only_on_request (E : Env) :
  (forall w : world Publisher.App,
     Publisher.reachable E w ->
     Publisher.connected (app w) = true
     \/ (exists msg,
           In (lit "connected", msg) (Publisher.status_queue (app w))) ->
     exists broker port, In (ThreadStart broker port) (trace w))
  /\ (forall w : world Subscriber.App,
        Subscriber.reachable E w ->
        Subscriber.connected (app w) = true
        \/ (exists msg,
              In (lit "connected", msg) (Subscriber.status_queue (app w))) ->
        exists broker port, In (ThreadStart broker port) (trace w)).
Proof.
  split; intros w Hr Hc.
  - destruct (publisher_asked_invariant E w Hr) as [H|(H1 & H2 & _)];
      [exact H|].
    destruct Hc as [Hc|[msg Hc]]; [congruence | destruct (H2 msg Hc)].
  - destruct (subscriber_asked_invariant E w Hr) as [H|(H1 & H2 & _)];
      [exact H|].
    destruct Hc as [Hc|[msg Hc]]; [congruence | destruct (H2 msg Hc)].
Qed.

(** The connected subscriber of the sample run: a thread was started. *)
Lemma connected_only_on_request_witness :
  Subscriber.connected (app scenario_connected) = true
  /\ exists broker port,
       In (ThreadStart broker port) (trace scenario_connected).
Proof.
  split; [reflexivity|].
  apply (proj2 (connected_only_on_request sample_env) scenario_connected).
  - exact scenario_connected_reachable.
  - left. reflexivity.
Defined.

(** * Unsubscribing *)

Section UnsubscribeFacts.
Import Subscriber.
Variable E : Env.

(** In a world whose list mirrors the set, a selection names a tag of the
    set, and the first line that shows this tag is the selected line. *)
Lemma selection_names_tag (a : App) (i : nat) :
  list_mirrors_set a -> sub_sel a = Some i ->
  unsubscribe_tag a <> []
  /\ unsubscribe_tag a ∈ subscribed a
  /\ Listbox_get (sub_list a) i = lit "#" ++ unsubscribe_tag a
  /\ first_line_of (unsubscribe_tag a) (sub_list a) 0 = Some i.
Proof.
  intros (tags & Hnd & Hv & Hl & Hs & Hsel) Hi.
  specialize (Hsel i Hi).
  unfold unsubscribe_tag. rewrite Hi, Hl, Hs. unfold Listbox_get.
  destruct (lookup_lt_is_Some_2 tags i Hsel) as [t Ht].
  destruct (list_elem_of_split_length tags i t Ht) as (pre & post & -> & ->).
  apply NoDup_app in Hnd. destruct Hnd as (_ & Hnd2 & _).
  assert (Hnpre : t ∉ pre).
  { intros Hx. apply (Hnd2 t Hx). now left. }
  apply List.Forall_app in Hv. destruct Hv as [Hv1 Hv2].
  inversion Hv2 as [|? ? Hvt Hv3]; subst.
  assert (Hnth : nth (length pre)
                   (List.map (fun t => lit "#" ++ t) (pre ++ t :: post))
                   (lit "")
                 = lit "#" ++ t).
  { rewrite List.map_app. cbn [List.map].
    rewrite <- (List.length_map (fun t => lit "#" ++ t) pre).
    rewrite List.nth_middle. reflexivity. }
  rewrite Hnth, (lstrip_marker_line t (proj2 Hvt)).
  split; [exact (proj1 Hvt)|]. split; [|split; [reflexivity|]].
  - apply elem_of_list_to_set, elem_of_app. right. now left.
  - rewrite (first_line_of_tags t pre post Hv1 Hvt Hnpre 0). reflexivity.
Qed.

End UnsubscribeFacts.

(** X14. In a reachable world, [_unsubscribe] on a tag of the set returns
    normally; it removes the tag from the set and exactly the line "#tag"
    from the list, which gets one line shorter; it calls
    [unsubscribe("twitter/<tag>")] once if the flag is set and a client
    object exists, and makes no call otherwise. *)
Theorem unsubscribe_removes (E : Env) (w : world Subscriber.App) :
  Subscriber.reachable E w ->
  Subscriber.unsubscribe_tag (app w) <> [] ->
  Subscriber.unsubscribe_tag (app w) ∈ Subscriber.subscribed (app w) ->
  fst (Subscriber._unsubscribe E w) = Ok tt
  /\ Subscriber.subscribed (app (snd (Subscriber._unsubscribe E w)))
     = Subscriber.subscribed (app w) ∖ {[Subscriber.unsubscribe_tag (app w)]}
  /\ (forall line,
        In line (Subscriber.sub_list (app (snd (Subscriber._unsubscribe E w))))
        <-> In line (Subscriber.sub_list (app w))
            /\ line <> lit "#" ++ Subscriber.unsubscribe_tag (app w))
  /\ length (Subscriber.sub_list (app (snd (Subscriber._unsubscribe E w))))
     = Nat.pred (length (Subscriber.sub_list (app w)))
  /\ added w (snd (Subscriber._unsubscribe E w))
     = (if Subscriber.connected (app w) then
          match Subscriber.client (app w) with
          | Some c =>
              [Call c (unsubscribe
                         (lit "twitter/"
                          ++ Subscriber.unsubscribe_tag (app w)))]
          | None => []
          end
        else []).
Proof.
  intros Hr Hne Hin.
  destruct (subscriber_safety_invariant E w Hr) as [Hm _].
  destruct (unsubscribe_run E w Hne Hin) as [l Hrun]. rewrite Hrun.
  cbn [fst snd app].
  destruct (mirror_remove (app w) l _ Hin Hm) as (Hm' & Hlen & Hlines).
  split; [reflexivity|]. split; [|split; [|split]].
  - destruct (Subscriber.first_line_of _ _ _); reflexivity.
  - intros line. rewrite <- Hlines.
    destruct (Subscriber.first_line_of _ _ _); reflexivity.
  - rewrite <- Hlen.
    destruct (Subscriber.first_line_of _ _ _); reflexivity.
  - apply added_app.
Qed.

(** The connected subscriber of the sample run, with "#iot" selected. *)
Lemma unsubscribe_removes_witness :
  Subscriber.unsubscribe_tag (app scenario_selected) = lit "iot"
  /\ fst (Subscriber._unsubscribe sample_env scenario_selected) = Ok tt
  /\ Subscriber.subscribed
       (app (snd (Subscriber._unsubscribe sample_env scenario_selected)))
     = Subscriber.subscribed (app scenario_selected)
       ∖ {[Subscriber.unsubscribe_tag (app scenario_selected)]}
  /\ (forall line,
        In line
          (Subscriber.sub_list
             (app (snd (Subscriber._unsubscribe sample_env
                          scenario_selected))))
        <-> In line (Subscriber.sub_list (app scenario_selected))
            /\ line
               <> lit "#" ++ Subscriber.unsubscribe_tag (app scenario_selected))
  /\ length
       (Subscriber.sub_list
          (app (snd (Subscriber._unsubscribe sample_env scenario_selected))))
     = Nat.pred (length (Subscriber.sub_list (app scenario_selected)))
  /\ added scenario_selected
       (snd (Subscriber._unsubscribe sample_env scenario_selected))
     = (if Subscriber.connected (app scenario_selected) then
          match Subscriber.client (app scenario_selected) with
          | Some c =>
              [Call c (unsubscribe
                         (lit "twitter/"
                          ++ Subscriber.unsubscribe_tag
                               (app scenario_selected)))]
          | None => []
          end
        else []).
Proof.
  split; [vm_compute; reflexivity|].
  apply (unsubscribe_removes sample_env scenario_selected).
  - exact scenario_selected_reachable.
  - vm_compute. discriminate.
  - destruct (selection_names_tag (app scenario_selected) 0) as (_ & H & _).
    + apply (subscriber_safety_invariant sample_env).
      exact scenario_selected_reachable.
    + reflexivity.
    + exact H.
Defined.

(** X15. In a reachable world with a line of the list selected,
    [_unsubscribe] never answers "Not subscribed": the selected line shows
    "#tag" for a tag of the set, and [_unsubscribe] removes this tag from
    the set and this very line from the list, and drops the selection. *)
Theorem unsubscribe_selected (E : Env) (w : world Subscriber.App) (i : nat) :
  Subscriber.reachable E w ->
  Subscriber.sub_sel (app w) = Some i ->
  exists tag,
    Subscriber.Listbox_get (Subscriber.sub_list (app w)) i = lit "#" ++ tag
    /\ tag ∈ Subscriber.subscribed (app w)
    /\ fst (Subscriber._unsubscribe E w) = Ok tt
    /\ Subscriber.subscribed (app (snd (Subscriber._unsubscribe E w)))
       = Subscriber.subscribed (app w) ∖ {[tag]}
    /\ Subscriber.sub_list (app (snd (Subscriber._unsubscribe E w)))
       = take i (Subscriber.sub_list (app w))
         ++ drop (S i) (Subscriber.sub_list (app w))
    /\ Subscriber.sub_sel (app (snd (Subscriber._unsubscribe E w))) = None
    /\ (forall b title message,
          ~ In (MessageBox b title message)
              (added w (snd (Subscriber._unsubscribe E w)))).
Proof.
  intros Hr Hi.
  destruct (subscriber_safety_invariant E w Hr) as [Hm _].
  destruct (selection_names_tag (app w) i Hm Hi) as (Hne & Hin & Hline & Hf).
  exists (Subscriber.unsubscribe_tag (app w)).
  destruct (unsubscribe_run E w Hne Hin) as [l Hrun]. rewrite Hrun, Hf.
  cbn [fst snd app]. rewrite added_app.
  split; [exact Hline|]. split; [exact Hin|]. split; [reflexivity|].
  split; [reflexivity|]. split; [reflexivity|]. split.
  - cbn [Subscriber.sub_sel Subscriber.set_msg_text Subscriber.Listbox_delete
         Subscriber.set_sub_list Subscriber.set_subscribed].
    rewrite Hi, Nat.ltb_irrefl, Nat.eqb_refl. reflexivity.
  - intros b title message H.
    destruct (Subscriber.connected (app w)); [|destruct H].
    destruct (Subscriber.client (app w)); [|destruct H].
    destruct H as [H|[]]. discriminate H.
Qed.

(** The connected subscriber of the sample run, with its first line
    selected. *)
Lemma unsubscribe_selected_witness :
  Subscriber.sub_sel (app scenario_selected) = Some 0%nat
  /\ exists tag,
       Subscriber.Listbox_get (Subscriber.sub_list (app scenario_selected)) 0
       = lit "#" ++ tag
       /\ tag ∈ Subscriber.subscribed (app scenario_selected)
       /\ fst (Subscriber._unsubscribe sample_env scenario_selected) = Ok tt
       /\ Subscriber.subscribed
            (app (snd (Subscriber._unsubscribe sample_env scenario_selected)))
          = Subscriber.subscribed (app scenario_selected) ∖ {[tag]}
       /\ Subscriber.sub_list
            (app (snd (Subscriber._unsubscribe sample_env scenario_selected)))
          = take 0 (Subscriber.sub_list (app scenario_selected))
            ++ drop 1 (Subscriber.sub_list (app scenario_selected))
       /\ Subscriber.sub_sel
            (app (snd (Subscriber._unsubscribe sample_env scenario_selected)))
          = None
       /\ (forall b title message,
             ~ In (MessageBox b title message)
                 (added scenario_selected
                    (snd (Subscriber._unsubscribe sample_env
                            scenario_selected)))).
Proof.
  split; [reflexivity|].
  apply (unsubscribe_selected sample_env scenario_selected 0).
  - exact scenario_selected_reachable.
  - reflexivity.
Defined.

(** X16. Subscribing and then unsubscribing is a round trip.  In a
    reachable world with no line selected and an entry that normalises to
    a new tag, [_subscribe] followed by [_unsubscribe] (the entry left as
    it is) ends with the subscription set and the displayed list as they
    were before. *)
Theorem subscribe_unsubscribe_round_trip (E : Env)
    (w : world Subscriber.App) :
  Subscriber.reachable E w ->
  Subscriber.sub_sel (app w) = None ->
  sanitize_hashtag (Subscriber.hashtag_var (app w)) <> [] ->
  sanitize_hashtag (Subscriber.hashtag_var (app w))
  ∉ Subscriber.subscribed (app w) ->
  fst (Subscriber._unsubscribe E (snd (Subscriber._subscribe E w))) = Ok tt
  /\ Subscriber.subscribed
       (app (snd (Subscriber._unsubscribe E (snd (Subscriber._subscribe E w)))))
     = Subscriber.subscribed (app w)
  /\ Subscriber.sub_list
       (app (snd (Subscriber._unsubscribe E (snd (Subscriber._subscribe E w)))))
     = Subscriber.sub_list (app w)
  /\ Subscriber.sub_sel
       (app (snd (Subscriber._unsubscribe E (snd (Subscriber._subscribe E w)))))
     = None.
Proof.
  intros Hr Hsel Hne Hnin.
  destruct (subscriber_safety_invariant E w Hr)
    as [(tags & Hnd & Hv & Hl & Hs & _) _].
  pose proof (valid_tag_sanitize _ Hne) as Hvalid.
  destruct (subscribe_run E w) as [[H _]|[(_ & H & _)|(_ & _ & l & Hrun)]];
    [contradiction | contradiction |].
  rewrite Hrun. cbn [snd].
  set (tag := sanitize_hashtag (Subscriber.hashtag_var (app w))) in *.
  match goal with
  | |- context [Subscriber._unsubscribe E ?w0] => set (w1 := w0)
  end.
  assert (Htag : Subscriber.unsubscribe_tag (app w1) = tag).
  { unfold Subscriber.unsubscribe_tag, w1. cbn. rewrite Hsel. reflexivity. }
  assert (Hin1 : tag ∈ Subscriber.subscribed (app w1)).
  { unfold w1. cbn. apply elem_of_union. left. now apply elem_of_singleton. }
  destruct (unsubscribe_run E w1) as [l' Hrun'];
    [now rewrite Htag | now rewrite Htag |].
  rewrite Hrun', Htag. cbn [fst snd app].
  assert (Hntags : tag ∉ tags).
  { intros Hx. apply Hnin. rewrite Hs. now apply elem_of_list_to_set. }
  assert (Hfirst : Subscriber.first_line_of tag (Subscriber.sub_list (app w1)) 0
                   = Some (length (Subscriber.sub_list (app w)))).
  { unfold w1. cbn [app Subscriber.sub_list Subscriber.set_msg_text
                      Subscriber.set_sub_list].
    rewrite Hl.
    change (List.map (fun t => lit "#" ++ t) tags ++ [lit "#" ++ tag])
      with (List.map (fun t => lit "#" ++ t) tags
            ++ List.map (fun t => lit "#" ++ t) [tag]).
    rewrite <- List.map_app.
    rewrite (first_line_of_tags tag tags [] Hv Hvalid Hntags 0).
    now rewrite List.length_map. }
  rewrite Hfirst.
  split; [reflexivity|]. split; [|split].
  - unfold w1. cbn. apply set_eq. intros x.
    rewrite elem_of_difference, elem_of_union, elem_of_singleton.
    split.
    + intros [[Hx|Hx] Hn]; [contradiction | exact Hx].
    + intros Hx. split; [now right | intros ->; contradiction].
  - unfold w1.
    cbn [app Subscriber.sub_list Subscriber.set_msg_text
           Subscriber.set_sub_list Subscriber.set_subscribed
           Subscriber.Listbox_delete].
    rewrite delete_middle. apply app_nil_r.
  - unfold w1.
    cbn [app Subscriber.sub_sel Subscriber.set_msg_text
           Subscriber.set_sub_list Subscriber.set_subscribed
           Subscriber.Listbox_delete].
    now rewrite Hsel.
Qed.

(** The connected subscriber of the sample run follows and unfollows
    "#mqtt". *)
Lemma subscribe_unsubscribe_round_trip_witness :
  sanitize_hashtag (Subscriber.hashtag_var (app scenario_typed_mqtt))
  = lit "mqtt"
  /\ fst (Subscriber._unsubscribe sample_env
            (snd (Subscriber._subscribe sample_env scenario_typed_mqtt)))
     = Ok tt
  /\ Subscriber.subscribed
       (app (snd (Subscriber._unsubscribe sample_env
                    (snd (Subscriber._subscribe sample_env
                            scenario_typed_mqtt)))))
     = Subscriber.subscribed (app scenario_typed_mqtt)
  /\ Subscriber.sub_list
       (app (snd (Subscriber._unsubscribe sample_env
                    (snd (Subscriber._subscribe sample_env
                            scenario_typed_mqtt)))))
     = Subscriber.sub_list (app scenario_typed_mqtt)
  /\ Subscriber.sub_sel
       (app (snd (Subscriber._unsubscribe sample_env
                    (snd (Subscriber._subscribe sample_env
                            scenario_typed_mqtt)))))
     = None.
Proof.
  split; [vm_compute; reflexivity|].
  apply (subscribe_unsubscribe_round_trip sample_env scenario_typed_mqtt).
  - exact scenario_typed_mqtt_reachable.
  - reflexivity.
  - vm_compute. discriminate.
  - intros Hin.
    destruct (subscriber_safety_invariant sample_env scenario_typed_mqtt
                scenario_typed_mqtt_reachable)
      as [(tags & _ & _ & Hl & Hs & _) _].
    rewrite Hs in Hin. apply elem_of_list_to_set in Hin.
    apply list_elem_of_In in Hin.
    apply (in_map (fun t => lit "#" ++ t)) in Hin.
    rewrite <- Hl in Hin. vm_compute in Hin.
    destruct Hin as [Hin|[Hin|[]]]; discriminate Hin.
Defined.

(** * The display after a drain *)

Section LastEvent.
Variable E : Env.

Lemma rounds_snoc {S X} (get : M S X) (handle : X -> M S unit)
    (items : list X) (x : X) (s : S) :
  rounds get handle (items ++ [x]) s
  = snd (handle x (snd (get (rounds get handle items s)))).
Proof. unfold rounds. now rewrite fold_left_app. Qed.

Lemma kinds_differ :
  lit "disconnected" <> lit "connected"
  /\ lit "error" <> lit "connected"
  /\ lit "error" <> lit "disconnected".
Proof. repeat split; intros H; vm_compute in H; discriminate H. Qed.

(** What handling one status event does to the display of the publisher,
    whatever the state it runs on. *)
Lemma publisher_handle_display (kind msg : str) (w : world Publisher.App) :
  (kind = lit "connected" ->
   Publisher.connected (app (snd (Publisher.handle_status E (kind, msg) w)))
   = true
   /\ Publisher.connect_btn
        (app (snd (Publisher.handle_status E (kind, msg) w)))
      = lit "Disconnect"
   /\ Publisher.status_lbl
        (app (snd (Publisher.handle_status E (kind, msg) w)))
      = (lit "Status: Connected", lit "green"))
  /\ (kind = lit "disconnected" ->
      Publisher.connected (app (snd (Publisher.handle_status E (kind, msg) w)))
      = false
      /\ Publisher.connect_btn
           (app (snd (Publisher.handle_status E (kind, msg) w)))
         = lit "Connect"
      /\ Publisher.status_lbl
           (app (snd (Publisher.handle_status E (kind, msg) w)))
         = (lit "Status: Disconnected", lit "red"))
  /\ (kind = lit "error" ->
      Publisher.connected (app (snd (Publisher.handle_status E (kind, msg) w)))
      = false
      /\ Publisher.connect_btn
           (app (snd (Publisher.handle_status E (kind, msg) w)))
         = lit "Connect"
      /\ Publisher.status_lbl
           (app (snd (Publisher.handle_status E (kind, msg) w)))
         = (lit "Status: Error " ++ em_dash ++ lit " see log", lit "red")).
Proof.
  destruct kinds_differ as (H1 & H2 & H3).
  destruct w as [a tr]. unfold Publisher.handle_status, Publisher._log.
  split; [|split]; intros ->;
    rewrite ?(bool_decide_false _ H1), ?(bool_decide_false _ H2),
      ?(bool_decide_false _ H3), ?bool_decide_true by reflexivity;
    repeat split.
Qed.

Lemma subscriber_handle_display (kind msg : str) (w : world Subscriber.App) :
  (kind = lit "connected" ->
   Subscriber.connected
     (app (snd (Subscriber.handle_status E (kind, msg) w))) = true
   /\ Subscriber.connect_btn
        (app (snd (Subscriber.handle_status E (kind, msg) w)))
      = lit "Disconnect"
   /\ Subscriber.status_lbl
        (app (snd (Subscriber.handle_status E (kind, msg) w)))
      = (lit "Status: Connected", lit "green"))
  /\ (kind = lit "disconnected" ->
      Subscriber.connected
        (app (snd (Subscriber.handle_status E (kind, msg) w))) = false
      /\ Subscriber.connect_btn
           (app (snd (Subscriber.handle_status E (kind, msg) w)))
         = lit "Connect"
      /\ Subscriber.status_lbl
           (app (snd (Subscriber.handle_status E (kind, msg) w)))
         = (lit "Status: Disconnected", lit "red"))
  /\ (kind = lit "error" ->
      Subscriber.connected
        (app (snd (Subscriber.handle_status E (kind, msg) w))) = false
      /\ Subscriber.connect_btn
           (app (snd (Subscriber.handle_status E (kind, msg) w)))
         = lit "Connect"
      /\ Subscriber.status_lbl
           (app (snd (Subscriber.handle_status E (kind, msg) w)))
         = (lit "Status: Error " ++ em_dash ++ lit " see feed", lit "red")).
Proof.
  destruct kinds_differ as (H1 & H2 & H3).
  split; [|split]; intros ->.
  - destruct (subscriber_handle_cases E (lit "connected", msg) w)
      as [(_ & l & Hr)|[(Hk & _)|(Hk & _)]];
      [|now destruct Hk|now destruct Hk].
    rewrite Hr. repeat split.
  - destruct w as [a tr].
    unfold Subscriber.handle_status, Subscriber._log_msg.
    rewrite (bool_decide_false _ H1), bool_decide_true by reflexivity.
    repeat split.
  - destruct w as [a tr].
    unfold Subscriber.handle_status, Subscriber._log_msg.
    rewrite (bool_decide_false _ H2), (bool_decide_false _ H3),
      bool_decide_true by reflexivity.
    repeat split.
Qed.

End LastEvent.

(** X17. The last event wins.  After a drain of the status queue, given
    more fuel than queued entries, the display of either program is the
    one of the event queued last, whatever came before it: flag set,
    button "Disconnect" and "Status: Connected" for a "connected" event;
    flag cleared and button "Connect" for a "disconnected" or "error"
    event, with "Status: Disconnected" for the one and the "Status: Error"
    line for the other. *)
Theorem drain_last_event_wins (E : Env) :
  (forall (w : world Publisher.App) (fuel : nat) (q : list (str * str))
          (kind msg : str),
     Publisher.status_queue (app w) = q ++ [(kind, msg)] ->
     (length (Publisher.status_queue (app w)) < fuel)%nat ->
     (kind = lit "connected" ->
      Publisher.connected (app (snd (Publisher._drain_status_queue E fuel w)))
      = true
      /\ Publisher.connect_btn
           (app (snd (Publisher._drain_status_queue E fuel w)))
         = lit "Disconnect"
      /\ Publisher.status_lbl
           (app (snd (Publisher._drain_status_queue E fuel w)))
         = (lit "Status: Connected", lit "green"))
     /\ (kind = lit "disconnected" ->
         Publisher.connected
           (app (snd (Publisher._drain_status_queue E fuel w))) = false
         /\ Publisher.connect_btn
              (app (snd (Publisher._drain_status_queue E fuel w)))
            = lit "Connect"
         /\ Publisher.status_lbl
              (app (snd (Publisher._drain_status_queue E fuel w)))
            = (lit "Status: Disconnected", lit "red"))
     /\ (kind = lit "error" ->
         Publisher.connected
           (app (snd (Publisher._drain_status_queue E fuel w))) = false
         /\ Publisher.connect_btn
              (app (snd (Publisher._drain_status_queue E fuel w)))
            = lit "Connect"
         /\ Publisher.status_lbl
              (app (snd (Publisher._drain_status_queue E fuel w)))
            = (lit "Status: Error " ++ em_dash ++ lit " see log",
               lit "red")))
  /\ (forall (w : world Subscriber.App) (fuel : nat) (q : list (str * str))
             (kind msg : str),
        Subscriber.status_queue (app w) = q ++ [(kind, msg)] ->
        (length (Subscriber.status_queue (app w)) < fuel)%nat ->
        (kind = lit "connected" ->
         Subscriber.connected
           (app (snd (Subscriber._drain_status_queue E fuel w))) = true
         /\ Subscriber.connect_btn
              (app (snd (Subscriber._drain_status_queue E fuel w)))
            = lit "Disconnect"
         /\ Subscriber.status_lbl
              (app (snd (Subscriber._drain_status_queue E fuel w)))
            = (lit "Status: Connected", lit "green"))
        /\ (kind = lit "disconnected" ->
            Subscriber.connected
              (app (snd (Subscriber._drain_status_queue E fuel w))) = false
            /\ Subscriber.connect_btn
                 (app (snd (Subscriber._drain_status_queue E fuel w)))
               = lit "Connect"
            /\ Subscriber.status_lbl
                 (app (snd (Subscriber._drain_status_queue E fuel w)))
               = (lit "Status: Disconnected", lit "red"))
        /\ (kind = lit "error" ->
            Subscriber.connected
              (app (snd (Subscriber._drain_status_queue E fuel w))) = false
            /\ Subscriber.connect_btn
                 (app (snd (Subscriber._drain_status_queue E fuel w)))
               = lit "Connect"
            /\ Subscriber.status_lbl
                 (app (snd (Subscriber._drain_status_queue E fuel w)))
               = (lit "Status: Error " ++ em_dash ++ lit " see feed",
                  lit "red"))).
Proof.
  split; intros w fuel q kind msg Hq Hlen.
  - destruct (publisher_drain E w fuel Hlen) as [Hrun _].
    rewrite Hrun, Hq, rounds_snoc. cbn [snd app].
    apply publisher_handle_display.
  - destruct (subscriber_drain E w fuel Hlen) as [Hrun _].
    rewrite Hrun, Hq, rounds_snoc. cbn [snd app].
    apply subscriber_handle_display.
Qed.

(** The sample run: the connection was lost and made again, and the drain
    that finds "disconnected" and then "connected" in the queue ends with
    the subscriber shown as connected. *)
Lemma drain_last_event_wins_witness :
  Subscriber.status_queue
    (app (snd (Subscriber._on_connect 0
                 (snd (Subscriber._on_disconnect 7 scenario_connected)))))
  = [(lit "disconnected", lit "Disconnected from broker.")]
    ++ [(lit "connected", lit "Connected to broker.")]
  /\ Subscriber.connected
       (app (snd (Subscriber._drain_status_queue sample_env 3
                    (snd (Subscriber._on_connect 0
                            (snd (Subscriber._on_disconnect 7
                                    scenario_connected)))))))
     = true
  /\ Subscriber.connect_btn
       (app (snd (Subscriber._drain_status_queue sample_env 3
                    (snd (Subscriber._on_connect 0
                            (snd (Subscriber._on_disconnect 7
                                    scenario_connected)))))))
     = lit "Disconnect"
  /\ Subscriber.status_lbl
       (app (snd (Subscriber._drain_status_queue sample_env 3
                    (snd (Subscriber._on_connect 0
                            (snd (Subscriber._on_disconnect 7
                                    scenario_connected)))))))
     = (lit "Status: Connected", lit "green").
Proof.
  split; [vm_compute; reflexivity|].
  apply (proj2 (drain_last_event_wins sample_env)
           (snd (Subscriber._on_connect 0
                   (snd (Subscriber._on_disconnect 7 scenario_connected))))
           3%nat
           [(lit "disconnected", lit "Disconnected from broker.")]
           (lit "connected") (lit "Connected to broker.")).
  - vm_compute. reflexivity.
  - vm_compute. lia.
  - reflexivity.
Defined.

(** * Followed tags have been asked for *)

Section SubscriberRequested.
Import Subscriber.
Variable E : Env.

Lemma requested_step (w w' : world App) :
  (connected (app w') = true -> connected (app w) = true) ->
  (forall tag, tag ∈ subscribed (app w') -> tag ∈ subscribed (app w)) ->
  (exists delta, trace w' = trace w ++ delta) ->
  subscriptions_requested w -> subscriptions_requested w'.
Proof.
  intros Hc Hs [delta Hd] H Hc' tag Hin.
  destruct (H (Hc Hc') tag (Hs tag Hin)) as [c Hcall].
  exists c. rewrite Hd. apply in_or_app. now left.
Qed.

Lemma requested_aside (w w' : world App) :
  subscriber_aside w w' ->
  subscriptions_requested w -> subscriptions_requested w'.
Proof.
  intros Ha. apply requested_step.
  - destruct Ha as (Hc & _). now rewrite Hc.
  - destruct Ha as (_ & _ & _ & _ & Hs & _). now rewrite Hs.
  - now apply subscriber_aside_extends.
Qed.

Lemma subscribe_calls_in (a : App) (c : nat) (tags : list str) (tag : str) :
  connected a = true -> client a = Some c -> In tag tags ->
  In (Call c (subscribe (lit "twitter/" ++ tag) 0)) (subscribe_calls a tags).
Proof.
  intros Hc Hcl Hin. unfold subscribe_calls. rewrite Hc, Hcl.
  apply (in_map (fun tag => Call c (subscribe (TOPIC_PREFIX ++ tag) 0))).
  exact Hin.
Qed.

(** A client object exists whenever the flag is set or a "connected"
    event is queued, and the tags of the set have been subscribed to
    whenever the flag is set. *)
Lemma subscriber_requested_invariant (w : world App) :
  reachable E w -> client_invariant w /\ subscriptions_requested w.
Proof.
  intros Hr. split; [now apply (subscriber_reachable_invariant E)|].
  revert w Hr.
  assert (Hgoal : forall w, reachable E w ->
                    client_invariant w /\ subscriptions_requested w);
    [|intros w Hr; exact (proj2 (Hgoal w Hr))].
  apply (subscriber_reachable_rounds E
           (fun w => client_invariant w /\ subscriptions_requested w)).
  - split.
    + right. repeat split;
        [intros msg [] | intros c [H|[H|[]]]; discriminate H].
    + intros H. discriminate H.
  - intros w0 b p h sel [Hi Hq] _. split.
    + apply (subscriber_quiet_invariant w0); [|exact Hi].
      unfold quiet; cbn; auto.
    + apply (requested_step w0); auto. exists []. now rewrite app_nil_r.
  - intros w0 [Hi Hq]. split.
    + exact (subscriber_quiet_invariant _ _ (subscriber_toggle_quiet E w0) Hi).
    + apply (requested_step w0);
        [| |apply subscriber_toggle_extends|exact Hq].
      * destruct (subscriber_toggle_quiet E w0) as (_ & Hc & _). exact Hc.
      * destruct (subscriber_toggle_cases E w0)
          as [(_ & box & Hr & _)|[(_ & l & delta & Hr & _)
              |[(_ & Hr)|(_ & l & broker & port & Hr)]]];
          rewrite Hr; cbn; auto.
  - intros w0 [Hi Hq]. split.
    + exact (subscriber_quiet_invariant _ _
               (subscriber_subscribe_quiet E w0) Hi).
    + destruct (subscribe_run E w0)
        as [[_ Hr]|[(_ & _ & Hr)|(_ & _ & l & Hr)]]; rewrite Hr; cbn [snd].
      * apply (requested_step w0); cbn; eauto.
      * apply (requested_step w0); cbn; eauto.
      * intros Hc tag Hin. cbn in Hc. cbn [app trace] in *.
        cbn in Hin. apply elem_of_union in Hin. destruct Hin as [Hin|Hin].
        -- apply elem_of_singleton in Hin. subst tag.
           destruct Hi as [[c Hcl]|(Hf & _)]; [|congruence].
           exists c. apply in_or_app. right.
           apply subscribe_calls_in; auto. now left.
        -- destruct (Hq Hc tag Hin) as [c Hcall].
           exists c. apply in_or_app. now left.
  - intros w0 [Hi Hq]. split.
    + exact (subscriber_quiet_invariant _ _
               (subscriber_unsubscribe_quiet E w0) Hi).
    + apply (requested_step w0);
        [| |apply subscriber_unsubscribe_extends|exact Hq].
      * destruct (subscriber_unsubscribe_quiet E w0) as (_ & Hc & _).
        exact Hc.
      * destruct (decide (unsubscribe_tag (app w0) = [])) as [Hn|Hn].
        { destruct (unsubscribe_rejected E w0 (or_introl Hn))
            as (box & Hr & _).
          rewrite Hr. auto. }
        destruct (decide (unsubscribe_tag (app w0) ∈ subscribed (app w0)))
          as [Hin|Hin].
        -- destruct (unsubscribe_run E w0 Hn Hin) as [l Hr]. rewrite Hr.
           cbn [snd app]. intros tag Ht.
           assert (Ht' : tag ∈ subscribed (app w0)
                                 ∖ {[unsubscribe_tag (app w0)]}).
           { destruct (first_line_of _ _ _); exact Ht. }
           apply elem_of_difference in Ht'. tauto.
        -- destruct (unsubscribe_rejected E w0 (or_intror Hin))
             as (box & Hr & _).
           rewrite Hr. auto.
  - intros w0 broker port [Hi Hq] _. split.
    + now apply subscriber_worker_invariant.
    + exact (requested_aside _ _ (subscriber_worker_aside E broker port w0) Hq).
  - intros w0 c rc [Hi Hq] Hin. split.
    + now apply (subscriber_on_connect_invariant rc c).
    + exact (requested_aside _ _ (subscriber_on_connect_aside rc w0) Hq).
  - intros w0 rc [Hi Hq]. split.
    + exact (subscriber_quiet_invariant _ _
               (subscriber_on_disconnect_quiet rc w0) Hi).
    + exact (requested_aside _ _ (subscriber_on_disconnect_aside rc w0) Hq).
  - intros w0 message [Hi Hq]. split.
    + exact (subscriber_quiet_invariant _ _
               (subscriber_on_message_quiet message w0) Hi).
    + exact (requested_aside _ _
               (subscriber_on_message_aside message w0) Hq).
  - intros w0 x q Hqu [Hi Hq]. split.
    + now apply (subscriber_round_invariant E w0 x q).
    + rewrite (subscriber_pop w0 x q Hqu).
      destruct (subscriber_handle_cases E x
                  (World (set_status_queue q (app w0)) (trace w0)))
        as [(Hk & l & Hr)|[(Hk & l & text & colour & Hr & _)|(Hk & Hr)]];
        rewrite Hr; cbn [snd].
      * intros _ tag Hin. cbn in Hin. cbn [trace].
        destruct Hi as [[c Hcl]|(_ & Hno & _)].
        -- exists c. apply in_or_app. right.
           apply subscribe_calls_in; [reflexivity | exact Hcl |].
           apply (resubscribe_order_In E). exact Hin.
        -- destruct x as [kind msg]. cbn [fst] in Hk. subst kind.
           destruct (Hno msg). rewrite Hqu. now left.
      * intros Hc. cbn in Hc. discriminate Hc.
      * apply (requested_step w0); cbn; auto.
        exists []. now rewrite app_nil_r.
  - intros w0 line [Hi Hq]. split.
    + apply (subscriber_quiet_invariant w0); [|exact Hi].
      destruct w0 as [a tr]. unfold msg_get_nowait, _log_msg, quiet.
      cbn [app trace]. destruct (msg_queue a); cbn; auto.
    + exact (requested_aside _ _ (subscriber_line_aside E line w0) Hq).
  - intros w0 ms t [Hi Hq]. split.
    + apply (subscriber_quiet_invariant w0); [|exact Hi].
      unfold quiet; cbn; repeat split; auto; in_cases.
    + apply (requested_step w0); cbn; eauto.
Qed.

End SubscriberRequested.

(** X18. While the subscriber shows itself connected, it has asked for
    everything it follows: in a reachable world with the [connected] flag
    set, a client object exists and, for every tag of the subscription
    set, the program has at some point made a call
    [subscribe("twitter/<tag>", qos=0)] on some client object.  What the
    library answered is not part of the statement: [_subscribe_to_topic]
    ignores the result of the call and only logs an exception. *)
Theorem followed_tags_requested (E : Env) (w : world Subscriber.App) :
  Subscriber.reachable E w ->
  Subscriber.connected (app w) = true ->
  is_Some (Subscriber.client (app w))
  /\ forall tag,
       tag ∈ Subscriber.subscribed (app w) ->
       exists c, In (Call c (subscribe (lit "twitter/" ++ tag) 0)) (trace w).
Proof.
  intros Hr Hc.
  destruct (subscriber_requested_invariant E w Hr) as [Hi Hq]. split.
  - destruct Hi as [Hi|(Hf & _)]; [exact Hi | congruence].
  - exact (Hq Hc).
Qed.

(** The connected subscriber of the sample run. *)
Lemma followed_tags_requested_witness :
  Subscriber.connected (app scenario_connected) = true
  /\ is_Some (Subscriber.client (app scenario_connected))
  /\ forall tag,
       tag ∈ Subscriber.subscribed (app scenario_connected) ->
       exists c,
         In (Call c (subscribe (lit "twitter/" ++ tag) 0))
           (trace scenario_connected).
Proof.
  split; [reflexivity|].
  apply (followed_tags_requested sample_env scenario_connected).
  - exact scenario_connected_reachable.
  - reflexivity.
Defined.
